(** * Station master: the daily planning engine

    A shallow embedding of [src/components/DailyPlanning.tsx] (the revision
    with lanes): the greedy batch distribution [distributeEmployees], the
    interactive reassignment [handleDrop] / [performMove] and the history
    index [getEmployeeHistory], together with the two records tables they
    write, [daily_assignments] and [work_history].

    Conventions of the embedding:
    - a JS [number] that holds a head count or a visit count is a [Z];
      the one quotient of the program (the average of [handleDrop]) is
      taken in [Q], and the same lines are given a second time in binary64
      ([overuseWarn64]) and shown to give the same answer on every history
      of up to 16 stations and 256 visits;
    - a string of the program is the list of the bytes of its UTF-8
      encoding;
    - a [Record<string, number>] is a [gmap string Z]; reading a missing
      key and applying [|| 0] is [default 0 (m !! k)]. The keys of these
      maps are station names; a plain object agrees with such a map on the
      names that are no property names of [Object.prototype], which the
      names of [STATIONS] are not, and the properties that depend on it are
      stated for rows at stations of [STATIONS], the only rows that the
      component writes;
    - [new Set<string>()] is a [gset string];
    - a table of the records store is the list of its rows, [insert]
      appends a row and [delete().eq(..)] filters the matching rows out;
    - the component state ([useState]) and the two tables are threaded
      explicitly through every handler;
    - [Array.prototype.sort] is stable (ECMAScript 2019), and is embedded as
      a stable insertion sort over the comparator the code passes. *)

From Stdlib Require Import ZArith QArith Qround Lia Permutation Sorted.

From Stdlib Require Import String Ascii.

From Stdlib Require Import SpecFloat.

From stdpp Require Import gmap strings list fin_maps sorting.

Local Open Scope string_scope.

Local Open Scope list_scope.

Local Open Scope Z_scope.

(** ** Data model *)

(** A calendar day, as [toISOString().split("T")[0]] names it; days are
    ordered as the records store orders the [date] column. *)
Definition date := Z.

(** [interface Employee]. *)
Record Employee := {
  id : string;
  name : string;
  shift : string;
}.

(** [interface Assignment]: one entry of the [assignments] state. *)
Record Assignment := {
  employeeId : string;
  employeeName : string;
  station : string;
  lane : option Z;
}.

(** A row of [daily_assignments] or of [work_history]; the two tables have
    the same columns, the date being [assigned_date] in the former and
    [work_date] in the latter. *)
Record Row := {
  employee_id : string;
  row_station : string;
  row_date : date;
  row_lane : option Z;
}.

#[global] Instance Assignment_eq_dec : EqDecision Assignment.
Proof. solve_decision. Defined.

#[global] Instance Row_eq_dec : EqDecision Row.
Proof. solve_decision. Defined.

(** The [warningDialog] state; [onConfirm] re-invokes [performMove] with the
    destination captured by the closure, kept here as two fields. *)
Record WarningDialog := {
  wd_employeeName : string;
  wd_toStation : string;
  wd_count : Z;
  wd_toLane : option Z;
}.

(** The calls to [toast]. *)
Inductive Toast :=
| IngenVald                       (* variant "destructive": nobody selected *)
| FordelningKlar (placed : nat)   (* distribution done *)
| Flyttad (who : string) (toStation : string) (toLane : option Z).

(** What [new Date()] yields in one handler run. *)
Record Clock := {
  today : date;
  sixMonthsAgo : date;
}.

(** The component state together with the two tables of the records
    store. *)
Record State := {
  employees : list Employee;
  selectedEmployees : list string;
  stationNeeds : gmap string Z;
  assignments : list Assignment;
  flManual : string;
  loading : bool;
  draggedEmployee : option Assignment;
  warningDialog : option WarningDialog;
  daily_assignments : list Row;
  work_history : list Row;
}.

Definition STATIONS : list string :=
  ["Plock"; "Autoplock"; "Pack"; "Auto pack"; "KM"; "Decating"; "In/Ut"; "Rep"; "FL"].

(** ** [Array.prototype.sort] *)

Section Sort.

Context {A : Type} (cmp : A → A → Z).

(** [x] stood before every element of [l] in the array being sorted: it
    stays in front of [y] unless the comparator puts [y] first. *)
Fixpoint sort_insert (x : A) (l : list A) : list A :=
  match l with
  | [] => [x]
  | y :: l' => if cmp x y <=? 0 then x :: l else y :: sort_insert x l'
  end.

Definition sort (l : list A) : list A := foldr sort_insert [] l.

End Sort.

(** ** The history index *)

(** [getEmployeeHistory]: the rows of the worker since [sixMonthsAgo],
    counted per station. The object that the function returns is this map
    when the rows counted are at stations that name no property of
    [Object.prototype], as are the stations of [STATIONS]; a row at such a
    name would read the inherited property in place of a count. *)
Definition getEmployeeHistory (table : list Row) (since : date)
    (employeeId : string) : gmap string Z :=
  let data :=
    filter (λ r, employee_id r = employeeId ∧ since ≤ row_date r) table in
  foldl (λ (stationCount : gmap string Z) item,
           <[row_station item :=
               default 0 (stationCount !! row_station item) + 1]> stationCount)
        ∅ data.

(** ** The planner *)

(** An element of [employeeHistories]. *)
Record EmployeeHistory := {
  eh_id : string;
  history : gmap string Z;
}.

(** The variables the station loop of [distributeEmployees] updates. *)
Record Loop := {
  newAssignments : list Assignment;
  assignedEmployees : gset string;
  l_daily_assignments : list Row;
  l_work_history : list Row;
}.

(** [stationNeeds[station] || 0]. *)
Definition needOf (needs : gmap string Z) (s : string) : Z :=
  default 0 (needs !! s).

(** [a.history[station] || 0]. *)
Definition countAt (s : string) (e : EmployeeHistory) : Z :=
  default 0 (history e !! s).

(** [employees.find((e) => e.id === employee.id)?.name || ""]. *)
Definition nameOf (roster : list Employee) (i : string) : string :=
  match List.find (λ e, bool_decide (id e = i)) roster with
  | Some e => name e
  | None => ""
  end.

(** The body of the inner [for] loop, for [employee = available[i]]. *)
Definition placeEmployee (now : Clock) (roster : list Employee)
    (s : string) (employee : EmployeeHistory) (l : Loop) : Loop :=
  {| newAssignments :=
       newAssignments l ++
       [{| employeeId := eh_id employee;
           employeeName := nameOf roster (eh_id employee);
           station := s; lane := None |}];
     assignedEmployees := assignedEmployees l ∪ {[eh_id employee]};
     l_daily_assignments :=
       l_daily_assignments l ++
       [{| employee_id := eh_id employee; row_station := s;
           row_date := today now; row_lane := None |}];
     l_work_history :=
       l_work_history l ++
       [{| employee_id := eh_id employee; row_station := s;
           row_date := today now; row_lane := None |}] |}.

(** [for (let i = 0; i < needed && i < available.length; i++)], run from
    index [i] on the part [rest] of [available] that starts at [i]. *)
Fixpoint placeLoop (now : Clock) (roster : list Employee) (s : string)
    (needed : Z) (i : Z) (rest : list EmployeeHistory) (l : Loop) : Loop :=
  match rest with
  | [] => l
  | employee :: rest' =>
      if i <? needed
      then placeLoop now roster s needed (i + 1) rest'
             (placeEmployee now roster s employee l)
      else l
  end.

(** [employeeHistories.filter(..).sort(..)] for one station. *)
Definition availableFor (employeeHistories : list EmployeeHistory)
    (assigned : gset string) (s : string) : list EmployeeHistory :=
  sort (λ a b, countAt s a - countAt s b)
       (filter (λ emp, eh_id emp ∉ assigned) employeeHistories).

(** The body of [for (const station of sortedStations)]. *)
Definition fillStation (now : Clock) (roster : list Employee)
    (needs : gmap string Z) (employeeHistories : list EmployeeHistory)
    (l : Loop) (s : string) : Loop :=
  let needed := needOf needs s in
  let available := availableFor employeeHistories (assignedEmployees l) s in
  placeLoop now roster s needed 0 available l.

(** [stationsToFill.filter(..).sort(..)]. *)
Definition sortedStationsOf (stations : list string)
    (needs : gmap string Z) : list string :=
  let stationsToFill := filter (λ s, s ≠ "FL") stations in
  sort (λ a b, needOf needs b - needOf needs a)
       (filter (λ s, needOf needs s > 0) stationsToFill).

Definition sortedStations (needs : gmap string Z) : list string :=
  sortedStationsOf STATIONS needs.

(** [flManual.trim()] is truthy when some code point of the text is not
    white space. [String.prototype.trim] strips the code points of
    [WhiteSpace] and [LineTerminator]: U+0009 to U+000D, U+0020, U+00A0,
    U+1680, U+2000 to U+200A, U+2028, U+2029, U+202F, U+205F, U+3000 and
    U+FEFF. The text being the bytes of its UTF-8 encoding, they are one
    byte, the two bytes C2 A0, or one of sixteen sequences of three
    bytes. *)
Definition isSpace (c : ascii) : bool :=
  let n := nat_of_ascii c in
  (n =? 32)%nat || ((9 <=? n)%nat && (n <=? 13)%nat).

Definition isSpace2 (c1 c2 : ascii) : bool :=
  (nat_of_ascii c1 =? 194)%nat && (nat_of_ascii c2 =? 160)%nat.

Definition isSpace3 (c1 c2 c3 : ascii) : bool :=
  let n1 := nat_of_ascii c1 in
  let n2 := nat_of_ascii c2 in
  let n3 := nat_of_ascii c3 in
  (* U+1680 *)
  ((n1 =? 225) && (n2 =? 154) && (n3 =? 128))%nat ||
  (* U+2000 to U+200A, U+2028, U+2029, U+202F *)
  ((n1 =? 226) && (n2 =? 128) &&
   (((128 <=? n3) && (n3 <=? 138)) || (n3 =? 168) || (n3 =? 169) ||
    (n3 =? 175)))%nat ||
  (* U+205F *)
  ((n1 =? 226) && (n2 =? 129) && (n3 =? 159))%nat ||
  (* U+3000 *)
  ((n1 =? 227) && (n2 =? 128) && (n3 =? 128))%nat ||
  (* U+FEFF *)
  ((n1 =? 239) && (n2 =? 187) && (n3 =? 191))%nat.

(** The text is all white space when stripping white space from its front
    empties it; as soon as the front is no white space, the trimmed text is
    not empty. *)
Fixpoint trimTruthy (s : string) : bool :=
  match s with
  | EmptyString => false
  | String c1 s1 =>
      if isSpace c1 then trimTruthy s1
      else
        match s1 with
        | EmptyString => true
        | String c2 s2 =>
            if isSpace2 c1 c2 then trimTruthy s2
            else
              match s2 with
              | EmptyString => true
              | String c3 s3 =>
                  if isSpace3 c1 c2 c3 then trimTruthy s3 else true
              end
        end
  end.

(** The [FL] entry pushed after the station loop. *)
Definition manualEntry (text : string) : Assignment :=
  {| employeeId := "manual"; employeeName := text;
     station := "FL"; lane := None |}.

(** The computation of [distributeEmployees] once the histories are
    fetched: the station loop, started on the tables [daily] and [hist]. *)
Definition planLoop (now : Clock) (roster : list Employee)
    (needs : gmap string Z) (employeeHistories : list EmployeeHistory)
    (daily hist : list Row) : Loop :=
  foldl (fillStation now roster needs employeeHistories)
        {| newAssignments := []; assignedEmployees := ∅;
           l_daily_assignments := daily; l_work_history := hist |}
        (sortedStations needs).

Definition withManual (text : string) (placed : list Assignment)
    : list Assignment :=
  if trimTruthy text then placed ++ [manualEntry text] else placed.

Definition fetchHistories (now : Clock) (st : State) : list EmployeeHistory :=
  (λ empId, {| eh_id := empId;
               history := getEmployeeHistory (work_history st)
                            (sixMonthsAgo now) empId |})
    <$> selectedEmployees st.

Definition distributeEmployees (now : Clock) (st : State)
    : State * option Toast :=
  if decide (length (selectedEmployees st) = 0%nat) then (st, Some IngenVald)
  else
    (* Clear existing assignments *)
    let daily :=
      filter (λ r, row_date r ≠ today now) (daily_assignments st) in
    (* Get history for all selected employees *)
    let employeeHistories := fetchHistories now st in
    let l := planLoop now (employees st) (stationNeeds st) employeeHistories
               daily (work_history st) in
    ({| employees := employees st;
        selectedEmployees := selectedEmployees st;
        stationNeeds := stationNeeds st;
        assignments := withManual (flManual st) (newAssignments l);
        flManual := flManual st;
        loading := false;
        draggedEmployee := draggedEmployee st;
        warningDialog := warningDialog st;
        daily_assignments := l_daily_assignments l;
        work_history := l_work_history l |},
     Some (FordelningKlar (size (assignedEmployees l)))).

(** ** Interactive reassignment *)

Definition handleDragStart (st : State) (assignment : Assignment) : State :=
  {| employees := employees st;
     selectedEmployees := selectedEmployees st;
     stationNeeds := stationNeeds st;
     assignments := assignments st;
     flManual := flManual st;
     loading := loading st;
     draggedEmployee := Some assignment;
     warningDialog := warningDialog st;
     daily_assignments := daily_assignments st;
     work_history := work_history st |}.

(** [setDraggedEmployee(null)]. *)
Definition clearDragged (st : State) : State :=
  {| employees := employees st;
     selectedEmployees := selectedEmployees st;
     stationNeeds := stationNeeds st;
     assignments := assignments st;
     flManual := flManual st;
     loading := loading st;
     draggedEmployee := None;
     warningDialog := warningDialog st;
     daily_assignments := daily_assignments st;
     work_history := work_history st |}.

Definition setWarningDialog (st : State) (w : option WarningDialog) : State :=
  {| employees := employees st;
     selectedEmployees := selectedEmployees st;
     stationNeeds := stationNeeds st;
     assignments := assignments st;
     flManual := flManual st;
     loading := loading st;
     draggedEmployee := draggedEmployee st;
     warningDialog := w;
     daily_assignments := daily_assignments st;
     work_history := work_history st |}.

(** The filter of [performMove] on the [assignments] array. *)
Definition samePlace (d a : Assignment) : Prop :=
  employeeId a = employeeId d ∧ station a = station d ∧ lane a = lane d.

(** The filter of the two [delete()] calls of [performMove]: they match on
    the worker, the day and the station, and not on the lane. *)
Definition sameRow (now : Clock) (d : Assignment) (r : Row) : Prop :=
  employee_id r = employeeId d ∧ row_date r = today now ∧
  row_station r = station d.

Definition movedRow (now : Clock) (d : Assignment) (toStation : string)
    (toLane : option Z) : Row :=
  {| employee_id := employeeId d; row_station := toStation;
     row_date := today now; row_lane := toLane |}.

Definition performMove (now : Clock) (st : State) (toStation : string)
    (toLane : option Z) : State * option Toast :=
  match draggedEmployee st with
  | None => (st, None)
  | Some d =>
      (* Remove from assignments array, add to new location *)
      let updatedAssignments :=
        filter (λ a, ¬ samePlace d a) (assignments st) ++
        [{| employeeId := employeeId d; employeeName := employeeName d;
            station := toStation; lane := toLane |}] in
      ({| employees := employees st;
          selectedEmployees := selectedEmployees st;
          stationNeeds := stationNeeds st;
          assignments := updatedAssignments;
          flManual := flManual st;
          loading := false;
          draggedEmployee := None;
          warningDialog := None;
          daily_assignments :=
            filter (λ r, ¬ sameRow now d r) (daily_assignments st) ++
            [movedRow now d toStation toLane];
          work_history :=
            filter (λ r, ¬ sameRow now d r) (work_history st) ++
            [movedRow now d toStation toLane] |},
       Some (Flyttad (employeeName d) toStation toLane))
  end.

(** [history[toStation] || 0]. *)
Definition stationCountOf (history : gmap string Z) (toStation : string) : Z :=
  default 0 (history !! toStation).

(** [Object.values(history).reduce((a, b) => a + b, 0) /
     Object.keys(history).length || 0]: the quotient of two integers, in
    [Q]; with no key the quotient is [0 / 0], not a number, which [|| 0]
    turns into [0]. *)
Definition avgCountOf (history : gmap string Z) : Q :=
  let total := foldl Z.add 0 (map_to_list history).*2 in
  let keys := length (map_to_list history).*1 in
  if decide (keys = 0%nat) then 0%Q
  else (inject_Z total / inject_Z (Z.of_nat keys))%Q.

#[global] Instance Qlt_decision (x y : Q) : Decision (x < y)%Q.
Proof. unfold Qlt. apply _. Defined.

(** [stationCount > avgCount * 1.5 && stationCount > 5]. *)
Definition overuseWarn (history : gmap string Z) (toStation : string) : bool :=
  let stationCount := stationCountOf history toStation in
  let avgCount := avgCountOf history in
  bool_decide (avgCount * 1.5 < inject_Z stationCount)%Q &&
  bool_decide (5 < stationCount).

Definition handleDrop (now : Clock) (st : State) (toStation : string)
    (toLane : option Z) : State * option Toast :=
  match draggedEmployee st with
  | None => (clearDragged st, None)
  | Some d =>
      if decide (station d = toStation ∧ lane d = toLane)
      then (clearDragged st, None)
      else
        (* Check if employee has been at this station too often *)
        let history :=
          getEmployeeHistory (work_history st) (sixMonthsAgo now)
            (employeeId d) in
        if overuseWarn history toStation
        then (setWarningDialog st
                (Some {| wd_employeeName := employeeName d;
                         wd_toStation := toStation;
                         wd_count := stationCountOf history toStation;
                         wd_toLane := toLane |}),
              None)
        else performMove now st toStation toLane
  end.

(** The two buttons of the warning dialog: [onConfirm] runs the held move,
    closing the dialog drops it. *)
Definition confirmWarning (now : Clock) (st : State) : State * option Toast :=
  match warningDialog st with
  | None => (st, None)
  | Some w => performMove now st (wd_toStation w) (wd_toLane w)
  end.

Definition cancelWarning (st : State) : State := setWarningDialog st None.

(** ** The rotation guard *)

(** Modelled from the spec: [canAssignToStation] of
    [src/utils/stationRotation.ts], a file that is not part of the sources
    at hand (its test file is). Section 4.2: it returns false only when
    [lastStationOf[workerId] == candidateStation]; a worker absent from the
    map, or whose last station is null, is permitted everywhere. The map is
    a [Map<string, string | null>]. *)
Definition canAssignToStation (employeeId station : string)
    (lastStationsMap : gmap string (option string)) : bool :=
  match lastStationsMap !! employeeId with
  | Some (Some lastStation) => bool_decide (lastStation ≠ station)
  | _ => true
  end.

(** ** The evaluation in binary64 *)

(** The numbers of [handleDrop] are IEEE 754 doubles. The same lines
    again, every operation in binary64 with rounding to nearest even
    ([SpecFloat], precision 53, [emax] 1024). *)
Definition b64 (m e : Z) : spec_float := binary_normalize 53 1024 m e false.

Definition b64_of_Z (z : Z) : spec_float := b64 z 0.

(** [x || 0]: not-a-number and the zeros are falsy. *)
Definition orZero (x : spec_float) : spec_float :=
  match x with
  | S754_nan | S754_zero _ => b64_of_Z 0
  | _ => x
  end.

(** [(total / keys || 0) * 1.5]. *)
Definition threshold64 (total keys : spec_float) : spec_float :=
  SFmul 53 1024 (orZero (SFdiv 53 1024 total keys)) (b64 3 (-1)).

Definition overuseWarn64 (history : gmap string Z) (toStation : string) : bool :=
  let stationCount := b64_of_Z (stationCountOf history toStation) in
  let total :=
    foldl (SFadd 53 1024) (b64_of_Z 0) (b64_of_Z <$> (map_to_list history).*2) in
  let keys := b64_of_Z (Z.of_nat (length (map_to_list history).*1)) in
  SFltb (threshold64 total keys) stationCount &&
  SFltb (b64_of_Z 5) stationCount.

#[global] Instance spec_float_eq_dec : EqDecision spec_float.
Proof. solve_decision. Defined.

(** * Vocabulary of the properties *)

(** ** Sorting *)

(** [l'] is [l] sorted by ascending [key], elements of equal key keeping
    the order they have in [l]. *)
Definition StableSorted {A : Type} (key : A → Z) (l l' : list A) : Prop :=
  StronglySorted (λ a b, key a ≤ key b) l' ∧
  ∀ k, filter (λ a, key a = k) l' = filter (λ a, key a = k) l.

(** ** The station loop *)

(** The entry and the row that one pass of the inner loop writes. *)
Definition entryOf (roster : list Employee) (s : string)
    (e : EmployeeHistory) : Assignment :=
  {| employeeId := eh_id e; employeeName := nameOf roster (eh_id e);
     station := s; lane := None |}.

Definition rowOf (now : Clock) (s : string) (e : EmployeeHistory) : Row :=
  {| employee_id := eh_id e; row_station := s;
     row_date := today now; row_lane := None |}.

(** The loop variables after the workers [taken] were placed at [s]. *)
Definition placeAll (now : Clock) (roster : list Employee) (s : string)
    (taken : list EmployeeHistory) (l : Loop) : Loop :=
  {| newAssignments := newAssignments l ++ (entryOf roster s <$> taken);
     assignedEmployees :=
       assignedEmployees l ∪ list_to_set (eh_id <$> taken);
     l_daily_assignments :=
       l_daily_assignments l ++ (rowOf now s <$> taken);
     l_work_history := l_work_history l ++ (rowOf now s <$> taken) |}.

(** The pool of a station: the selected workers not yet assigned, in
    selection order. *)
Definition poolOf (employeeHistories : list EmployeeHistory)
    (assigned : gset string) : list EmployeeHistory :=
  filter (λ emp, eh_id emp ∉ assigned) employeeHistories.

(** The workers the inner loop takes for [s]: the first [needed] of the
    ranking. *)
Definition takenFor (needs : gmap string Z)
    (employeeHistories : list EmployeeHistory) (assigned : gset string)
    (s : string) : list EmployeeHistory :=
  take (Z.to_nat (needOf needs s)) (availableFor employeeHistories assigned s).

(** The loop over the stations [ss], from the loop variables [l]. *)
Definition planFrom (now : Clock) (roster : list Employee)
    (needs : gmap string Z) (employeeHistories : list EmployeeHistory)
    (l : Loop) (ss : list string) : Loop :=
  foldl (fillStation now roster needs employeeHistories) l ss.

(** [assignedEmployees] holds the workers of [newAssignments]. *)
Definition Tracked (l : Loop) : Prop :=
  ∀ i, i ∈ assignedEmployees l ↔ i ∈ employeeId <$> newAssignments l.

(** No worker has entries at two stations. *)
Definition OneStation (l : list Assignment) : Prop :=
  ∀ a b, a ∈ l → b ∈ l → employeeId a = employeeId b → station a = station b.

(** The number of entries for station [s]. *)
Definition placedAt (s : string) (l : list Assignment) : nat :=
  length (filter (λ a, station a = s) l).

(** The row of the records store that mirrors an entry. *)
Definition rowOfAssignment (now : Clock) (a : Assignment) : Row :=
  {| employee_id := employeeId a; row_station := station a;
     row_date := today now; row_lane := lane a |}.

(** The stations the loop runs over. *)
Definition fillable (needs : gmap string Z) (s : string) : Prop :=
  s ≠ "FL" ∧ 0 < needOf needs s.


(** ** One run of [distributeEmployees] *)

(** [daily_assignments] once the rows of today are deleted. *)
Definition clearedDaily (now : Clock) (st : State) : list Row :=
  filter (λ r, row_date r ≠ today now) (daily_assignments st).

Definition runLoop (now : Clock) (st : State) : Loop :=
  planLoop now (employees st) (stationNeeds st) (fetchHistories now st)
    (clearedDaily now st) (work_history st).

(** The entries the station loop of the run pushes. *)
Definition placements (now : Clock) (st : State) : list Assignment :=
  newAssignments (runLoop now st).

(** The placement an entry stands for. *)
Definition placementOf (a : Assignment) : string * string * option Z :=
  (employeeId a, station a, lane a).

(** ** Invariants of the assignments *)

(** Each worker identifier occurs at most once among the entries; the
    identifier ["manual"] of the free-text [FL] entry is not a worker's. *)
Definition AtMostOnce (snapshot : list Assignment) : Prop :=
  NoDup (employeeId <$> filter (λ a, employeeId a ≠ "manual") snapshot).

(** The same, for the rows of every day of [daily_assignments]. *)
Definition RowsAtMostOnce (table : list Row) : Prop :=
  ∀ d : date, NoDup (employee_id <$> filter (λ r, row_date r = d) table).

Definition AssignmentInv (st : State) : Prop :=
  AtMostOnce (assignments st) ∧ RowsAtMostOnce (daily_assignments st).

(** The rows of today of the dragged worker are at the station the worker
    is dragged from. *)
Definition DraggedInSync (now : Clock) (st : State) (d : Assignment) : Prop :=
  ∀ r, r ∈ daily_assignments st → employee_id r = employeeId d →
       row_date r = today now → row_station r = station d.

(** On day [d], [work_history] and [daily_assignments] hold the same rows,
    that is the same placements (worker, station, lane). *)
Definition MirrorOn (d : date) (st : State) : Prop :=
  ∀ r, row_date r = d → (r ∈ work_history st ↔ r ∈ daily_assignments st).

(** The entry [performMove] pushes for the dragged entry [d]. *)
Definition movedEntry (d : Assignment) (toStation : string)
    (toLane : option Z) : Assignment :=
  {| employeeId := employeeId d; employeeName := employeeName d;
     station := toStation; lane := toLane |}.

(** ** The overuse evaluation *)

(** One step of the [forEach] of [getEmployeeHistory]. *)
Definition countRow (stationCount : gmap string Z) (item : Row)
    : gmap string Z :=
  <[row_station item := default 0 (stationCount !! row_station item) + 1]>
    stationCount.

Definition Zsum (l : list Z) : Z := foldr Z.add 0 l.

(** The claim's reading of the evaluation: the mean of the entries of the
    stations with a recorded, non-zero, visit, and 0 when there is none. *)
Definition meanOf (entries : list Z) : Q :=
  match entries with
  | [] => 0%Q
  | _ => (inject_Z (Zsum entries) / inject_Z (Z.of_nat (length entries)))%Q
  end.

Definition visitedEntries (history : gmap string Z) : list Z :=
  filter (λ v, v ≠ 0) (map_to_list history).*2.

Definition specWarn (history : gmap string Z) (toStation : string) : Prop :=
  let count := default 0 (history !! toStation) in
  let avg := meanOf (visitedEntries history) in
  (1.5 * avg < inject_Z count)%Q ∧ 5 < count.

(** The check of [overuseWarn] on the three numbers it depends on, with
    the quotient as it stands and with the quotient cleared. *)
Definition warnCore (count total keys : Z) : bool :=
  bool_decide (inject_Z total / inject_Z keys * 1.5 < inject_Z count)%Q &&
  bool_decide (5 < count).

Definition warnZ (count total keys : Z) : bool :=
  (3 * total <? 2 * count * keys) && (5 <? count).

(** The counts [0 .. bound], each with its binary64 value. *)
Definition countsUpTo (bound : nat) : list (Z * spec_float) :=
  (λ c, (Z.of_nat c, b64_of_Z (Z.of_nat c))) <$> seq 0 (S bound).

(** Sums of counts up to [bound] are exact in binary64. *)
Definition addExactUpTo (bound : nat) : bool :=
  let counts := countsUpTo bound in
  forallb (λ a,
      let fa := b64_of_Z (Z.of_nat a) in
      forallb (λ '(b, fb),
          bool_decide (Some (SFadd 53 1024 fa fb) =
                       snd <$> counts !! (a + Z.to_nat b)%nat))
        (take (S (bound - a)) counts))
    (seq 0 (S bound)).

(** The binary64 check and the exact one agree for every total up to
    [bound], every number of stations from 1 to [stations] and every count
    up to the total. *)
Definition agreeUpTo (bound stations : nat) : bool :=
  let counts := countsUpTo bound in
  let five := b64_of_Z 5 in
  forallb (λ total, forallb (λ keys,
      let t := threshold64 (b64_of_Z (Z.of_nat total)) (b64_of_Z (Z.of_nat keys)) in
      forallb (λ '(c, f),
          Bool.eqb (SFltb t f && SFltb five f)
                   (warnZ c (Z.of_nat total) (Z.of_nat keys)))
        (take (S total) counts))
    (seq 1 stations)) (seq 0 (S bound)).

(** ** Worked inputs *)

(** Two days, each with the start of its six-month window. *)
Definition exampleClock : Clock := {| today := 20000; sixMonthsAgo := 19816 |}.

Definition laterClock : Clock := {| today := 20001; sixMonthsAgo := 19817 |}.

Definition exampleRoster : list Employee :=
  [{| id := "e1"; name := "Anna"; shift := "Skift 1" |};
   {| id := "e2"; name := "Bo"; shift := "Skift 1" |};
   {| id := "e3"; name := "Cilla"; shift := "Skift 2" |}].

(** A day of one station needing one worker, two workers selected, and
    both tables empty. *)
Definition morningState : State :=
  {| employees := exampleRoster;
     selectedEmployees := ["e1"; "e2"];
     stationNeeds := {[ "Plock" := 1 ]};
     assignments := [];
     flManual := "";
     loading := false;
     draggedEmployee := None;
     warningDialog := None;
     daily_assignments := [];
     work_history := [] |}.

(** Two runs of the planner on that day, and the row the first one
    writes for [e1]. *)
Definition firstRun : State := (distributeEmployees exampleClock morningState).1.

Definition secondRun : State := (distributeEmployees exampleClock firstRun).1.

Definition staleRow : Row :=
  {| employee_id := "e1"; row_station := "Plock";
     row_date := 20000; row_lane := None |}.

(** [e1] worked at [Pack] the day before, stands at [Plock] today and is
    being dragged. *)
Definition atPlock : Assignment :=
  {| employeeId := "e1"; employeeName := "Anna";
     station := "Plock"; lane := None |}.

Definition dragState : State :=
  {| employees := exampleRoster;
     selectedEmployees := ["e1"];
     stationNeeds := {[ "Plock" := 1 ]};
     assignments := [atPlock];
     flManual := "";
     loading := false;
     draggedEmployee := Some atPlock;
     warningDialog := None;
     daily_assignments :=
       [{| employee_id := "e1"; row_station := "Plock";
           row_date := 20000; row_lane := None |}];
     work_history :=
       [{| employee_id := "e1"; row_station := "Pack";
           row_date := 19999; row_lane := None |};
        {| employee_id := "e1"; row_station := "Plock";
           row_date := 20000; row_lane := None |}] |}.

(** The last station of [e1], as the rotation guard is given it. *)
Definition lastStations : gmap string (option string) :=
  {[ "e1" := Some "Pack" ]}.

(** Needs [{Plock: 1, Pack: 3}] and three workers for four places. *)
Definition starvedState : State :=
  {| employees := exampleRoster;
     selectedEmployees := ["e1"; "e2"; "e3"];
     stationNeeds := {[ "Plock" := 1; "Pack" := 3 ]};
     assignments := [];
     flManual := "";
     loading := false;
     draggedEmployee := None;
     warningDialog := None;
     daily_assignments := [];
     work_history := [] |}.

(** Nobody selected, and a day already planned. *)
Definition idleState : State :=
  {| employees := exampleRoster;
     selectedEmployees := [];
     stationNeeds := {[ "Plock" := 1 ]};
     assignments := [atPlock];
     flManual := "Dana";
     loading := false;
     draggedEmployee := None;
     warningDialog := None;
     daily_assignments :=
       [{| employee_id := "e1"; row_station := "Plock";
           row_date := 20000; row_lane := None |}];
     work_history :=
       [{| employee_id := "e1"; row_station := "Plock";
           row_date := 20000; row_lane := None |}] |}.

(** The selection, needs and free text of [morningState] on another day,
    with other entries, a worker being dragged and other rows (of a worker
    that is not selected). *)
Definition otherMorning : State :=
  {| employees := exampleRoster;
     selectedEmployees := ["e1"; "e2"];
     stationNeeds := {[ "Plock" := 1 ]};
     assignments := [atPlock];
     flManual := "";
     loading := true;
     draggedEmployee := Some atPlock;
     warningDialog := None;
     daily_assignments :=
       [{| employee_id := "e3"; row_station := "KM";
           row_date := 20001; row_lane := None |}];
     work_history :=
       [{| employee_id := "e3"; row_station := "KM";
           row_date := 20001; row_lane := None |}] |}.

(** * More of the component *)

(** ** Selecting workers *)

(** [setSelectedEmployees]. *)
Definition setSelectedEmployees (st : State) (selected : list string) : State :=
  {| employees := employees st;
     selectedEmployees := selected;
     stationNeeds := stationNeeds st;
     assignments := assignments st;
     flManual := flManual st;
     loading := loading st;
     draggedEmployee := draggedEmployee st;
     warningDialog := warningDialog st;
     daily_assignments := daily_assignments st;
     work_history := work_history st |}.

(** [onCheckedChange] of the checkbox of a worker: a checked box appends
    the worker to the selection, an unchecked one filters the worker out. *)
Definition onCheckedChange (st : State) (employeeId : string) (checked : bool)
    : State :=
  if checked
  then setSelectedEmployees st (selectedEmployees st ++ [employeeId])
  else setSelectedEmployees st
         (filter (λ i, i ≠ employeeId) (selectedEmployees st)).

(** ** Loading the assignments of the day *)

(** [setAssignments]. *)
Definition setAssignments (st : State) (entries : list Assignment) : State :=
  {| employees := employees st;
     selectedEmployees := selectedEmployees st;
     stationNeeds := stationNeeds st;
     assignments := entries;
     flManual := flManual st;
     loading := loading st;
     draggedEmployee := draggedEmployee st;
     warningDialog := warningDialog st;
     daily_assignments := daily_assignments st;
     work_history := work_history st |}.

(** The row of [employees] that the query joins to a row of
    [daily_assignments] ([employees(name)]); [null] when there is none. *)
Definition joinEmployee (employeesTable : list Employee) (item : Row)
    : option Employee :=
  List.find (λ e, bool_decide (id e = employee_id item)) employeesTable.

(** One step of the [data.map] of [loadTodayAssignments]; reading [.name]
    of a [null] join throws. *)
Definition loadedEntry (employeesTable : list Employee) (item : Row)
    : option Assignment :=
  e ← joinEmployee employeesTable item;
  Some {| employeeId := employee_id item; employeeName := name e;
          station := row_station item; lane := row_lane item |}.

(** [loadTodayAssignments]: the rows of today, each as an entry; [None]
    when the handler throws, the state being left as it is. *)
Definition loadTodayAssignments (now : Clock) (employeesTable : list Employee)
    (st : State) : option State :=
  let data := filter (λ r, row_date r = today now) (daily_assignments st) in
  assignmentsList ← mapM (loadedEntry employeesTable) data;
  Some (setAssignments st assignmentsList).

(** ** The needs of the day *)

(** A row of [station_needs]. *)
Record NeedRow := {
  need_station : string;
  needed_count : Z;
  need_date : date;
}.

Definition sameNeedKey (a b : NeedRow) : Prop :=
  need_station a = need_station b ∧ need_date a = need_date b.

(** [upsert(row, { onConflict: "station,need_date" })]: the row replaces
    the row of the same station and day, and is inserted when there is
    none. *)
Definition upsertNeed (table : list NeedRow) (row : NeedRow) : list NeedRow :=
  if decide (Exists (sameNeedKey row) table)
  then (λ r, if decide (sameNeedKey row r) then row else r) <$> table
  else table ++ [row].

(** The writes of [saveStationNeeds]: one upsert per station of
    [STATIONS]. *)
Definition saveStationNeeds (now : Clock) (st : State)
    (station_needs : list NeedRow) : list NeedRow :=
  foldl (λ table s,
           upsertNeed table
             {| need_station := s;
                needed_count := needOf (stationNeeds st) s;
                need_date := today now |})
        station_needs STATIONS.

(** [setStationNeeds]. *)
Definition setStationNeeds (st : State) (needs : gmap string Z) : State :=
  {| employees := employees st;
     selectedEmployees := selectedEmployees st;
     stationNeeds := needs;
     assignments := assignments st;
     flManual := flManual st;
     loading := loading st;
     draggedEmployee := draggedEmployee st;
     warningDialog := warningDialog st;
     daily_assignments := daily_assignments st;
     work_history := work_history st |}.

(** The [needsMap] that [loadTodayNeeds] builds from the rows of today. *)
Definition needsMapOf (now : Clock) (station_needs : list NeedRow)
    : gmap string Z :=
  foldl (λ (needsMap : gmap string Z) item,
           <[need_station item := needed_count item]> needsMap)
        ∅ (filter (λ r, need_date r = today now) station_needs).

Definition loadTodayNeeds (now : Clock) (station_needs : list NeedRow)
    (st : State) : State :=
  setStationNeeds st (needsMapOf now station_needs).

(** ** The station cards *)

Definition STATION_LANES : gmap string Z :=
  {[ "Pack" := 11; "Auto pack" := 6; "Autoplock" := 6 ]}.

Definition getAssignmentsByStation (st : State) (s : string)
    : list Assignment :=
  filter (λ a, station a = s) (assignments st).

Definition getAssignmentsByStationAndLane (st : State) (s : string)
    (l : option Z) : list Assignment :=
  filter (λ a, station a = s ∧ lane a = l) (assignments st).

(** What [renderStationCard] returns: nothing, the [FL] card with its
    text, a card of lanes (each lane a drop target showing its badges), or
    a card that is one drop target showing the badges of the station. Every
    badge is draggable and starts a drag of its entry. *)
Inductive StationCard :=
| NoCard
| FLCard (text : string)
| LanesCard (lanes : list (Z * list Assignment))
| PlainCard (badges : list Assignment).

Definition renderStationCard (st : State) (s : string) : StationCard :=
  let stationAssignments := getAssignmentsByStation st s in
  if decide (length stationAssignments = 0%nat ∧ s ≠ "FL") then NoCard
  else if decide (s = "FL")
  then FLCard (if decide (flManual st = "") then "Ingen tilldelad"
               else flManual st)
  else
    match STATION_LANES !! s with
    | Some hasLanes =>
        if decide (hasLanes = 0) then PlainCard stationAssignments
        else LanesCard
               ((λ l, (l, getAssignmentsByStationAndLane st s (Some l)))
                  <$> seqZ 1 hasLanes)
    | None => PlainCard stationAssignments
    end.

(** The entries a card lets the operator drag, and the places it lets the
    operator drop on ([handleDrop(station, lane)]). *)
Definition draggableOf (card : StationCard) : list Assignment :=
  match card with
  | NoCard | FLCard _ => []
  | LanesCard lanes => lanes ≫= snd
  | PlainCard badges => badges
  end.

Definition dropTargetsOf (s : string) (card : StationCard)
    : list (string * option Z) :=
  match card with
  | NoCard | FLCard _ => []
  | LanesCard lanes => (λ l, (s, Some l.1)) <$> lanes
  | PlainCard _ => [(s, None)]
  end.

(** ** Counting the places of a run *)

(** The pool and the entries pushed so far share out the selection. *)
Definition Shared (employeeHistories : list EmployeeHistory) (l : Loop)
    : Prop :=
  (length (poolOf employeeHistories (assignedEmployees l)) +
   length (newAssignments l) = length employeeHistories)%nat.

(** The total need of a list of stations, as a number of places. *)
Definition placesOf (needs : gmap string Z) (ss : list string) : nat :=
  foldr (λ s n, (Z.to_nat (needOf needs s) + n)%nat) 0%nat ss.

(** The placement a row stands for. *)
Definition rowPlacement (r : Row) : string * string * option Z :=
  (employee_id r, row_station r, row_lane r).

(** The row [saveStationNeeds] writes for station [s]. *)
Definition needRowOf (now : Clock) (st : State) (s : string) : NeedRow :=
  {| need_station := s; needed_count := needOf (stationNeeds st) s;
     need_date := today now |}.

(** A row of one of the stations of the planning form, dated today. *)
Definition savedKey (now : Clock) (r : NeedRow) : Prop :=
  need_date r = today now ∧ need_station r ∈ STATIONS.

(** ** Blank texts *)

(** The string of the given bytes. *)
Definition bytes (l : list nat) : string :=
  foldr (λ n s, String (ascii_of_nat n) s) EmptyString l.

(** The white space that [String.prototype.trim] strips, each character in
    UTF-8: U+0009 to U+000D, U+0020, U+00A0, U+1680, U+2000 to U+200A,
    U+2028, U+2029, U+202F, U+205F, U+3000 and U+FEFF. *)
Definition whiteSpace : list string :=
  bytes <$>
    ([[9]; [10]; [11]; [12]; [13]; [32]; [194; 160]; [225; 154; 128]] ++
     ((λ n, [226; 128; n]) <$> seq 128 11) ++
     [[226; 128; 168]; [226; 128; 169]; [226; 128; 175]; [226; 129; 159];
      [227; 128; 128]; [239; 187; 191]])%nat.

(** A text of white space only. *)
Definition Blank (s : string) : Prop :=
  ∃ ws, Forall (λ w, w ∈ whiteSpace) ws ∧ s = foldr String.append "" ws.

(** ** More worked inputs *)

(** [e1] stands at [Plock] today and is being dragged; over the window
    [e1] was six times at [Pack], once at [KM] and once at [Plock]. *)
Definition overusedState : State :=
  {| employees := exampleRoster;
     selectedEmployees := ["e1"];
     stationNeeds := {[ "Plock" := 1 ]};
     assignments := [atPlock];
     flManual := "";
     loading := false;
     draggedEmployee := Some atPlock;
     warningDialog := None;
     daily_assignments :=
       [{| employee_id := "e1"; row_station := "Plock";
           row_date := 20000; row_lane := None |}];
     work_history :=
       ((λ d, {| employee_id := "e1"; row_station := "Pack";
                 row_date := d; row_lane := None |})
          <$> [19990; 19991; 19992; 19993; 19994; 19995]) ++
       [{| employee_id := "e1"; row_station := "KM";
           row_date := 19996; row_lane := None |};
        {| employee_id := "e1"; row_station := "Plock";
           row_date := 20000; row_lane := None |}] |}.

(** A [station_needs] table with a row of another day and an older row of
    today for [Plock]. *)
Definition exampleNeedRows : list NeedRow :=
  [{| need_station := "Plock"; needed_count := 4; need_date := 19999 |};
   {| need_station := "Plock"; needed_count := 5; need_date := 20000 |}].

(** The entry a run writes for [e1] at [Pack]. *)
Definition atPack : Assignment :=
  {| employeeId := "e1"; employeeName := "Anna";
     station := "Pack"; lane := None |}.

(** Three stations needing one worker each, three workers selected and
    both tables empty; then: a run, the start of a drag of the badge of
    [e1] at [Plock] (a drag that ends outside every card: the component
    has no handler for the end of a drag, and [draggedEmployee] stays),
    a second run, and a drop on the card of [KM]. *)
Definition crewState : State :=
  {| employees := exampleRoster;
     selectedEmployees := ["e1"; "e2"; "e3"];
     stationNeeds := {[ "Plock" := 1; "Pack" := 1; "KM" := 1 ]};
     assignments := [];
     flManual := "";
     loading := false;
     draggedEmployee := None;
     warningDialog := None;
     daily_assignments := [];
     work_history := [] |}.

Definition crewRun : State := (distributeEmployees exampleClock crewState).1.

Definition crewDragged : State := handleDragStart crewRun atPlock.

Definition crewRerun : State := (distributeEmployees exampleClock crewDragged).1.

Definition crewDropped : State :=
  (handleDrop exampleClock crewRerun "KM" None).1.

(** * The objects of JavaScript used as records *)

(** A [Record<string, V>] whose enumeration order matters: the own
    properties of an object created by [{}], in the order of their
    creation. Such an object inherits the properties of
    [Object.prototype], whose names are [protoNames]; no assignment gives
    it an own property named [__proto__]. *)
Abbreviation JsRecord V := (list (string * V)) (only parsing).

(** The names of the properties of [Object.prototype]. *)
Definition protoNames : list string :=
  ["constructor"; "__defineGetter__"; "__defineSetter__"; "hasOwnProperty";
   "__lookupGetter__"; "__lookupSetter__"; "isPrototypeOf";
   "propertyIsEnumerable"; "toString"; "valueOf"; "__proto__";
   "toLocaleString"].

(** The own property [k] of [o], if any. For a name that is none of
    [protoNames] this is [o[k]], [undefined] when there is no such
    property; for a name of [protoNames] without an own property, [o[k]]
    is the inherited property, a function or an object. *)
Definition jsGet {V} (o : JsRecord V) (k : string) : option V :=
  snd <$> List.find (λ p, bool_decide (p.1 = k)) o.

(** The own property [k] of [o] created or overwritten: an existing
    property keeps its place. *)
Fixpoint defineOwn {V} (o : JsRecord V) (k : string) (v : V) : JsRecord V :=
  match o with
  | [] => [(k, v)]
  | p :: o' => if decide (p.1 = k) then (k, v) :: o' else p :: defineOwn o' k v
  end.

(** [o[k] = v]. The inherited properties are writable, so that the
    assignment creates an own property, but for [__proto__], an accessor:
    its setter is called instead, which creates no property, and does
    nothing at all with a number. *)
Definition jsSet {V} (o : JsRecord V) (k : string) (v : V) : JsRecord V :=
  if decide (k = "__proto__") then o else defineOwn o k v.

(** The value of a string of decimal digits. *)
Definition digitOf (c : ascii) : option N :=
  let n := N_of_ascii c in
  if ((48 <=? n) && (n <=? 57))%N then Some (n - 48)%N else None.

Fixpoint digitsValue (acc : N) (s : string) : option N :=
  match s with
  | EmptyString => Some acc
  | String c s' => d ← digitOf c; digitsValue (10 * acc + d)%N s'
  end.

(** A property name is an array index when it is the canonical decimal
    numeral of an integer below [2^32 - 1]. *)
Definition arrayIndex (k : string) : option N :=
  match k with
  | EmptyString => None
  | String c rest =>
      n ← digitsValue 0 k;
      if decide (c = "0"%char ∧ rest ≠ EmptyString) then None
      else if decide (n < 4294967295)%N then Some n else None
  end.

(** [Object.entries(o)]: the array indices in ascending order first, then
    the other names in the order of creation. *)
Definition jsEntries {V} (o : JsRecord V) : list (string * V) :=
  sort (λ a b, Z.of_N (default 0%N (arrayIndex a.1)) -
               Z.of_N (default 0%N (arrayIndex b.1)))
       (filter (λ p, is_Some (arrayIndex p.1)) o) ++
  filter (λ p, ¬ is_Some (arrayIndex p.1)) o.

(** * The visit counts of [stationRotation.test.ts] *)

(** An element of the [employeeHistory] arrays of the tests. *)
Record Visit := {
  v_station : string;
  v_date : string;
  v_employeeId : string;
}.

(** [getStationVisitCounts], [availableStations] being the array the
    closure captures. *)
Definition getStationVisitCounts (availableStations : list string)
    (history : list Visit) : JsRecord Z :=
  foldl (λ counts station,
           jsSet counts station
             (Z.of_nat (length (filter (λ h, v_station h = station) history))))
        [] availableStations.

(** The accumulator of [getLeastVisitedStation]; no count stands for
    [Infinity]. *)
Definition leastStep (min : string * option Z) (entry : string * Z)
    : string * option Z :=
  match min.2 with
  | Some c => if decide (entry.2 < c) then (entry.1, Some entry.2) else min
  | None => (entry.1, Some entry.2)
  end.

Definition getLeastVisitedStation (counts : JsRecord Z) : string :=
  (foldl leastStep ("", None) (jsEntries counts)).1.

(** [Math.min(...Object.values(visitCounts))], [Infinity] for no value. *)
Definition minCountOf (counts : JsRecord Z) : option Z :=
  foldl (λ m v, match m with
                | Some c => Some (Z.min c v)
                | None => Some v
                end) None (jsEntries counts).*2.

(** The [leastVisitedStations] of the tie-breaker test. *)
Definition leastVisitedStations (counts : JsRecord Z) : list string :=
  let minCount := minCountOf counts in
  (filter (λ p, Some p.2 = minCount) (jsEntries counts)).*1.

(** * The history view *)

Module HistoryView.

(** The [Assignment] of [HistoryView.tsx]. *)
Record Assignment := {
  employee_name : string;
  station : string;
  lane : option Z;
  assigned_date : string;
}.

Definition getAssignmentsByDate (assignments : list Assignment)
    (date : string) : list Assignment :=
  filter (λ a, assigned_date a = date) assignments.

(** One step of the [forEach] of [groupByStation], [None] when it throws.
    An array is truthy, so that a group is created once, and [push] adds
    to the array that the property holds. When the station is one of
    [protoNames] and has no group, [grouped[station]] is the inherited
    property, a function or an object: it is truthy, no group is created,
    and it has no [push], so that the call
    [grouped[station].push(assignment)] throws a [TypeError]. *)
Definition groupStep (grouped : JsRecord (list Assignment))
    (assignment : Assignment) : option (JsRecord (list Assignment)) :=
  match jsGet grouped (station assignment) with
  | Some group =>
      Some (defineOwn grouped (station assignment) (group ++ [assignment]))
  | None =>
      if decide (station assignment ∈ protoNames) then None
      else
        let grouped := jsSet grouped (station assignment) [] in
        Some (defineOwn grouped (station assignment)
                (default [] (jsGet grouped (station assignment)) ++
                 [assignment]))
  end.

(** [groupByStation], [None] when a step throws: the exception leaves the
    [forEach] and the function. *)
Definition groupByStation (assignments : list Assignment)
    : option (JsRecord (list Assignment)) :=
  foldl (λ grouped assignment, grouped ≫= λ g, groupStep g assignment)
        (Some []) assignments.

(** What a day card shows: the stations in the order of
    [Object.entries(stationGroups)], each with its badges; [None] when
    [groupByStation] throws, and with it the rendering of the view. *)
Definition dayCard (assignments : list Assignment) (date : string)
    : option (list (string * list Assignment)) :=
  jsEntries <$> groupByStation (getAssignmentsByDate assignments date).

End HistoryView.

(** ** The first occurrences *)

(** The elements of a list, each once, in the order of the first
    occurrences. *)
Fixpoint firsts (l : list string) : list string :=
  match l with
  | [] => []
  | x :: l' => x :: filter (λ y, y ≠ x) (firsts l')
  end.

(** The number of visits of a history at a station. *)
Definition visitsAt (history : list Visit) (s : string) : Z :=
  Z.of_nat (length (filter (λ h, v_station h = s) history)).

(** The assignments of a list at a station, in the order of the list. *)
Definition groupAt (assignments : list HistoryView.Assignment) (s : string)
    : list HistoryView.Assignment :=
  filter (λ a, HistoryView.station a = s) assignments.

(** * The revision with numbered positions *)

(** The earlier revision of [DailyPlanning.tsx] keeps the assignments as a
    [Record<string, string[]>], station to worker identifiers, and lets the
    operator drop a worker on a numbered position of [Pack], [Auto Pack] or
    [Auto Plock]. *)
Module Positions.

(** An element of a JavaScript array of strings: a hole, [undefined], or a
    string, the empty string marking a free position. *)
Inductive Slot :=
| Hole
| Undefined
| Id (i : string).

#[global] Instance Slot_eq_dec : EqDecision Slot.
Proof. solve_decision. Defined.

(** [[...arr]]: the holes are read as [undefined]. *)
Definition spread (arr : list Slot) : list Slot :=
  (λ x, match x with Hole => Undefined | _ => x end) <$> arr.

(** [arr.indexOf(id)], [None] for [-1]: holes are skipped and [undefined]
    is no string. *)
Definition indexOf (arr : list Slot) (i : string) : option nat :=
  fst <$> list_find (λ x, x = Id i) arr.

(** [arr.filter((id) => id !== i)]: holes are not visited. *)
Definition filterOut (arr : list Slot) (i : string) : list Slot :=
  filter (λ x, x ≠ Hole ∧ x ≠ Id i) arr.

(** [arr[n] = v]: writing past the end leaves holes. *)
Definition setAt (arr : list Slot) (n : nat) (v : Slot) : list Slot :=
  if decide (n < length arr)%nat then <[n := v]> arr
  else arr ++ replicate (n - length arr) Hole ++ [v].

(** [Array(n).fill("")]. *)
Definition emptyPositions (n : nat) : list Slot := replicate n (Id "").

Record Dragged := {
  d_id : string;
  d_fromStation : string;
}.

Record State := {
  assignments : gmap string (list Slot);
  draggedEmployee : option Dragged;
  draggedFrom : option string;
}.

Definition handleDragStart (st : State) (employeeId fromStation : string)
    : State :=
  {| assignments := assignments st;
     draggedEmployee :=
       Some {| d_id := employeeId; d_fromStation := fromStation |};
     draggedFrom := Some fromStation |}.

(** The function given to [setAssignments]; [None] when it throws, reading
    a property of [undefined]. *)
Definition dropUpdater (employeeId draggedFrom station : string)
    (targetIdx : nat) (prev : gmap string (list Slot))
    : option (gmap string (list Slot)) :=
  let updated := prev in
  (* Ta bort från ursprunglig plats *)
  source ← updated !! draggedFrom;
  let updated :=
    if decide (draggedFrom = station)
    then
      (* Flyttar inom samma station *)
      match indexOf source employeeId with
      | Some sourceIdx =>
          <[draggedFrom := <[sourceIdx := Id ""]> (spread source)]> updated
      | None => updated
      end
    else
      (* Flyttar från annan station *)
      <[draggedFrom := filterOut source employeeId]> updated in
  (* Lägg till på ny plats *)
  let maxPositions := if decide (station = "Pack") then 12%nat else 6%nat in
  let updated :=
    match updated !! station with
    | Some _ => updated
    | None => <[station := emptyPositions maxPositions]> updated
    end in
  Some (<[station :=
            setAt (spread (default [] (updated !! station))) targetIdx
              (Id employeeId)]> updated).

(** [handleDropOnPackPosition]: without a drag (a [draggedFrom] that is
    the empty string counts as none) it returns at once; otherwise it
    updates the assignments and clears the drag. *)
Definition handleDropOnPackPosition (st : State) (station : string)
    (targetIdx : nat) : option State :=
  match draggedEmployee st, draggedFrom st with
  | Some d, Some from =>
      if decide (from = "") then Some st
      else
        updated ← dropUpdater (d_id d) from station targetIdx (assignments st);
        Some {| assignments := updated;
                draggedEmployee := None;
                draggedFrom := None |}
  | _, _ => Some st
  end.

(** [assigned.filter(a => a)]: the truthy elements of an array, that is
    the workers who stand at its positions. *)
Definition shown (arr : list Slot) : list string :=
  omap (λ x, match x with
             | Id i => if decide (i = "") then None else Some i
             | _ => None
             end) arr.

(** [assignments[station] || []]. *)
Definition assigned (m : gmap string (list Slot)) (s : string) : list Slot :=
  default [] (m !! s).

Definition shownAt (m : gmap string (list Slot)) (s : string) : list string :=
  shown (assigned m s).

(** The array a drop on [station] writes into: the array of the station,
    or the free positions made for a station that has none. *)
Definition baseOf (m : gmap string (list Slot)) (station : string)
    : list Slot :=
  match m !! station with
  | Some arr => arr
  | None => emptyPositions (if decide (station = "Pack") then 12 else 6)
  end.

(** No worker is shown twice: not at two positions of a station, and not
    at two stations. *)
Definition Apart (m : gmap string (list Slot)) : Prop :=
  (∀ s, NoDup (shownAt m s)) ∧
  (∀ s1 s2 x, x ∈ shownAt m s1 → x ∈ shownAt m s2 → s1 = s2).

End Positions.

(** Two workers at the positions of [Pack], and [e3], at [KM], being
    dragged. *)
Definition positionsState : Positions.State :=
  {| Positions.assignments :=
       {[ "Pack" := [Positions.Id "e1"; Positions.Id "e2"];
          "KM" := [Positions.Id "e3"] ]};
     Positions.draggedEmployee :=
       Some {| Positions.d_id := "e3"; Positions.d_fromStation := "KM" |};
     Positions.draggedFrom := Some "KM" |}.

(** [e1] stands at [Plock] and [e2] in lane 3 of [Pack]. *)
Definition laneState : State :=
  {| employees := exampleRoster;
     selectedEmployees := ["e1"; "e2"];
     stationNeeds := {[ "Plock" := 1; "Pack" := 1 ]};
     assignments :=
       [atPlock;
        {| employeeId := "e2"; employeeName := "Bo";
           station := "Pack"; lane := Some 3 |}];
     flManual := "";
     loading := false;
     draggedEmployee := None;
     warningDialog := None;
     daily_assignments :=
       [{| employee_id := "e1"; row_station := "Plock";
           row_date := 20000; row_lane := None |};
        {| employee_id := "e2"; row_station := "Pack";
           row_date := 20000; row_lane := Some 3 |}];
     work_history :=
       [{| employee_id := "e1"; row_station := "Plock";
           row_date := 20000; row_lane := None |};
        {| employee_id := "e2"; row_station := "Pack";
           row_date := 20000; row_lane := Some 3 |}] |}.

(** The places of a run, in the order in which the loop fills them: each
    station as many times as it needs workers. *)
Definition slotsOf (needs : gmap string Z) (ss : list string) : list string :=
  ss ≫= (λ s, replicate (Z.to_nat (needOf needs s)) s).

(** * Properties *)

(** ** The sort: what any stable sort by an integer key returns *)

Section SortFacts.

Context {A : Type} (key : A → Z) (cmp : A → A → Z).

Hypothesis cmp_key : ∀ a b, cmp a b = key a - key b.

Lemma sort_insert_perm x l : sort_insert cmp x l ≡ₚ x :: l.
Proof.
  induction l as [|y l IH]; simpl; [done|].
  destruct (cmp x y <=? 0); [done|].
  rewrite IH. apply Permutation_swap.
Qed.

Lemma sort_perm l : sort cmp l ≡ₚ l.
Proof.
  induction l as [|x l IH]; [done|].
  change (sort cmp (x :: l)) with (sort_insert cmp x (sort cmp l)).
  by rewrite sort_insert_perm, IH.
Qed.

Lemma sort_insert_sorted x l :
  StronglySorted (λ a b, key a ≤ key b) l →
  StronglySorted (λ a b, key a ≤ key b) (sort_insert cmp x l).
Proof.
  induction 1 as [|y l Hs IH Hy]; simpl.
  - repeat constructor.
  - rewrite cmp_key. destruct (Z.leb_spec (key x - key y) 0) as [Hle|Hgt].
    + constructor; [by constructor|].
      constructor; [lia|].
      eapply Forall_impl; [exact Hy|]. simpl. intros. lia.
    + constructor; [exact IH|].
      rewrite sort_insert_perm. constructor; [lia | exact Hy].
Qed.

Lemma sort_sorted l : StronglySorted (λ a b, key a ≤ key b) (sort cmp l).
Proof.
  induction l as [|x l IH]; [constructor|].
  change (sort cmp (x :: l)) with (sort_insert cmp x (sort cmp l)).
  by apply sort_insert_sorted.
Qed.

Lemma sort_insert_stable k x l :
  filter (λ a, key a = k) (sort_insert cmp x l) =
  filter (λ a, key a = k) (x :: l).
Proof.
  induction l as [|y l IH]; simpl; [done|].
  rewrite cmp_key. destruct (Z.leb_spec (key x - key y) 0) as [Hle|Hgt]; [done|].
  rewrite (filter_cons _ y), IH, !filter_cons.
  repeat case_decide; try done; lia.
Qed.

Lemma sort_stable k l :
  filter (λ a, key a = k) (sort cmp l) = filter (λ a, key a = k) l.
Proof.
  induction l as [|x l IH]; [done|].
  change (sort cmp (x :: l)) with (sort_insert cmp x (sort cmp l)).
  by rewrite sort_insert_stable, !filter_cons, IH.
Qed.

Lemma sort_StableSorted l : StableSorted key l (sort cmp l).
Proof. split; [apply sort_sorted | intros k; apply sort_stable]. Qed.

(** Two stable sortings of one list are the same list: the array that
    [Array.prototype.sort] returns does not depend on the algorithm of the
    engine. *)
Lemma StableSorted_unique l l1 l2 :
  StableSorted key l l1 → StableSorted key l l2 → l1 = l2.
Proof.
  intros [Hs1 Hf1] [Hs2 Hf2].
  assert (Hf : ∀ k, filter (λ a, key a = k) l1 = filter (λ a, key a = k) l2)
    by (intros k; by rewrite Hf1, Hf2).
  clear Hf1 Hf2 l. revert l2 Hs2 Hf.
  induction Hs1 as [|a l1 Hs1 IH Ha]; intros l2 Hs2 Hf.
  - destruct l2 as [|b l2]; [done|].
    specialize (Hf (key b)). rewrite filter_cons_True in Hf by done. done.
  - destruct l2 as [|b l2].
    { specialize (Hf (key a)). rewrite filter_cons_True in Hf by done. done. }
    apply StronglySorted_inv in Hs2 as [Hs2 Hb].
    assert (key a = key b) as Hab.
    { assert (a ∈ b :: l2) as Hin.
      { eapply (list_elem_of_filter (λ a0, key a0 = key a)).
        rewrite <- Hf. rewrite filter_cons_True by done. left. }
      assert (b ∈ a :: l1) as Hin'.
      { eapply (list_elem_of_filter (λ a0, key a0 = key b)).
        rewrite Hf. rewrite filter_cons_True by done. left. }
      apply elem_of_cons in Hin as [->|Hin]; [done|].
      apply elem_of_cons in Hin' as [->|Hin']; [done|].
      rewrite Forall_forall in Ha, Hb.
      specialize (Ha _ Hin'). specialize (Hb _ Hin). lia. }
    pose proof (Hf (key a)) as Hk.
    rewrite filter_cons_True in Hk by done.
    rewrite filter_cons_True in Hk by done.
    injection Hk as -> Hk. f_equal.
    apply IH; [done|]. intros k. specialize (Hf k).
    rewrite !filter_cons in Hf. case_decide; [by injection Hf|done].
Qed.

(** A worker ranked in the first [n] places has no more visits than one
    ranked after them. *)
Lemma sorted_take_drop_le n l a b :
  StronglySorted (λ a b, key a ≤ key b) l →
  a ∈ take n l → b ∈ drop n l → key a ≤ key b.
Proof.
  intros Hs. revert n. induction Hs as [|x l Hs IH Hx]; intros n Ha Hb.
  - by rewrite take_nil in Ha; apply elem_of_nil in Ha.
  - destruct n as [|n]; simpl in *; [by apply elem_of_nil in Ha|].
    apply elem_of_cons in Ha as [->|Ha]; [|by eapply IH].
    rewrite Forall_forall in Hx. apply Hx.
    by eapply subseteq_drop.
Qed.

End SortFacts.

(** ** The station loop of the planner *)

Section Planner.

Context (now : Clock) (roster : list Employee) (needs : gmap string Z).

Context (employeeHistories : list EmployeeHistory).

Lemma placeAll_nil s l : placeAll now roster s [] l = l.
Proof.
  destruct l; unfold placeAll; simpl.
  rewrite !app_nil_r. f_equal. apply (right_id_L ∅ (∪)).
Qed.

Lemma placeAll_cons s e taken l :
  placeAll now roster s (e :: taken) l = placeAll now roster s taken (placeEmployee now roster s e l).
Proof.
  unfold placeAll, placeEmployee; simpl.
  rewrite <- !app_assoc. simpl. f_equal. apply (assoc_L (∪)).
Qed.

Lemma placeLoop_spec s needed i rest l :
  placeLoop now roster s needed i rest l =
  placeAll now roster s (take (Z.to_nat (needed - i)) rest) l.
Proof.
  revert i l. induction rest as [|e rest IH]; intros i l; simpl.
  - by rewrite take_nil, placeAll_nil.
  - destruct (Z.ltb_spec i needed) as [Hlt|Hge].
    + rewrite IH. replace (Z.to_nat (needed - i)) with (S (Z.to_nat (needed - (i + 1)))) by lia.
      simpl. by rewrite placeAll_cons.
    + replace (Z.to_nat (needed - i)) with 0%nat by lia.
      by rewrite placeAll_nil.
Qed.

Lemma fillStation_spec l s :
  fillStation now roster needs employeeHistories l s =
  placeAll now roster s (takenFor needs employeeHistories (assignedEmployees l) s) l.
Proof.
  unfold fillStation, takenFor. rewrite placeLoop_spec.
  by rewrite Z.sub_0_r.
Qed.

(** *** The workers taken for one station *)

Lemma availableFor_perm assigned s :
  availableFor employeeHistories assigned s ≡ₚ poolOf employeeHistories assigned.
Proof. apply sort_perm. Qed.

Lemma takenFor_submseteq assigned s : takenFor needs employeeHistories assigned s ⊆+ poolOf employeeHistories assigned.
Proof.
  unfold takenFor. rewrite <- (availableFor_perm assigned s).
  apply submseteq_take.
Qed.

Lemma takenFor_elem assigned s e :
  e ∈ takenFor needs employeeHistories assigned s → e ∈ employeeHistories ∧ eh_id e ∉ assigned.
Proof.
  intros He. eapply elem_of_submseteq in He; [|apply takenFor_submseteq].
  apply list_elem_of_filter in He. tauto.
Qed.

Lemma takenFor_length assigned s :
  length (takenFor needs employeeHistories assigned s) =
  Nat.min (Z.to_nat (needOf needs s)) (length (poolOf employeeHistories assigned)).
Proof.
  unfold takenFor. rewrite length_take.
  by rewrite (Permutation_length (availableFor_perm assigned s)).
Qed.

Lemma NoDup_of_submseteq {B} (l1 l2 : list B) :
  l1 ⊆+ l2 → NoDup l2 → NoDup l1.
Proof.
  intros [k Hk]%submseteq_Permutation Hnd. rewrite Hk in Hnd.
  by apply NoDup_app in Hnd as [? _].
Qed.

Lemma takenFor_NoDup assigned s :
  NoDup (eh_id <$> employeeHistories) →
  NoDup (eh_id <$> takenFor needs employeeHistories assigned s).
Proof.
  apply NoDup_of_submseteq. apply fmap_submseteq.
  etrans; [apply takenFor_submseteq|].
  apply sublist_submseteq, sublist_filter.
Qed.

Lemma employeeId_entryOf s (taken : list EmployeeHistory) :
  employeeId <$> (entryOf roster s <$> taken) = eh_id <$> taken.
Proof. rewrite <- list_fmap_compose. by apply list_fmap_ext. Qed.

(** *** Invariants of the loop over the stations *)

Lemma planFrom_cons l s ss :
  planFrom now roster needs employeeHistories l (s :: ss) =
  planFrom now roster needs employeeHistories (placeAll now roster s (takenFor needs employeeHistories (assignedEmployees l) s) l) ss.
Proof. unfold planFrom. simpl. by rewrite fillStation_spec. Qed.

Lemma Tracked_placeAll s taken l : Tracked l → Tracked (placeAll now roster s taken l).
Proof.
  intros Ht i. simpl.
  rewrite elem_of_union, elem_of_list_to_set, fmap_app, elem_of_app.
  by rewrite employeeId_entryOf, (Ht i).
Qed.

Lemma Tracked_planFrom ss l : Tracked l → Tracked (planFrom now roster needs employeeHistories l ss).
Proof.
  revert l. induction ss as [|s ss IH]; intros l Ht; [done|].
  rewrite planFrom_cons. by apply IH, Tracked_placeAll.
Qed.

Lemma NoDup_planFrom ss l :
  NoDup (eh_id <$> employeeHistories) → Tracked l →
  NoDup (employeeId <$> newAssignments l) →
  NoDup (employeeId <$> newAssignments (planFrom now roster needs employeeHistories l ss)).
Proof.
  intros Hh. revert l. induction ss as [|s ss IH]; intros l Ht Hnd; [done|].
  rewrite planFrom_cons. apply IH; [by apply Tracked_placeAll|].
  simpl. rewrite fmap_app, employeeId_entryOf.
  apply NoDup_app. split_and!; [done| |by apply takenFor_NoDup].
  intros i Hi [e [-> He]]%list_elem_of_fmap.
  apply takenFor_elem in He as [_ He]. by apply He, Ht.
Qed.

Lemma OneStation_planFrom ss l :
  Tracked l → OneStation (newAssignments l) →
  OneStation (newAssignments (planFrom now roster needs employeeHistories l ss)).
Proof.
  revert l. induction ss as [|s ss IH]; intros l Ht Ho; [done|].
  rewrite planFrom_cons. apply IH; [by apply Tracked_placeAll|].
  simpl. intros a b Ha Hb Hab.
  apply elem_of_app in Ha as [Ha|[ea [-> Ha]]%list_elem_of_fmap];
    apply elem_of_app in Hb as [Hb|[eb [-> Hb]]%list_elem_of_fmap];
    simpl in *.
  - by apply Ho.
  - apply takenFor_elem in Hb as [_ Hb]. exfalso. apply Hb, Ht.
    rewrite <- Hab. by apply list_elem_of_fmap_2.
  - apply takenFor_elem in Ha as [_ Ha]. exfalso. apply Ha, Ht.
    rewrite Hab. by apply list_elem_of_fmap_2.
  - done.
Qed.

Lemma placedAt_app s l1 l2 :
  placedAt s (l1 ++ l2) = (placedAt s l1 + placedAt s l2)%nat.
Proof. unfold placedAt. by rewrite filter_app, length_app. Qed.

Lemma placedAt_entryOf s s' (taken : list EmployeeHistory) :
  placedAt s (entryOf roster s' <$> taken) =
  if decide (s' = s) then length taken else 0%nat.
Proof.
  unfold placedAt. induction taken as [|e taken IH].
  - by case_decide.
  - rewrite fmap_cons, filter_cons. simpl.
    destruct (decide (s' = s)); simpl; by rewrite IH.
Qed.

Lemma placedAt_planFrom ss l s :
  NoDup ss →
  (placedAt s (newAssignments (planFrom now roster needs employeeHistories l ss)) ≤
   placedAt s (newAssignments l) +
   if decide (s ∈ ss) then Z.to_nat (needOf needs s) else 0)%nat.
Proof.
  revert l. induction ss as [|s' ss IH]; intros l Hnd.
  - rewrite decide_False by apply not_elem_of_nil. simpl. lia.
  - apply NoDup_cons in Hnd as [Hs' Hnd]. rewrite planFrom_cons.
    pose proof (IH (placeAll now roster s' (takenFor needs employeeHistories (assignedEmployees l) s') l) Hnd)
      as Hle.
    simpl in Hle.
    rewrite placedAt_app, placedAt_entryOf, takenFor_length in Hle.
    destruct (decide (s' = s)) as [->|Hne].
    + rewrite decide_False in Hle by done.
      rewrite decide_True by left. lia.
    + destruct (decide (s ∈ ss)) as [Hin|Hin].
      * rewrite decide_True by (by right). lia.
      * rewrite decide_False; [lia|].
        intros [?|?]%elem_of_cons; done.
Qed.

(** What the loop appends: the same entries to the array and, as rows, to
    each of the two tables. *)
Lemma planFrom_appends ss l :
  ∃ added,
    newAssignments (planFrom now roster needs employeeHistories l ss) = newAssignments l ++ added ∧
    l_daily_assignments (planFrom now roster needs employeeHistories l ss) =
      l_daily_assignments l ++ (rowOfAssignment now <$> added) ∧
    l_work_history (planFrom now roster needs employeeHistories l ss) =
      l_work_history l ++ (rowOfAssignment now <$> added) ∧
    Forall (λ a, station a ∈ ss ∧ lane a = None ∧
                 employeeId a ∈ eh_id <$> employeeHistories) added.
Proof.
  revert l. induction ss as [|s ss IH]; intros l.
  - exists []. simpl. by rewrite !app_nil_r.
  - rewrite planFrom_cons.
    destruct (IH (placeAll now roster s (takenFor needs employeeHistories (assignedEmployees l) s) l))
      as (added & Hn & Hd & Hh & Hall).
    exists ((entryOf roster s <$> takenFor needs employeeHistories (assignedEmployees l) s) ++ added).
    rewrite Hn, Hd, Hh. simpl. rewrite !fmap_app, <- !app_assoc.
    assert (rowOfAssignment now <$> (entryOf roster s <$> takenFor needs employeeHistories (assignedEmployees l) s)
            = rowOf now s <$> takenFor needs employeeHistories (assignedEmployees l) s) as ->.
    { rewrite <- list_fmap_compose. by apply list_fmap_ext. }
    split_and!; try done.
    apply Forall_app. split.
    + apply Forall_fmap, Forall_forall. intros e He. simpl.
      split_and!; [left|done|].
      apply list_elem_of_fmap_2. by apply takenFor_elem in He as [? _].
    + eapply Forall_impl; [exact Hall|]. simpl. intros a (?&?&?).
      split_and!; [by right|done|done].
Qed.

End Planner.

(** ** The order in which the stations are filled *)

Lemma NoDup_STATIONS : NoDup STATIONS.
Proof. apply (bool_decide_unpack _). by vm_compute. Qed.

Lemma sortedStationsOf_StableSorted stations needs :
  StableSorted (λ s, - needOf needs s)
    (filter (λ s, needOf needs s > 0) (filter (λ s, s ≠ "FL") stations))
    (sortedStationsOf stations needs).
Proof. apply sort_StableSorted. intros a b. simpl. lia. Qed.

Lemma sortedStationsOf_perm stations needs :
  sortedStationsOf stations needs ≡ₚ filter (fillable needs) stations.
Proof.
  unfold sortedStationsOf. rewrite sort_perm, list_filter_filter.
  apply reflexive_eq, list_filter_iff. unfold fillable. intros s.
  intuition lia.
Qed.

Lemma elem_of_sortedStations needs s :
  s ∈ sortedStations needs ↔ s ∈ STATIONS ∧ s ≠ "FL" ∧ 0 < needOf needs s.
Proof.
  unfold sortedStations. rewrite sortedStationsOf_perm, list_elem_of_filter.
  unfold fillable. tauto.
Qed.

Lemma NoDup_sortedStations needs : NoDup (sortedStations needs).
Proof.
  unfold sortedStations. rewrite sortedStationsOf_perm.
  apply NoDup_filter, NoDup_STATIONS.
Qed.




Lemma filter_none {A} (P : A → Prop) `{∀ x, Decision (P x)} (l : list A) :
  (∀ x, x ∈ l → ¬ P x) → filter P l = [].
Proof.
  induction l as [|x l IH]; intros Hl; [done|].
  rewrite filter_cons_False by (apply Hl; left).
  apply IH. intros y Hy. apply Hl. by right.
Qed.

Section PlannerOrder.

Context (now : Clock) (roster : list Employee) (needs : gmap string Z).

Context (employeeHistories : list EmployeeHistory).

Local Abbreviation plan := (planFrom now roster needs employeeHistories).

Local Abbreviation taken := (takenFor needs employeeHistories).




End PlannerOrder.

(** ** One run of [distributeEmployees] *)

Section Distribute.

Context (now : Clock) (st : State).

Lemma runLoop_planFrom :
  runLoop now st =
  planFrom now (employees st) (stationNeeds st) (fetchHistories now st)
    {| newAssignments := []; assignedEmployees := ∅;
       l_daily_assignments := clearedDaily now st;
       l_work_history := work_history st |}
    (sortedStations (stationNeeds st)).
Proof. reflexivity. Qed.

Lemma eh_id_fetchHistories :
  eh_id <$> fetchHistories now st = selectedEmployees st.
Proof.
  unfold fetchHistories. rewrite <- list_fmap_compose.
  rewrite <- (list_fmap_id (selectedEmployees st)) at 2.
  by apply list_fmap_ext.
Qed.

Lemma distribute_rejected :
  selectedEmployees st = [] → distributeEmployees now st = (st, Some IngenVald).
Proof. intros Hsel. unfold distributeEmployees. by rewrite Hsel. Qed.

Lemma distribute_accepted :
  selectedEmployees st ≠ [] →
  distributeEmployees now st =
  ({| employees := employees st;
      selectedEmployees := selectedEmployees st;
      stationNeeds := stationNeeds st;
      assignments := withManual (flManual st) (placements now st);
      flManual := flManual st;
      loading := false;
      draggedEmployee := draggedEmployee st;
      warningDialog := warningDialog st;
      daily_assignments := l_daily_assignments (runLoop now st);
      work_history := l_work_history (runLoop now st) |},
   Some (FordelningKlar (size (assignedEmployees (runLoop now st))))).
Proof.
  intros Hsel. unfold distributeEmployees.
  destruct (selectedEmployees st) eqn:E; [done|]. simpl.
  unfold placements, runLoop, fetchHistories, clearedDaily. by rewrite E.
Qed.

Lemma placements_rows :
  l_daily_assignments (runLoop now st) =
    clearedDaily now st ++ (rowOfAssignment now <$> (placements now st)) ∧
  l_work_history (runLoop now st) =
    work_history st ++ (rowOfAssignment now <$> (placements now st)) ∧
  Forall (λ a, station a ∈ sortedStations (stationNeeds st) ∧ lane a = None ∧
               employeeId a ∈ selectedEmployees st) (placements now st).
Proof.
  unfold placements. rewrite runLoop_planFrom.
  destruct (planFrom_appends now (employees st) (stationNeeds st)
              (fetchHistories now st)
              (sortedStations (stationNeeds st))
              {| newAssignments := []; assignedEmployees := ∅;
                 l_daily_assignments := clearedDaily now st;
                 l_work_history := work_history st |})
    as (added & Hn & Hd & Hh & Hall).
  simpl in *. rewrite Hn, Hd, Hh. by rewrite eh_id_fetchHistories in Hall.
Qed.

Lemma Tracked_init daily hist :
  Tracked {| newAssignments := []; assignedEmployees := ∅;
             l_daily_assignments := daily; l_work_history := hist |}.
Proof. intros i. simpl. set_solver. Qed.

Lemma placements_NoDup :
  NoDup (selectedEmployees st) → NoDup (employeeId <$> (placements now st)).
Proof.
  intros Hnd. unfold placements. rewrite runLoop_planFrom.
  apply NoDup_planFrom.
  - by rewrite eh_id_fetchHistories.
  - apply Tracked_init.
  - constructor.
Qed.

Lemma placements_OneStation : OneStation (placements now st).
Proof.
  unfold placements. rewrite runLoop_planFrom.
  apply OneStation_planFrom; [apply Tracked_init|].
  intros a b Ha. by apply elem_of_nil in Ha.
Qed.

Lemma placements_placedAt s :
  Z.of_nat (placedAt s (placements now st)) ≤ Z.max 0 (needOf (stationNeeds st) s).
Proof.
  unfold placements. rewrite runLoop_planFrom.
  pose proof (placedAt_planFrom now (employees st) (stationNeeds st)
                (fetchHistories now st) (sortedStations (stationNeeds st))
                {| newAssignments := []; assignedEmployees := ∅;
                   l_daily_assignments := clearedDaily now st;
                   l_work_history := work_history st |} s
                (NoDup_sortedStations _)) as Hle.
  simpl in Hle. case_decide; lia.
Qed.


End Distribute.

(** ** Claims on the planner *)

(** C4. For every station of [STATIONS], and so for every station that the
    loop of [distributeEmployees] processes, from any value [l] of the loop
    variables. The count of a worker is the entry of the station in the
    worker's history map, 0 when there is none, and the need is the entry
    of the station in [stationNeeds], 0 when there is none. The ranking
    [available] is the pool (the selected workers not yet assigned, in
    selection order) sorted by ascending count, workers of equal count
    keeping their selection order, and no other list is; the loop pushes
    an entry for each of the first [needed] workers of the ranking, or for
    all of them when the pool is smaller, and marks them assigned; every
    worker taken has at most as many visits as every worker left; and the
    pool of the next station is the pool without the workers taken. *)
Theorem fillStation_takes_least_visited (now : Clock) (roster : list Employee)
    (needs : gmap string Z) (employeeHistories : list EmployeeHistory)
    (l : Loop) (s : string) :
  s ∈ STATIONS →
  let visits := λ e : EmployeeHistory, default 0 (history e !! s) in
  let pool :=
    filter (λ e, eh_id e ∉ assignedEmployees l) employeeHistories in
  let ranked := availableFor employeeHistories (assignedEmployees l) s in
  let n := Z.to_nat (default 0 (needs !! s)) in
  let l' := fillStation now roster needs employeeHistories l s in
  ranked ≡ₚ pool ∧
  StronglySorted (λ a b, visits a ≤ visits b) ranked ∧
  (∀ k, filter (λ e, visits e = k) ranked = filter (λ e, visits e = k) pool) ∧
  (∀ r, StableSorted visits pool r → r = ranked) ∧
  newAssignments l' =
    newAssignments l ++
    ((λ e, {| employeeId := eh_id e;
              employeeName := nameOf roster (eh_id e);
              station := s; lane := None |}) <$> take n ranked) ∧
  assignedEmployees l' =
    assignedEmployees l ∪ list_to_set (eh_id <$> take n ranked) ∧
  length (take n ranked) = Nat.min n (length pool) ∧
  (∀ a b, a ∈ take n ranked → b ∈ drop n ranked → visits a ≤ visits b) ∧
  filter (λ e, eh_id e ∉ assignedEmployees l') employeeHistories =
    filter (λ e, eh_id e ∉ eh_id <$> take n ranked) pool.
Proof.
  intros _ visits pool ranked n l'.
  change visits with (countAt s).
  change pool with (poolOf employeeHistories (assignedEmployees l)).
  change n with (Z.to_nat (needOf needs s)).
  assert (StableSorted (countAt s)
            (poolOf employeeHistories (assignedEmployees l)) ranked)
    as Hstable by (apply sort_StableSorted; done).
  assert (l' = placeAll now roster s (take (Z.to_nat (needOf needs s)) ranked) l)
    as -> by (subst l'; by rewrite fillStation_spec).
  split_and!.
  - apply availableFor_perm.
  - apply Hstable.
  - apply Hstable.
  - intros r Hr. by eapply StableSorted_unique.
  - done.
  - done.
  - rewrite length_take. unfold ranked.
    by rewrite (Permutation_length (availableFor_perm _ _ _)).
  - intros a b. apply sorted_take_drop_le, Hstable.
  - simpl. unfold poolOf.
    rewrite list_filter_filter. apply list_filter_iff. intros e.
    rewrite not_elem_of_union, elem_of_list_to_set. tauto.
Qed.



Lemma placedAt_withManual s text l :
  s ≠ "FL" → placedAt s (withManual text l) = placedAt s l.
Proof.
  intros Hs. unfold withManual. destruct (trimTruthy text); [|done].
  unfold placedAt. rewrite filter_app, length_app.
  rewrite filter_cons_False by (simpl; congruence). simpl. lia.
Qed.

Lemma rows_at_station now s (l : list Assignment) :
  length (filter (λ r, row_station r = s ∧ row_date r = today now)
            (rowOfAssignment now <$> l)) = placedAt s l.
Proof.
  unfold placedAt. induction l as [|a l IH]; [done|].
  rewrite fmap_cons, !filter_cons. simpl.
  destruct (decide (station a = s)).
  - rewrite decide_True by done. simpl. by rewrite IH.
  - rewrite decide_False by tauto. done.
Qed.

(** C7. A run of [distributeEmployees] places at station [s] no more workers
    than the need of [s], read as a head count (a need that is not positive
    asks for nobody): this holds of the entries the loop pushes, of the
    entries of the new [assignments] state other than the free-text [FL]
    entry, and of the rows of the day in [daily_assignments]. *)
Theorem distribute_within_need (now : Clock) (st : State) (s : string) :
  selectedEmployees st ≠ [] →
  let st' := (distributeEmployees now st).1 in
  let needed := Z.max 0 (needOf (stationNeeds st) s) in
  Z.of_nat (placedAt s (placements now st)) ≤ needed ∧
  (s ≠ "FL" → Z.of_nat (placedAt s (assignments st')) ≤ needed) ∧
  Z.of_nat (length (filter (λ r, row_station r = s ∧ row_date r = today now)
                      (daily_assignments st'))) ≤ needed.
Proof.
  intros Hsel st' needed. subst st'.
  rewrite distribute_accepted by done. simpl.
  pose proof (placements_placedAt now st s) as Hle.
  split_and!; [done| |].
  - intros Hs. by rewrite placedAt_withManual.
  - destruct (placements_rows now st) as (-> & _ & _).
    rewrite filter_app, length_app, rows_at_station.
    rewrite filter_none; [simpl; lia|].
    intros r [Hr _]%list_elem_of_filter. tauto.
Qed.

(** C8. With nobody selected, [distributeEmployees] returns before its first
    write: the component state and both tables are unchanged (no row of
    [daily_assignments] is deleted, none is inserted in either table, the
    [assignments] state is kept), and the only effect is the destructive
    toast that asks to select a worker. *)
Theorem distribute_empty_selection_rejected (now : Clock) (st : State) :
  selectedEmployees st = [] →
  distributeEmployees now st = (st, Some IngenVald).
Proof. apply distribute_rejected. Qed.

(** ** Determinism of the planner *)

Lemma planFrom_sim {B} (f : Assignment → B) now1 now2 roster1 roster2
    needs hist ss l1 l2 :
  (∀ s e, f (entryOf roster1 s e) = f (entryOf roster2 s e)) →
  assignedEmployees l1 = assignedEmployees l2 →
  f <$> newAssignments l1 = f <$> newAssignments l2 →
  assignedEmployees (planFrom now1 roster1 needs hist l1 ss) =
    assignedEmployees (planFrom now2 roster2 needs hist l2 ss) ∧
  f <$> newAssignments (planFrom now1 roster1 needs hist l1 ss) =
    f <$> newAssignments (planFrom now2 roster2 needs hist l2 ss).
Proof.
  intros Hf. revert l1 l2. induction ss as [|s ss IH]; intros l1 l2 Ha Hn.
  - done.
  - rewrite !planFrom_cons. apply IH; simpl.
    + by rewrite Ha.
    + rewrite !fmap_app, Hn, Ha. f_equal.
      rewrite <- !list_fmap_compose. apply list_fmap_ext. intros i e _. apply Hf.
Qed.

Lemma fetchHistories_ext now1 now2 st1 st2 :
  selectedEmployees st1 = selectedEmployees st2 →
  (∀ w, w ∈ selectedEmployees st1 →
        getEmployeeHistory (work_history st1) (sixMonthsAgo now1) w =
        getEmployeeHistory (work_history st2) (sixMonthsAgo now2) w) →
  fetchHistories now1 st1 = fetchHistories now2 st2.
Proof.
  intros Hsel Hh. unfold fetchHistories. rewrite <- Hsel.
  apply list_fmap_ext. intros i w Hw. rewrite Hh; [done|].
  by eapply list_elem_of_lookup_2.
Qed.

(** C9. Two runs of [distributeEmployees] on the same selection (the same
    workers in the same order), the same needs, the same history map for
    every selected worker and the same free text give the same outcome: the
    same toast and, when the selection is not empty, the same placements
    in the same order, entry for entry (and the very same [assignments]
    state when the roster, from which the names are read, is the same) --
    whatever the day, the tables and the rest of the state. No tie is left
    open: any stable sorting of the stations by descending need is
    [sortedStations], and any stable sorting of a pool by ascending count is
    the ranking the loop uses. *)
Theorem distribute_deterministic (now1 now2 : Clock) (st1 st2 : State) :
  selectedEmployees st1 = selectedEmployees st2 →
  stationNeeds st1 = stationNeeds st2 →
  (∀ w, w ∈ selectedEmployees st1 →
        getEmployeeHistory (work_history st1) (sixMonthsAgo now1) w =
        getEmployeeHistory (work_history st2) (sixMonthsAgo now2) w) →
  flManual st1 = flManual st2 →
  let r1 := distributeEmployees now1 st1 in
  let r2 := distributeEmployees now2 st2 in
  r1.2 = r2.2 ∧
  (selectedEmployees st1 ≠ [] →
   placementOf <$> assignments r1.1 = placementOf <$> assignments r2.1 ∧
   (employees st1 = employees st2 → assignments r1.1 = assignments r2.1)) ∧
  (∀ r, StableSorted (λ s, - needOf (stationNeeds st1) s)
          (filter (λ s, needOf (stationNeeds st1) s > 0)
             (filter (λ s, s ≠ "FL") STATIONS)) r →
        r = sortedStations (stationNeeds st1)) ∧
  (∀ assigned s r,
     StableSorted (countAt s) (poolOf (fetchHistories now1 st1) assigned) r →
     r = availableFor (fetchHistories now1 st1) assigned s).
Proof.
  intros Hsel Hneeds Hhist Htext r1 r2.
  pose proof (fetchHistories_ext _ _ _ _ Hsel Hhist) as Hfetch.
  assert (∀ B (f : Assignment → B),
            (∀ s e, f (entryOf (employees st1) s e) = f (entryOf (employees st2) s e)) →
            assignedEmployees (runLoop now1 st1) = assignedEmployees (runLoop now2 st2) ∧
            f <$> placements now1 st1 = f <$> placements now2 st2) as Hsim.
  { intros B f Hf. unfold placements. rewrite !runLoop_planFrom.
    rewrite <- Hneeds, <- Hfetch. by apply planFrom_sim. }
  split_and!.
  - subst r1 r2. destruct (decide (selectedEmployees st1 = [])) as [He|Hne].
    + rewrite !distribute_rejected by congruence. done.
    + rewrite !distribute_accepted by congruence. simpl.
      by destruct (Hsim _ placementOf (λ _ _, eq_refl)) as [-> _].
  - intros Hne. subst r1 r2.
    rewrite !distribute_accepted by congruence. simpl.
    rewrite <- Htext. unfold withManual. split.
    + destruct (Hsim _ placementOf (λ _ _, eq_refl)) as [_ Hp].
      destruct (trimTruthy (flManual st1)); [|done].
      by rewrite !fmap_app, Hp.
    + intros Hroster.
      destruct (Hsim _ (λ a, a)) as [_ Hp]; [by rewrite Hroster|].
      rewrite !list_fmap_id in Hp. by rewrite Hp.
  - intros r Hr. eapply StableSorted_unique; [exact Hr|].
    apply sortedStationsOf_StableSorted.
  - intros assigned s r Hr. eapply StableSorted_unique; [exact Hr|].
    by apply sort_StableSorted.
Qed.

(** ** At most one entry per worker *)

Lemma NoDup_fmap_sublist {A B} (f : A → B) (l1 l2 : list A) :
  l1 `sublist_of` l2 → NoDup (f <$> l2) → NoDup (f <$> l1).
Proof. intros Hsub Hnd. eapply sublist_NoDup; [exact Hnd|]. by apply fmap_sublist. Qed.

Lemma NoDup_fmap_elem_eq {A B} (f : A → B) (l : list A) x y :
  NoDup (f <$> l) → x ∈ l → y ∈ l → f x = f y → x = y.
Proof.
  induction l as [|z l IH]; intros Hnd Hx Hy Hf; [by apply elem_of_nil in Hx|].
  rewrite fmap_cons in Hnd. apply NoDup_cons in Hnd as [Hz Hnd].
  apply elem_of_cons in Hx as [->|Hx]; apply elem_of_cons in Hy as [->|Hy].
  - done.
  - exfalso. apply Hz. rewrite Hf. by apply list_elem_of_fmap_2.
  - exfalso. apply Hz. rewrite <- Hf. by apply list_elem_of_fmap_2.
  - by apply IH.
Qed.

Lemma AtMostOnce_withManual text l :
  NoDup (employeeId <$> l) → AtMostOnce (withManual text l).
Proof.
  intros Hnd. unfold AtMostOnce, withManual.
  destruct (trimTruthy text).
  - rewrite filter_app, filter_cons_False by (simpl; tauto).
    rewrite filter_nil, app_nil_r.
    eapply NoDup_fmap_sublist; [apply sublist_filter|done].
  - eapply NoDup_fmap_sublist; [apply sublist_filter|done].
Qed.

Lemma distribute_RowsAtMostOnce now st :
  NoDup (selectedEmployees st) → RowsAtMostOnce (daily_assignments st) →
  RowsAtMostOnce (daily_assignments (distributeEmployees now st).1).
Proof.
  intros Hsel Hrows.
  destruct (decide (selectedEmployees st = [])) as [He|Hne].
  { by rewrite distribute_rejected. }
  rewrite distribute_accepted by done. simpl.
  destruct (placements_rows now st) as (-> & _ & _).
  intros d. rewrite filter_app, fmap_app.
  destruct (decide (d = today now)) as [->|Hd].
  - unfold clearedDaily. rewrite list_filter_filter, filter_none.
    2:{ intros r _ [? ?]. done. }
    simpl. eapply NoDup_fmap_sublist; [apply sublist_filter|].
    rewrite <- list_fmap_compose.
    exact (placements_NoDup now st Hsel).
  - rewrite (filter_none _ (rowOfAssignment now <$> _)).
    2:{ intros r [a [-> _]]%list_elem_of_fmap. simpl. congruence. }
    rewrite app_nil_r. unfold clearedDaily. rewrite list_filter_filter.
    rewrite (list_filter_iff _ (λ r, row_date r = d))
      by (intros; intuition congruence).
    apply Hrows.
Qed.

Lemma filter_filter_sublist {A} (P Q : A → Prop)
    `{!∀ x, Decision (P x), !∀ x, Decision (Q x)} (l : list A) :
  filter P (filter Q l) `sublist_of` filter P l.
Proof.
  rewrite list_filter_filter.
  rewrite <- (list_filter_filter_l (λ a, P a ∧ Q a) P) by tauto.
  apply sublist_filter.
Qed.

Lemma performMove_AtMostOnce now st d toStation toLane :
  draggedEmployee st = Some d → d ∈ assignments st →
  AtMostOnce (assignments st) →
  AtMostOnce (assignments (performMove now st toStation toLane).1).
Proof.
  intros Hd Hin Hinv. unfold performMove. rewrite Hd. simpl.
  unfold AtMostOnce in *. rewrite filter_app, fmap_app.
  assert (NoDup (employeeId <$>
            filter (λ a, employeeId a ≠ "manual")
              (filter (λ a, ¬ samePlace d a) (assignments st)))) as Hrest.
  { eapply NoDup_fmap_sublist; [|exact Hinv]. apply filter_filter_sublist. }
  destruct (decide (employeeId d = "manual")) as [Hm|Hreal].
  - rewrite filter_cons_False by (simpl; tauto).
    by rewrite filter_nil, app_nil_r.
  - rewrite filter_cons_True by done. rewrite filter_nil. simpl.
    apply NoDup_app. split_and!; [done| |apply NoDup_singleton].
    intros i [a [-> Ha]]%list_elem_of_fmap Heq%list_elem_of_singleton.
    apply list_elem_of_filter in Ha as [Hra Ha].
    apply list_elem_of_filter in Ha as [Hsp Ha].
    apply Hsp.
    assert (a = d) as ->; [|done].
    eapply (NoDup_fmap_elem_eq employeeId); [exact Hinv| | |done].
    + by apply list_elem_of_filter.
    + by apply list_elem_of_filter.
Qed.

Lemma performMove_RowsAtMostOnce now st d toStation toLane :
  draggedEmployee st = Some d → DraggedInSync now st d →
  RowsAtMostOnce (daily_assignments st) →
  RowsAtMostOnce (daily_assignments (performMove now st toStation toLane).1).
Proof.
  intros Hd Hsync Hinv. unfold performMove. rewrite Hd. simpl.
  intros d0. rewrite filter_app, fmap_app.
  assert (NoDup (employee_id <$>
            filter (λ r, row_date r = d0)
              (filter (λ r, ¬ sameRow now d r) (daily_assignments st)))) as Hrest.
  { eapply NoDup_fmap_sublist; [|exact (Hinv d0)].
    apply filter_filter_sublist. }
  destruct (decide (today now = d0)) as [<-|Hother].
  - rewrite filter_cons_True by done. rewrite filter_nil. simpl.
    apply NoDup_app. split_and!; [done| |apply NoDup_singleton].
    intros i [r [-> Hr]]%list_elem_of_fmap Heq%list_elem_of_singleton.
    simpl in Heq.
    apply list_elem_of_filter in Hr as [Hdate Hr].
    apply list_elem_of_filter in Hr as [Hsr Hr].
    apply Hsr. split_and!; [done|done|]. by apply Hsync.
  - rewrite filter_cons_False by done.
    by rewrite filter_nil, app_nil_r.
Qed.

(** [handleDrop] either runs [performMove] or leaves the entries and both
    tables as they are. *)
Lemma handleDrop_cases now st toStation toLane :
  handleDrop now st toStation toLane = performMove now st toStation toLane ∨
  (assignments (handleDrop now st toStation toLane).1 = assignments st ∧
   daily_assignments (handleDrop now st toStation toLane).1 =
     daily_assignments st ∧
   work_history (handleDrop now st toStation toLane).1 = work_history st).
Proof.
  unfold handleDrop. destruct (draggedEmployee st) as [d|]; [|by right].
  case_decide; [by right|].
  destruct (overuseWarn _ _); [by right|by left].
Qed.

(** Each worker identifier occurs at most once among the entries of
    the [assignments] state (the [FL] entry, whose identifier is
    ["manual"], apart) and among the rows of any one day of
    [daily_assignments]:
    - a run of [distributeEmployees] never places a worker at two stations,
      and places each worker of a duplicate-free selection once at most;
    - both properties are kept by a run of [distributeEmployees] on a
      duplicate-free selection;
    - both are kept by [performMove], and so by [handleDrop] and by the
      confirmation of a warned move, when the dragged entry is one of the
      entries of the state and the worker's rows of the day are at the
      station the worker is dragged from. A run keeps [draggedEmployee]
      and replaces the entries, so that the last condition can fail: see
      [stale_drag_duplicates_worker]. *)
Theorem at_most_one_assignment (now : Clock) (st : State) :
  OneStation (placements now st) ∧
  (NoDup (selectedEmployees st) →
   NoDup (employeeId <$> placements now st) ∧
   (AssignmentInv st → AssignmentInv (distributeEmployees now st).1)) ∧
  (∀ d toStation toLane,
     draggedEmployee st = Some d → d ∈ assignments st →
     DraggedInSync now st d → AssignmentInv st →
     AssignmentInv (performMove now st toStation toLane).1 ∧
     AssignmentInv (handleDrop now st toStation toLane).1).
Proof.
  split_and!.
  - apply placements_OneStation.
  - intros Hsel. split; [by apply placements_NoDup|].
    intros [Hsnap Hrows]. split; [|by apply distribute_RowsAtMostOnce].
    destruct (decide (selectedEmployees st = [])) as [He|Hne].
    + by rewrite distribute_rejected.
    + rewrite distribute_accepted by done. simpl.
      by apply AtMostOnce_withManual, placements_NoDup.
  - intros d toStation toLane Hd Hin Hsync [Hsnap Hrows].
    assert (AssignmentInv (performMove now st toStation toLane).1) as Hmove.
    { split; [by eapply performMove_AtMostOnce
             |by eapply performMove_RowsAtMostOnce]. }
    split; [done|].
    destruct (handleDrop_cases now st toStation toLane) as [->|(Ha & Hd' & _)];
      [done|].
    unfold AssignmentInv. by rewrite Ha, Hd'.
Qed.

(** C6. A move does not keep the at-most-once property when the dragged
    entry is stale. On [crewState] the first run puts [e1] at [Plock],
    [e2] at [Pack] and [e3] at [KM], each worker once. The badge of [e1]
    is draggable, and its drag sets [draggedEmployee]. A second run keeps
    [draggedEmployee] and replaces the entries, [e1] now at [Pack] and
    each worker once again; the dragged entry is none of them. The card
    of [KM] is a drop target, and the drop on it removes no entry and no
    row, since [performMove] looks for [e1] at [Plock]; it adds [e1] at
    [KM]: [e1] has two entries, at [Pack] and at [KM], and two rows of
    the day in [daily_assignments]. *)
Theorem stale_drag_duplicates_worker :
  assignments crewRun =
    [atPlock;
     {| employeeId := "e2"; employeeName := "Bo";
        station := "Pack"; lane := None |};
     {| employeeId := "e3"; employeeName := "Cilla";
        station := "KM"; lane := None |}] ∧
  AssignmentInv crewRun ∧
  atPlock ∈ draggableOf (renderStationCard crewRun "Plock") ∧
  draggedEmployee crewRerun = Some atPlock ∧
  assignments crewRerun =
    [{| employeeId := "e2"; employeeName := "Bo";
        station := "Plock"; lane := None |};
     atPack;
     {| employeeId := "e3"; employeeName := "Cilla";
        station := "KM"; lane := None |}] ∧
  AssignmentInv crewRerun ∧
  ("KM", None) ∈ dropTargetsOf "KM" (renderStationCard crewRerun "KM") ∧
  handleDrop exampleClock crewRerun "KM" None =
    performMove exampleClock crewRerun "KM" None ∧
  assignments crewDropped =
    assignments crewRerun ++
    [{| employeeId := "e1"; employeeName := "Anna";
        station := "KM"; lane := None |}] ∧
  daily_assignments crewDropped =
    daily_assignments crewRerun ++
    [{| employee_id := "e1"; row_station := "KM";
        row_date := 20000; row_lane := None |}] ∧
  {| employee_id := "e1"; row_station := "Pack";
     row_date := 20000; row_lane := None |} ∈ daily_assignments crewRerun ∧
  ¬ AtMostOnce (assignments crewDropped) ∧
  ¬ RowsAtMostOnce (daily_assignments crewDropped) ∧
  ¬ AssignmentInv crewDropped.
Proof.
  assert (NoDup (selectedEmployees crewState)) as Hsel
    by (apply (bool_decide_unpack _); vm_compute; exact I).
  assert (AssignmentInv crewRun) as Hrun.
  { split.
    - apply (bool_decide_unpack _). vm_compute. exact I.
    - apply distribute_RowsAtMostOnce; [done|]. intros d. apply NoDup_nil_2. }
  assert (AssignmentInv crewRerun) as Hrerun.
  { split.
    - apply (bool_decide_unpack _). vm_compute. exact I.
    - apply distribute_RowsAtMostOnce; [done|apply Hrun]. }
  assert (¬ AtMostOnce (assignments crewDropped)) as Hsnap.
  { apply (bool_decide_unpack _). vm_compute. exact I. }
  assert (¬ RowsAtMostOnce (daily_assignments crewDropped)) as Hrows.
  { intros Hd. specialize (Hd 20000). revert Hd.
    apply (bool_decide_unpack _). vm_compute. exact I. }
  split_and!.
  - vm_compute. reflexivity.
  - exact Hrun.
  - apply (bool_decide_unpack _). vm_compute. exact I.
  - vm_compute. reflexivity.
  - vm_compute. reflexivity.
  - exact Hrerun.
  - apply (bool_decide_unpack _). vm_compute. exact I.
  - vm_compute. reflexivity.
  - vm_compute. reflexivity.
  - vm_compute. reflexivity.
  - apply (bool_decide_unpack _). vm_compute. exact I.
  - exact Hsnap.
  - exact Hrows.
  - intros [Ha _]. by apply Hsnap.
Qed.

(** ** The ledger mirror *)

(** [performMove] deletes and inserts the same rows in both tables, so it
    keeps the mirror of every day. *)
Lemma performMove_MirrorOn now st toStation toLane d :
  MirrorOn d st → MirrorOn d (performMove now st toStation toLane).1.
Proof.
  intros Hm. unfold performMove. destruct (draggedEmployee st) as [a|]; [|done].
  simpl. intros r Hr. simpl.
  rewrite !elem_of_app, !list_elem_of_filter, (Hm r Hr). done.
Qed.

(** The first run of a day leaves the mirror of the day in place: with no
    row of today in [work_history], both tables hold exactly the rows of
    the placements. *)
Lemma distribute_first_run_MirrorOn now st :
  selectedEmployees st ≠ [] →
  (∀ r, r ∈ work_history st → row_date r ≠ today now) →
  MirrorOn (today now) (distributeEmployees now st).1.
Proof.
  intros Hsel Hfresh. rewrite distribute_accepted by done.
  intros r Hr. simpl.
  destruct (placements_rows now st) as (-> & -> & _).
  rewrite !elem_of_app. unfold clearedDaily. rewrite list_elem_of_filter.
  split; intros [H|H]; try (by right).
  - by apply Hfresh in H.
  - tauto.
Qed.

(** A run leaves the rows of the other days alone. *)
Lemma distribute_other_day_MirrorOn now st d :
  d ≠ today now → MirrorOn d st → MirrorOn d (distributeEmployees now st).1.
Proof.
  intros Hd Hm. destruct (decide (selectedEmployees st = [])) as [He|Hne].
  { by rewrite distribute_rejected. }
  rewrite distribute_accepted by done.
  intros r Hr. simpl.
  destruct (placements_rows now st) as (-> & -> & _).
  rewrite !elem_of_app. unfold clearedDaily.
  rewrite list_elem_of_filter, (Hm r Hr).
  assert (r ∉ rowOfAssignment now <$> placements now st) as Hnot.
  { intros [a [-> _]]%list_elem_of_fmap. simpl in Hr. congruence. }
  split; intros [H|H]; try done; left; [split|tauto]; [congruence|done].
Qed.

(** What a run does not do: no row of [work_history] is ever deleted by
    [distributeEmployees]. *)
Lemma distribute_keeps_history now st r :
  r ∈ work_history st → r ∈ work_history (distributeEmployees now st).1.
Proof.
  intros Hr. destruct (decide (selectedEmployees st = [])) as [He|Hne].
  { by rewrite distribute_rejected. }
  rewrite distribute_accepted by done. simpl.
  destruct (placements_rows now st) as (_ & -> & _).
  apply elem_of_app. by left.
Qed.

(** So a row of today that the run does not write again is left without
    counterpart in [daily_assignments]. *)
Lemma distribute_stale_row now st r :
  selectedEmployees st ≠ [] →
  r ∈ work_history st → row_date r = today now →
  r ∉ rowOfAssignment now <$> placements now st →
  ¬ MirrorOn (today now) (distributeEmployees now st).1.
Proof.
  intros Hsel Hr Hdate Hnew Hm.
  pose proof (distribute_keeps_history now st r Hr) as Hkept.
  apply (Hm r Hdate) in Hkept. revert Hkept.
  rewrite distribute_accepted by done. simpl.
  destruct (placements_rows now st) as (-> & _ & _).
  rewrite elem_of_app. unfold clearedDaily. rewrite list_elem_of_filter.
  tauto.
Qed.

(** C1 (the code departs from the claim). [distributeEmployees] deletes the
    rows of today from [daily_assignments] only, while [performMove]
    deletes from both tables. After a first run on [morningState] the two
    tables mirror each other; the second run of the same day places the
    other worker (the first run has raised the count of [e1] at [Plock]),
    and the row of the first run stays in [work_history] with no
    counterpart in [daily_assignments]: the mirror of the day is broken. *)
Theorem distribute_rerun_leaves_stale_history :
  MirrorOn (today exampleClock) firstRun ∧
  daily_assignments secondRun =
    [{| employee_id := "e2"; row_station := "Plock";
        row_date := 20000; row_lane := None |}] ∧
  staleRow ∈ work_history secondRun ∧
  staleRow ∉ daily_assignments secondRun ∧
  ¬ MirrorOn (today exampleClock) secondRun.
Proof.
  assert (staleRow ∈ work_history secondRun) as Hin
    by (apply (bool_decide_unpack _); by vm_compute).
  assert (staleRow ∉ daily_assignments secondRun) as Hout
    by (apply (bool_decide_unpack _); by vm_compute).
  split_and!; [|by vm_compute|done|done|].
  - apply distribute_first_run_MirrorOn; [done|].
    intros r Hr. by apply elem_of_nil in Hr.
  - intros Hm. apply Hout, (Hm staleRow); done.
Qed.

(** ** The history index and the overuse evaluation *)

Lemma countRows_lookup data (m : gmap string Z) s :
  default 0 (foldl countRow m data !! s) =
  default 0 (m !! s) +
  Z.of_nat (length (filter (λ r, row_station r = s) data)).
Proof.
  revert m. induction data as [|r data IH]; intros m; simpl; [lia|].
  rewrite IH, filter_cons. unfold countRow.
  destruct (decide (row_station r = s)) as [->|Hne].
  - rewrite lookup_insert_eq. simpl. lia.
  - by rewrite lookup_insert_ne.
Qed.

Lemma countRows_pos data (m : gmap string Z) :
  map_Forall (λ _ v, 0 < v) m → map_Forall (λ _ v, 0 < v) (foldl countRow m data).
Proof.
  revert m. induction data as [|r data IH]; intros m Hm; simpl; [done|].
  apply IH. unfold countRow. apply map_Forall_insert_2; [|done].
  destruct (m !! row_station r) as [v|] eqn:E; simpl; [|lia].
  specialize (Hm _ _ E). simpl in Hm. lia.
Qed.

(** [getEmployeeHistory] counts, per station, the rows of the worker in the
    window; a station without such a row has no entry. *)
Lemma getEmployeeHistory_count table since w s :
  stationCountOf (getEmployeeHistory table since w) s =
  Z.of_nat (length (filter (λ r, row_station r = s)
                      (filter (λ r, employee_id r = w ∧ since ≤ row_date r)
                         table))).
Proof.
  unfold stationCountOf, getEmployeeHistory.
  change (foldl _ ∅ ?d) with (foldl countRow ∅ d).
  by rewrite countRows_lookup, lookup_empty.
Qed.

Lemma getEmployeeHistory_pos table since w :
  map_Forall (λ _ v, 0 < v) (getEmployeeHistory table since w).
Proof. apply countRows_pos, map_Forall_empty. Qed.

Lemma foldl_add_Zsum l a : foldl Z.add a l = a + Zsum l.
Proof.
  revert a. induction l as [|x l IH]; intros a; simpl; [lia|].
  rewrite IH. lia.
Qed.

Lemma filter_all {A} (P : A → Prop) `{∀ x, Decision (P x)} (l : list A) :
  Forall P l → filter P l = l.
Proof.
  induction 1 as [|x l Hx _ IH]; [done|].
  by rewrite filter_cons_True, IH.
Qed.

(** On a map without zero entry, the quotient of the code is the mean of
    the claim. *)
Lemma avgCountOf_meanOf (history : gmap string Z) :
  map_Forall (λ _ v, v ≠ 0) history →
  avgCountOf history = meanOf (visitedEntries history).
Proof.
  intros Hnz. unfold avgCountOf, visitedEntries.
  rewrite filter_all.
  2:{ apply Forall_fmap. apply map_Forall_to_list in Hnz.
      eapply Forall_impl; [exact Hnz|]. by intros [k v]. }
  rewrite foldl_add_Zsum, Z.add_0_l, !length_fmap.
  rewrite <- (length_fmap snd (map_to_list history)).
  by destruct ((map_to_list history).*2).
Qed.

Lemma overuseWarn_specWarn (history : gmap string Z) toStation :
  map_Forall (λ _ v, v ≠ 0) history →
  overuseWarn history toStation = true ↔ specWarn history toStation.
Proof.
  intros Hnz. unfold overuseWarn, specWarn, stationCountOf.
  rewrite andb_true_iff, !bool_decide_eq_true, avgCountOf_meanOf by done.
  by rewrite Qmult_comm.
Qed.

(** The component writes rows at stations of [STATIONS] only: a run writes
    them at the stations it fills, and a move at the station dropped on,
    which is the station of a card. *)
Lemma rows_at_STATIONS_kept now st toStation toLane :
  Forall (λ r, row_station r ∈ STATIONS) (work_history st) →
  Forall (λ r, row_station r ∈ STATIONS)
    (work_history (distributeEmployees now st).1) ∧
  (toStation ∈ STATIONS →
   Forall (λ r, row_station r ∈ STATIONS)
     (work_history (performMove now st toStation toLane).1) ∧
   Forall (λ r, row_station r ∈ STATIONS)
     (work_history (handleDrop now st toStation toLane).1)).
Proof.
  intros Hst. split.
  - destruct (decide (selectedEmployees st = [])) as [He|Hne].
    { by rewrite distribute_rejected. }
    rewrite distribute_accepted by done. simpl.
    destruct (placements_rows now st) as (_ & -> & Hall).
    apply Forall_app. split; [done|].
    apply Forall_fmap. eapply Forall_impl; [exact Hall|]. simpl.
    intros a (Hs & _). by apply elem_of_sortedStations in Hs as (? & _).
  - intros Hto.
    assert (Forall (λ r, row_station r ∈ STATIONS)
              (work_history (performMove now st toStation toLane).1))
      as Hmove.
    { unfold performMove. destruct (draggedEmployee st) as [d|]; [|done].
      simpl. apply Forall_app. split.
      - apply Forall_forall. intros r [_ Hr]%list_elem_of_filter.
        by apply (proj1 (Forall_forall _ _) Hst).
      - by constructor. }
    split; [done|].
    destruct (handleDrop_cases now st toStation toLane) as [->|(_ & _ & ->)];
      done.
Qed.

(** C2. For every content of [work_history] whose rows of the worker in the
    window are at stations of [STATIONS], and every target station: the
    history map of the worker has an entry exactly for the stations with
    such a row, the number of these rows; and the check of [handleDrop] on
    that map warns exactly when [count > 1.5 * avg] and [count > 5], where
    [count] is the entry of the target station (0 when absent) and [avg] is
    the mean of the entries of the stations with a non-zero visit count, 0
    when there is none. (The quotient is taken in [Q].) *)
Theorem overuse_warns_iff (table : list Row) (since : date)
    (worker toStation : string) :
  let data :=
    filter (λ r, employee_id r = worker ∧ since ≤ row_date r) table in
  Forall (λ r, row_station r ∈ STATIONS) data →
  let history := getEmployeeHistory table since worker in
  let count := default 0 (history !! toStation) in
  let avg := meanOf (visitedEntries history) in
  (∀ s v, history !! s = Some v →
          s ∈ STATIONS ∧ 0 < v ∧
          v = Z.of_nat (length (filter (λ r, row_station r = s) data))) ∧
  (overuseWarn history toStation = true ↔
   (1.5 * avg < inject_Z count)%Q ∧ 5 < count).
Proof.
  intros data Hst history count avg. split.
  - intros s v Hv.
    assert (0 < v) as Hpos
      by (by apply (getEmployeeHistory_pos table since worker s v)).
    assert (v = Z.of_nat (length (filter (λ r, row_station r = s) data)))
      as Hcount.
    { pose proof (getEmployeeHistory_count table since worker s) as Hc.
      unfold stationCountOf in Hc. fold history in Hc. by rewrite Hv in Hc. }
    split_and!; [|done|done].
    destruct (filter (λ r, row_station r = s) data) as [|r rest] eqn:Hf.
    { simpl in Hcount. lia. }
    assert (r ∈ filter (λ r, row_station r = s) data) as Hr
      by (rewrite Hf; left).
    apply list_elem_of_filter in Hr as [<- Hr].
    by apply (proj1 (Forall_forall _ _) Hst).
  - apply overuseWarn_specWarn.
    eapply map_Forall_impl; [apply getEmployeeHistory_pos|].
    simpl. intros _ v. lia.
Qed.

(** C10. A history map with the single entry [s: n], [n] positive, never
    warns for a move to [s]: the count and the average are both [n], and
    [n > 1.5 * n] fails. [handleDrop] then runs the move without opening
    the warning dialog. *)
Theorem single_station_never_warns (s : string) (n : Z) :
  0 < n →
  overuseWarn {[ s := n ]} s = false ∧
  avgCountOf {[ s := n ]} == inject_Z n ∧
  stationCountOf {[ s := n ]} s = n ∧
  ∀ now st d toLane,
    draggedEmployee st = Some d →
    ¬ (station d = s ∧ lane d = toLane) →
    getEmployeeHistory (work_history st) (sixMonthsAgo now) (employeeId d)
      = {[ s := n ]} →
    handleDrop now st s toLane = performMove now st s toLane.
Proof.
  intros Hn.
  assert (stationCountOf {[ s := n ]} s = n) as Hcount.
  { unfold stationCountOf. by rewrite lookup_singleton_eq. }
  assert (avgCountOf {[ s := n ]} == inject_Z n) as Havg.
  { unfold avgCountOf. rewrite map_to_list_singleton. simpl.
    unfold Qeq. simpl. lia. }
  assert (overuseWarn {[ s := n ]} s = false) as Hwarn.
  { unfold overuseWarn. rewrite Hcount.
    apply andb_false_iff. left. apply bool_decide_eq_false.
    rewrite Havg. unfold Qlt. simpl. lia. }
  split_and!; try done.
  intros now st d toLane Hd Hplace Hh. unfold handleDrop.
  rewrite Hd, decide_False, Hh, Hwarn by done. done.
Qed.

Example overuse_example :
  let history : gmap string Z := {[ "A" := 10; "B" := 2; "C" := 1 ]} in
  avgCountOf history == 13 # 3 ∧
  overuseWarn history "A" = true ∧ overuseWarn history "B" = false.
Proof. by vm_compute. Qed.

(** ** The rotation guard *)

Lemma canAssignToStation_false employeeId station lastStationsMap :
  canAssignToStation employeeId station lastStationsMap = false ↔
  lastStationsMap !! employeeId = Some (Some station).
Proof.
  unfold canAssignToStation.
  destruct (lastStationsMap !! employeeId) as [[last|]|]; [|done|done].
  rewrite bool_decide_eq_false. split.
  - intros Hnn. f_equal. f_equal. by destruct (decide (last = station)).
  - intros [= ->]. tauto.
Qed.

(** C3, as stated, fails: [e1], whose last station is [Pack], is dropped on
    [Pack]; the rotation predicate is false, and [handleDrop] applies the
    move all the same. *)
Lemma handleDrop_rotation_counterexample :
  canAssignToStation "e1" "Pack" lastStations = false ∧
  assignments (handleDrop exampleClock dragState "Pack" None).1 =
    [movedEntry atPlock "Pack" None] ∧
  daily_assignments (handleDrop exampleClock dragState "Pack" None).1 =
    [{| employee_id := "e1"; row_station := "Pack";
        row_date := 20000; row_lane := None |}].
Proof. by vm_compute. Qed.

(** C3, amended. On a drop, [handleDrop] consults the place the worker is
    dragged from and the overuse evaluation, and nothing else: when a worker
    is being dragged, the destination differs from that place and the
    evaluation does not warn, the move is applied -- the entry of the worker
    at the destination is in the new [assignments] state and its row in
    [daily_assignments] -- whatever map of last stations one takes, and
    also when [canAssignToStation] is false for it; when the evaluation
    warns, the move is held and confirming it applies it.
    [canAssignToStation] itself is false exactly when the last station of
    the worker is the candidate. *)
Theorem handleDrop_not_guarded_by_rotation (now : Clock) (st : State)
    (d : Assignment) (toStation : string) (toLane : option Z)
    (lastStationsMap : gmap string (option string)) :
  draggedEmployee st = Some d →
  ¬ (station d = toStation ∧ lane d = toLane) →
  let history :=
    getEmployeeHistory (work_history st) (sixMonthsAgo now) (employeeId d) in
  (canAssignToStation (employeeId d) toStation lastStationsMap = false ↔
   lastStationsMap !! employeeId d = Some (Some toStation)) ∧
  (overuseWarn history toStation = false →
   handleDrop now st toStation toLane = performMove now st toStation toLane ∧
   movedEntry d toStation toLane ∈
     assignments (handleDrop now st toStation toLane).1 ∧
   movedRow now d toStation toLane ∈
     daily_assignments (handleDrop now st toStation toLane).1) ∧
  (overuseWarn history toStation = true →
   let held := (handleDrop now st toStation toLane).1 in
   assignments held = assignments st ∧
   confirmWarning now held = performMove now st toStation toLane).
Proof.
  intros Hd Hplace history. split_and!.
  - apply canAssignToStation_false.
  - intros Hok.
    assert (handleDrop now st toStation toLane =
            performMove now st toStation toLane) as ->.
    { unfold handleDrop. rewrite Hd, decide_False by done.
      fold history. by rewrite Hok. }
    split; [done|]. unfold performMove. rewrite Hd. simpl.
    split; apply elem_of_app; right; apply list_elem_of_singleton; done.
  - intros Hwarn held. subst held. unfold handleDrop.
    rewrite Hd, decide_False by done. fold history. rewrite Hwarn. simpl.
    split; [done|]. unfold confirmWarning, performMove. simpl. by rewrite Hd.
Qed.

Lemma addExact_table : addExactUpTo 256 = true.
Proof. vm_cast_no_check (eq_refl true). Qed.

Lemma agree_table : agreeUpTo 256 16 = true.
Proof. vm_cast_no_check (eq_refl true). Qed.

Lemma forallb_seq (f : nat → bool) (start len i : nat) :
  forallb f (seq start len) = true → (start ≤ i < start + len)%nat →
  f i = true.
Proof.
  intros Hall Hi. apply (proj1 (forallb_forall _ _) Hall). apply in_seq. lia.
Qed.

Lemma forallb_countsUpTo (g : Z * spec_float → bool) (bound : nat) c :
  forallb g (countsUpTo bound) = true → 0 ≤ c ≤ Z.of_nat bound →
  g (c, b64_of_Z c) = true.
Proof.
  intros Hall Hc. apply (proj1 (forallb_forall _ _) Hall).
  apply list_elem_of_In, list_elem_of_fmap. exists (Z.to_nat c).
  rewrite Z2Nat.id by lia. split; [done|].
  apply list_elem_of_In, in_seq. lia.
Qed.

Lemma take_countsUpTo (bound n : nat) :
  (n ≤ bound)%nat → take (S n) (countsUpTo bound) = countsUpTo n.
Proof.
  intros Hn. unfold countsUpTo. rewrite <- fmap_take, take_seq.
  by rewrite Nat.min_l by lia.
Qed.

Lemma countsUpTo_lookup (bound i : nat) :
  (i ≤ bound)%nat →
  snd <$> countsUpTo bound !! i = Some (b64_of_Z (Z.of_nat i)).
Proof.
  intros Hi. unfold countsUpTo. rewrite list_lookup_fmap.
  rewrite lookup_seq_lt by lia. done.
Qed.

Lemma warnCore_warnZ count total keys :
  1 ≤ keys → warnCore count total keys = warnZ count total keys.
Proof.
  intros Hk. unfold warnCore, warnZ.
  destruct keys as [|p|p]; try lia.
  f_equal.
  - destruct (Z.ltb_spec (3 * total) (2 * count * Z.pos p)).
    + apply bool_decide_eq_true. unfold Qlt. simpl. lia.
    + apply bool_decide_eq_false. unfold Qlt. simpl. lia.
  - destruct (Z.ltb_spec 5 count).
    + by apply bool_decide_eq_true.
    + apply bool_decide_eq_false. lia.
Qed.

Lemma addExactUpTo_spec (bound : nat) a b :
  addExactUpTo bound = true →
  0 ≤ a → 0 ≤ b → a + b ≤ Z.of_nat bound →
  SFadd 53 1024 (b64_of_Z a) (b64_of_Z b) = b64_of_Z (a + b).
Proof.
  intros Ht Ha Hb Hab. unfold addExactUpTo in Ht. cbv zeta in Ht.
  apply (forallb_seq _ _ _ (Z.to_nat a)) in Ht; [|lia].
  cbv beta in Ht. rewrite take_countsUpTo in Ht by lia.
  apply (forallb_countsUpTo _ _ b) in Ht; [|lia].
  apply bool_decide_eq_true in Ht.
  rewrite countsUpTo_lookup in Ht by lia.
  rewrite Nat2Z.inj_add, !Z2Nat.id in Ht by lia. by injection Ht.
Qed.

Lemma agreeUpTo_spec (bound stations : nat) count total keys :
  agreeUpTo bound stations = true →
  0 ≤ count ≤ total → total ≤ Z.of_nat bound →
  1 ≤ keys ≤ Z.of_nat stations →
  SFltb (threshold64 (b64_of_Z total) (b64_of_Z keys)) (b64_of_Z count) &&
  SFltb (b64_of_Z 5) (b64_of_Z count) = warnCore count total keys.
Proof.
  intros Htab Hc Ht Hk. unfold agreeUpTo in Htab. cbv zeta in Htab.
  apply (forallb_seq _ _ _ (Z.to_nat total)) in Htab; [|lia].
  apply (forallb_seq _ _ _ (Z.to_nat keys)) in Htab; [|lia].
  rewrite take_countsUpTo in Htab by lia.
  apply (forallb_countsUpTo _ _ count) in Htab; [|lia].
  rewrite !Z2Nat.id in Htab by lia.
  rewrite warnCore_warnZ by lia. by apply Bool.eqb_prop.
Qed.

Lemma SFadd_exact a b :
  0 ≤ a → 0 ≤ b → a + b ≤ 256 →
  SFadd 53 1024 (b64_of_Z a) (b64_of_Z b) = b64_of_Z (a + b).
Proof.
  intros Ha Hb Hab.
  apply (addExactUpTo_spec 256 a b addExact_table Ha Hb). lia.
Qed.

Lemma sum64_exact l a :
  Forall (λ v, 0 ≤ v) l → 0 ≤ a → a + Zsum l ≤ 256 →
  foldl (SFadd 53 1024) (b64_of_Z a) (b64_of_Z <$> l) = b64_of_Z (a + Zsum l).
Proof.
  intros Hl. revert a. induction Hl as [|v l Hv Hl IH]; intros a Ha Hsum; simpl in *.
  - by rewrite Z.add_0_r.
  - assert (0 ≤ Zsum l).
    { clear -Hl. induction Hl; simpl; lia. }
    rewrite SFadd_exact by lia. rewrite IH by lia. f_equal. lia.
Qed.

Lemma warn64_agrees count total keys :
  0 ≤ count ≤ total → total ≤ 256 → 1 ≤ keys ≤ 16 →
  SFltb (threshold64 (b64_of_Z total) (b64_of_Z keys)) (b64_of_Z count) &&
  SFltb (b64_of_Z 5) (b64_of_Z count) = warnCore count total keys.
Proof.
  intros Hc Ht Hk.
  apply (agreeUpTo_spec 256 16 count total keys agree_table Hc); lia.
Qed.

Lemma entry_le_Zsum (l : list Z) v :
  Forall (λ v, 0 ≤ v) l → v ∈ l → v ≤ Zsum l.
Proof.
  induction 1 as [|x l Hx Hl IH]; intros Hv; [by apply elem_of_nil in Hv|].
  assert (0 ≤ Zsum l) by (clear -Hl; induction Hl; simpl; lia).
  simpl. apply elem_of_cons in Hv as [->|Hv]; [lia|]. specialize (IH Hv). lia.
Qed.

(** On every history map of at most 16 stations and 256 visits in all, the
    check computed in binary64 gives the answer of the check computed with
    the exact quotient. *)
Lemma overuseWarn64_agrees (history : gmap string Z) toStation :
  map_Forall (λ _ v, 0 < v) history →
  (size history ≤ 16)%nat →
  Zsum (map_to_list history).*2 ≤ 256 →
  overuseWarn64 history toStation = overuseWarn history toStation.
Proof.
  intros Hpos Hsize Hsum.
  assert (Forall (λ v, 0 ≤ v) (map_to_list history).*2) as Hnn.
  { apply Forall_fmap. apply map_Forall_to_list in Hpos.
    eapply Forall_impl; [exact Hpos|]. intros [k v]. simpl. lia. }
  assert (0 ≤ stationCountOf history toStation ≤ Zsum (map_to_list history).*2)
    as Hcount.
  { unfold stationCountOf. destruct (history !! toStation) as [v|] eqn:E; simpl.
    - split; [specialize (Hpos _ _ E); simpl in Hpos; lia|].
      apply entry_le_Zsum; [done|].
      apply list_elem_of_fmap. exists (toStation, v). split; [done|].
      by apply elem_of_map_to_list.
    - split; [done|]. clear -Hnn. induction Hnn; simpl; lia. }
  unfold overuseWarn64, overuseWarn, avgCountOf.
  rewrite sum64_exact, foldl_add_Zsum, !Z.add_0_l by (done || lia).
  rewrite !length_fmap, length_map_to_list.
  destruct (decide (size history = 0%nat)) as [Hempty|Hne].
  - apply map_size_empty_inv in Hempty. subst history.
    unfold stationCountOf. rewrite lookup_empty, map_to_list_empty. by vm_compute.
  - rewrite warn64_agrees by lia. done.
Qed.

(** ** The claims at concrete inputs *)

Lemma handleDrop_not_guarded_by_rotation_witness :
  movedEntry atPlock "Pack" None ∈
    assignments (handleDrop exampleClock dragState "Pack" None).1.
Proof.
  destruct (handleDrop_not_guarded_by_rotation exampleClock dragState atPlock
              "Pack" None lastStations) as (_ & Hok & _).
  - reflexivity.
  - intros [Hs _]. discriminate Hs.
  - apply Hok. vm_compute. reflexivity.
Defined.

Lemma fillStation_takes_least_visited_witness :
  newAssignments
    (fillStation exampleClock exampleRoster {[ "Plock" := 1 ]}
       (fetchHistories exampleClock morningState)
       {| newAssignments := []; assignedEmployees := ∅;
          l_daily_assignments := []; l_work_history := [] |} "Plock") =
  [atPlock].
Proof.
  destruct (fillStation_takes_least_visited exampleClock exampleRoster
              {[ "Plock" := 1 ]} (fetchHistories exampleClock morningState)
              {| newAssignments := []; assignedEmployees := ∅;
                 l_daily_assignments := []; l_work_history := [] |} "Plock")
    as (_ & _ & _ & _ & Hpush & _).
  - vm_compute. left.
  - exact Hpush.
Defined.

Lemma overuse_warns_iff_witness :
  overuseWarn
    (getEmployeeHistory (work_history overusedState) 19816 "e1") "Pack" =
  true.
Proof.
  destruct (overuse_warns_iff (work_history overusedState) 19816 "e1" "Pack")
    as [_ [_ Hwarn]].
  - apply (bool_decide_unpack _). vm_compute. exact I.
  - apply Hwarn. split; [vm_compute; reflexivity|vm_compute; reflexivity].
Defined.


Lemma dragState_AssignmentInv : AssignmentInv dragState.
Proof.
  split.
  - apply (bool_decide_unpack _). by vm_compute.
  - intros d. simpl. rewrite filter_cons, filter_nil.
    case_decide; simpl; [apply NoDup_singleton|apply NoDup_nil_2].
Qed.

Lemma morningState_AssignmentInv : AssignmentInv morningState.
Proof. split; [apply NoDup_nil_2|intros d; apply NoDup_nil_2]. Qed.

Lemma at_most_one_assignment_witness :
  AssignmentInv (distributeEmployees exampleClock morningState).1 ∧
  AssignmentInv (handleDrop exampleClock dragState "Pack" None).1.
Proof.
  split.
  - destruct (at_most_one_assignment exampleClock morningState)
      as (_ & Hrun & _).
    destruct Hrun as [_ Hinv].
    + apply (bool_decide_unpack _). vm_compute. exact I.
    + apply Hinv, morningState_AssignmentInv.
  - destruct (at_most_one_assignment exampleClock dragState)
      as (_ & _ & Hmove).
    destruct (Hmove atPlock "Pack" None) as [_ Hdrop].
    + reflexivity.
    + apply (bool_decide_unpack _). vm_compute. exact I.
    + intros r Hr _ _. apply list_elem_of_singleton in Hr. by subst r.
    + apply dragState_AssignmentInv.
    + exact Hdrop.
Defined.

Lemma distribute_within_need_witness :
  Z.of_nat (placedAt "Plock" (placements exampleClock morningState)) ≤ 1.
Proof.
  destruct (distribute_within_need exampleClock morningState "Plock")
    as (Hle & _ & _).
  - discriminate.
  - exact Hle.
Defined.

Lemma distribute_empty_selection_rejected_witness :
  distributeEmployees exampleClock idleState = (idleState, Some IngenVald).
Proof.
  apply (distribute_empty_selection_rejected exampleClock idleState).
  reflexivity.
Defined.

Lemma distribute_deterministic_witness :
  assignments (distributeEmployees exampleClock morningState).1 =
  assignments (distributeEmployees laterClock otherMorning).1.
Proof.
  destruct (distribute_deterministic exampleClock laterClock morningState
              otherMorning) as (_ & Hsnap & _).
  - reflexivity.
  - reflexivity.
  - intros w Hw. vm_compute in Hw.
    apply elem_of_cons in Hw as [->|Hw]; [vm_compute; reflexivity|].
    apply list_elem_of_singleton in Hw as ->. vm_compute. reflexivity.
  - reflexivity.
  - destruct Hsnap as [_ Hfull]; [discriminate|].
    apply Hfull. reflexivity.
Defined.

Lemma single_station_never_warns_witness :
  overuseWarn {[ "Pack" := 40 ]} "Pack" = false.
Proof.
  destruct (single_station_never_warns "Pack" 40) as (Hwarn & _).
  - lia.
  - exact Hwarn.
Defined.

(** * Further properties of the component *)

(** ** The history index *)

Lemma countRows_None data (m : gmap string Z) s :
  foldl countRow m data !! s = None ↔
  m !! s = None ∧ filter (λ r, row_station r = s) data = [].
Proof.
  revert m. induction data as [|r data IH]; intros m; simpl.
  - by rewrite filter_nil; intuition.
  - rewrite IH, filter_cons. unfold countRow.
    destruct (decide (row_station r = s)) as [->|Hne].
    + rewrite lookup_insert_eq. split; [by intros [? _]|by intros [_ ?]].
    + by rewrite lookup_insert_ne.
Qed.

(** X1. When the rows of the worker dated on or after the start of the
    window are at stations of [STATIONS], the entry of a station of
    [STATIONS] in the map of [getEmployeeHistory] is the number of these
    rows at that station, whatever else the table holds; the station has
    no entry at all exactly when there is no such row. *)
Theorem history_entry_counts_rows (table : list Row) (since : date)
    (w s : string) :
  let data :=
    filter (λ r, employee_id r = w ∧ since ≤ row_date r) table in
  Forall (λ r, row_station r ∈ STATIONS) data →
  s ∈ STATIONS →
  let history := getEmployeeHistory table since w in
  let visits :=
    filter (λ r, employee_id r = w ∧ since ≤ row_date r ∧ row_station r = s)
      table in
  stationCountOf history s = Z.of_nat (length visits) ∧
  (history !! s = None ↔ visits = []).
Proof.
  intros data _ _ history visits.
  assert (visits =
          filter (λ r, row_station r = s)
            (filter (λ r, employee_id r = w ∧ since ≤ row_date r) table)) as ->.
  { unfold visits. rewrite list_filter_filter.
    apply list_filter_iff. intros r. tauto. }
  split.
  - apply getEmployeeHistory_count.
  - unfold history, getEmployeeHistory.
    change (foldl _ ∅ ?d) with (foldl countRow ∅ d).
    rewrite countRows_None, lookup_empty. tauto.
Qed.

(** ** What a run of the planner writes *)

Section RunFacts.

Context (now : Clock) (roster : list Employee) (needs : gmap string Z).

Context (employeeHistories : list EmployeeHistory).

Local Abbreviation plan := (planFrom now roster needs employeeHistories).

Local Abbreviation taken := (takenFor needs employeeHistories).

(** Every entry the loop pushes is the entry of a selected worker at one
    of the stations. *)
Lemma planFrom_added ss l :
  ∃ added,
    newAssignments (plan l ss) = newAssignments l ++ added ∧
    Forall (λ a, ∃ s e, s ∈ ss ∧ e ∈ employeeHistories ∧
                        a = entryOf roster s e) added.
Proof.
  revert l. induction ss as [|s ss IH]; intros l.
  - exists []. simpl. by rewrite app_nil_r.
  - rewrite planFrom_cons.
    destruct (IH (placeAll now roster s (taken (assignedEmployees l) s) l))
      as (added & Hn & Hall).
    exists ((entryOf roster s <$> taken (assignedEmployees l) s) ++ added).
    rewrite Hn. simpl. rewrite <- app_assoc. split; [done|].
    apply Forall_app. split.
    + apply Forall_fmap, Forall_forall. intros e He. simpl.
      exists s, e. split_and!; [left| |done].
      by apply takenFor_elem in He as [? _].
    + eapply Forall_impl; [exact Hall|]. simpl.
      intros a (s' & e & ? & ? & ?). exists s', e. split_and!; [by right|done|done].
Qed.

Local Abbreviation Shared := (Shared employeeHistories).

Local Abbreviation placesOf := (placesOf needs).

Lemma filter_out_taken {A B} `{EqDecision B} (f : A → B) (t l : list A) :
  NoDup (f <$> l) → t ⊆+ l →
  (length (filter (λ x, f x ∉ f <$> t) l) + length t = length l)%nat.
Proof.
  intros Hnd [k Hk]%submseteq_Permutation.
  rewrite Hk in Hnd. rewrite fmap_app in Hnd.
  apply NoDup_app in Hnd as (_ & Hdisj & _).
  rewrite Hk, filter_app, !length_app.
  rewrite filter_none.
  2:{ intros x Hx Hn. apply Hn. by apply list_elem_of_fmap_2. }
  rewrite filter_all; [simpl; lia|].
  apply Forall_forall. intros x Hx Hin. eapply Hdisj; [exact Hin|].
  by apply list_elem_of_fmap_2.
Qed.

Lemma Shared_placeAll s l :
  NoDup (eh_id <$> employeeHistories) → Shared l →
  Shared (placeAll now roster s (taken (assignedEmployees l) s) l).
Proof.
  intros Hnd Hsh. unfold Shared in *. simpl.
  rewrite length_app, length_fmap.
  assert (poolOf employeeHistories
            (assignedEmployees l ∪
             list_to_set (eh_id <$> taken (assignedEmployees l) s)) =
          filter (λ e, eh_id e ∉ eh_id <$> taken (assignedEmployees l) s)
            (poolOf employeeHistories (assignedEmployees l))) as ->.
  { unfold poolOf. rewrite list_filter_filter. apply list_filter_iff.
    intros e. rewrite not_elem_of_union, elem_of_list_to_set. tauto. }
  pose proof (filter_out_taken eh_id (taken (assignedEmployees l) s)
                (poolOf employeeHistories (assignedEmployees l))) as Hlen.
  rewrite <- Hsh. rewrite <- Hlen; [lia| |apply takenFor_submseteq].
  eapply NoDup_fmap_sublist; [apply sublist_filter|exact Hnd].
Qed.

Lemma planFrom_length ss l :
  NoDup (eh_id <$> employeeHistories) → Shared l →
  length (newAssignments (plan l ss)) =
  (length (newAssignments l) +
   Nat.min (placesOf ss)
     (length (poolOf employeeHistories (assignedEmployees l))))%nat.
Proof.
  intros Hnd. revert l. induction ss as [|s ss IH]; intros l Hsh.
  - simpl. lia.
  - rewrite planFrom_cons.
    pose proof (Shared_placeAll s l Hnd Hsh) as Hsh'.
    rewrite (IH _ Hsh'). unfold Shared in Hsh, Hsh'. simpl in *.
    rewrite length_app, length_fmap in *.
    rewrite takenFor_length in *. lia.
Qed.

End RunFacts.

Lemma placements_entries now st :
  Forall (λ a, ∃ s e, s ∈ sortedStations (stationNeeds st) ∧
                      e ∈ fetchHistories now st ∧
                      a = entryOf (employees st) s e) (placements now st).
Proof.
  unfold placements. rewrite runLoop_planFrom.
  destruct (planFrom_added now (employees st) (stationNeeds st)
              (fetchHistories now st) (sortedStations (stationNeeds st))
              {| newAssignments := []; assignedEmployees := ∅;
                 l_daily_assignments := clearedDaily now st;
                 l_work_history := work_history st |})
    as (added & Hn & Hall).
  simpl in Hn. by rewrite Hn.
Qed.

(** ** The free text of [FL] *)

Lemma ascii_of_eqb (c : ascii) (k : nat) :
  (nat_of_ascii c =? k)%nat = true → c = ascii_of_nat k.
Proof. intros <-%Nat.eqb_eq. by rewrite ascii_nat_embedding. Qed.

Lemma Blank_cons w s : w ∈ whiteSpace → Blank s → Blank (w +:+ s).
Proof.
  intros Hw (ws & Hws & ->). exists (w :: ws). split; [by constructor|done].
Qed.

Lemma isSpace_whiteSpace c :
  isSpace c = true → String c "" ∈ whiteSpace.
Proof.
  unfold isSpace. intros Hc.
  assert (nat_of_ascii c ∈ [9; 10; 11; 12; 13; 32]%nat) as Hn.
  { apply orb_true_iff in Hc as [Hc|Hc].
    - apply Nat.eqb_eq in Hc. rewrite Hc. set_solver.
    - apply andb_true_iff in Hc as [H1%Nat.leb_le H2%Nat.leb_le].
      assert (nat_of_ascii c = 9 ∨ nat_of_ascii c = 10 ∨ nat_of_ascii c = 11 ∨
              nat_of_ascii c = 12 ∨ nat_of_ascii c = 13)%nat as Hd by lia.
      destruct Hd as [->|[->|[->|[->| ->]]]]; set_solver. }
  rewrite <- (ascii_nat_embedding c).
  repeat (apply elem_of_cons in Hn as [->|Hn];
          [apply (bool_decide_unpack _); vm_compute; exact I|]).
  by apply elem_of_nil in Hn.
Qed.

Lemma isSpace2_whiteSpace c1 c2 :
  isSpace2 c1 c2 = true → String c1 (String c2 "") ∈ whiteSpace.
Proof.
  unfold isSpace2. intros [H1 H2]%andb_true_iff.
  apply ascii_of_eqb in H1 as ->. apply ascii_of_eqb in H2 as ->.
  apply (bool_decide_unpack _). vm_compute. exact I.
Qed.

Lemma isSpace3_whiteSpace c1 c2 c3 :
  isSpace3 c1 c2 c3 = true → String c1 (String c2 (String c3 "")) ∈ whiteSpace.
Proof.
  unfold isSpace3. intros Hc.
  assert ([nat_of_ascii c1; nat_of_ascii c2; nat_of_ascii c3] ∈
          ([[225; 154; 128]] ++ ((λ n, [226; 128; n]) <$> seq 128 11) ++
           [[226; 128; 168]; [226; 128; 169]; [226; 128; 175];
            [226; 129; 159]; [227; 128; 128]; [239; 187; 191]])%nat) as Hn.
  { cbv zeta in Hc.
    repeat (rewrite orb_true_iff in Hc || rewrite andb_true_iff in Hc).
    rewrite !Nat.eqb_eq, !Nat.leb_le in Hc.
    destruct Hc as [[[[[[-> ->] ->]|[[-> ->] Hc]]|[[-> ->] ->]]
                      |[[-> ->] ->]]|[[-> ->] ->]];
      [set_solver| |set_solver|set_solver|set_solver].
    apply elem_of_app. right. apply elem_of_app.
    destruct Hc as [[[Hc| ->]| ->]| ->];
      [left|right; set_solver|right; set_solver|right; set_solver].
    apply list_elem_of_fmap. exists (nat_of_ascii c3). split; [done|].
    apply elem_of_seq. lia. }
  rewrite <- (ascii_nat_embedding c1), <- (ascii_nat_embedding c2),
    <- (ascii_nat_embedding c3).
  change (String (ascii_of_nat ?a) (String (ascii_of_nat ?b)
            (String (ascii_of_nat ?c) "")))
    with (bytes [a; b; c]).
  unfold whiteSpace. apply list_elem_of_fmap_2.
  apply elem_of_app in Hn as [Hn|Hn]; apply elem_of_app; [left|by right].
  apply list_elem_of_singleton in Hn. rewrite Hn. set_solver.
Qed.

Lemma trimTruthy_whiteSpace w s :
  w ∈ whiteSpace → trimTruthy (w +:+ s) = trimTruthy s.
Proof.
  intros Hw. unfold whiteSpace in Hw. simpl in Hw.
  repeat (apply elem_of_cons in Hw as [->|Hw]; [reflexivity|]).
  by apply elem_of_nil in Hw.
Qed.

Lemma trimTruthy_Blank (s : string) : trimTruthy s = false ↔ Blank s.
Proof.
  split.
  - remember (String.length s) as n eqn:Hn.
    assert (String.length s ≤ n)%nat as Hlen by lia. clear Hn.
    revert s Hlen. induction n as [|n IH]; intros s Hlen Hs.
    { destruct s; [|simpl in Hlen; lia]. by exists []. }
    destruct s as [|c1 s1]; [by exists []|].
    simpl in Hlen, Hs. destruct (isSpace c1) eqn:E1.
    { apply (Blank_cons (String c1 "")); [by apply isSpace_whiteSpace|].
      apply IH; [lia|done]. }
    destruct s1 as [|c2 s2]; [done|].
    simpl in Hlen. destruct (isSpace2 c1 c2) eqn:E2.
    { apply (Blank_cons (String c1 (String c2 "")));
        [by apply isSpace2_whiteSpace|].
      apply IH; [lia|done]. }
    destruct s2 as [|c3 s3]; [done|].
    simpl in Hlen. destruct (isSpace3 c1 c2 c3) eqn:E3; [|done].
    apply (Blank_cons (String c1 (String c2 (String c3 ""))));
      [by apply isSpace3_whiteSpace|].
    apply IH; [lia|done].
  - intros (ws & Hws & ->). induction Hws as [|w ws Hw _ IH]; [done|].
    simpl. by rewrite trimTruthy_whiteSpace.
Qed.

(** X2. After a run, every entry of the [assignments] state is either the
    free-text [FL] entry or the entry of a selected worker, under the name
    the roster gives (the empty name when the roster does not know the
    worker), with no lane, at a station of [STATIONS] other than [FL]
    whose need is positive. The [FL] entry is there when the text is not
    blank, that is holds a character that [trim] does not strip, and only
    then. *)
Theorem distribute_entries_wellformed (now : Clock) (st : State)
    (a : Assignment) :
  selectedEmployees st ≠ [] →
  (¬ Blank (flManual st) →
   manualEntry (flManual st) ∈ assignments (distributeEmployees now st).1) ∧
  (a ∈ assignments (distributeEmployees now st).1 →
   (a = manualEntry (flManual st) ∧ ¬ Blank (flManual st)) ∨
   (employeeId a ∈ selectedEmployees st ∧
    employeeName a = nameOf (employees st) (employeeId a) ∧
    lane a = None ∧
    station a ∈ STATIONS ∧ station a ≠ "FL" ∧
    0 < needOf (stationNeeds st) (station a))).
Proof.
  intros Hsel. rewrite distribute_accepted by done. simpl.
  unfold withManual.
  assert (a ∈ placements now st →
          employeeId a ∈ selectedEmployees st ∧
          employeeName a = nameOf (employees st) (employeeId a) ∧
          lane a = None ∧
          station a ∈ STATIONS ∧ station a ≠ "FL" ∧
          0 < needOf (stationNeeds st) (station a)) as Hplaced.
  { intros Hin.
    pose proof (proj1 (Forall_forall _ _) (placements_entries now st) a Hin)
      as (s & e & Hs & He & ->).
    apply elem_of_sortedStations in Hs as (? & ? & ?). simpl.
    split_and!; try done.
    rewrite <- (eh_id_fetchHistories now st). by apply list_elem_of_fmap_2. }
  pose proof (trimTruthy_Blank (flManual st)) as Hblank.
  destruct (trimTruthy (flManual st)).
  - split; [intros _; apply elem_of_app; right; left|].
    intros Ha.
    apply elem_of_app in Ha as [Ha|Ha]; [by right; apply Hplaced|].
    apply list_elem_of_singleton in Ha. left. split; [done|].
    intros Hb. by apply Hblank in Hb.
  - split; [|by right; apply Hplaced].
    intros Hb. exfalso. by apply Hb, Hblank.
Qed.

Lemma placesOf_perm needs ss1 ss2 :
  ss1 ≡ₚ ss2 → placesOf needs ss1 = placesOf needs ss2.
Proof.
  induction 1 as [|s ss1 ss2 _ IH|s1 s2 ss|ss1 ss2 ss3 _ IH1 _ IH2];
    simpl; lia.
Qed.

Lemma placesOf_positive needs ss :
  placesOf needs (filter (λ s, needOf needs s > 0) ss) = placesOf needs ss.
Proof.
  induction ss as [|s ss IH]; [done|].
  rewrite filter_cons. case_decide; simpl; rewrite IH; lia.
Qed.

(** X3. A run on a duplicate-free selection fills as many places as it
    can: the number of workers it places is the smaller of the number of
    selected workers and the total need of the stations other than [FL]
    (a need that is not positive counting for nothing), and that is the
    number the toast reports. When the selection is no larger than the
    total need, every selected worker is placed. *)
Theorem distribute_fills_what_it_can (now : Clock) (st : State) :
  selectedEmployees st ≠ [] → NoDup (selectedEmployees st) →
  let places :=
    placesOf (stationNeeds st) (filter (λ s, s ≠ "FL") STATIONS) in
  let placed := Nat.min places (length (selectedEmployees st)) in
  length (placements now st) = placed ∧
  (distributeEmployees now st).2 = Some (FordelningKlar placed) ∧
  ((length (selectedEmployees st) ≤ places)%nat →
   ∀ w, w ∈ selectedEmployees st → w ∈ employeeId <$> placements now st).
Proof.
  intros Hsel Hnd places placed.
  assert (NoDup (eh_id <$> fetchHistories now st)) as Hnd'
    by (by rewrite eh_id_fetchHistories).
  assert (length (placements now st) = placed) as Hlen.
  { unfold placements. rewrite runLoop_planFrom.
    rewrite planFrom_length; [|done|].
    - simpl. unfold poolOf. rewrite filter_all.
      2:{ apply Forall_forall. intros e _. apply not_elem_of_empty. }
      rewrite <- (length_fmap eh_id), eh_id_fetchHistories.
      unfold placed, places. f_equal.
      unfold sortedStations, sortedStationsOf.
      rewrite (placesOf_perm _ _ _ (sort_perm _ _)).
      apply placesOf_positive.
    - unfold Shared, poolOf. simpl. rewrite filter_all; [lia|].
      apply Forall_forall. intros e _. apply not_elem_of_empty. }
  assert (size (assignedEmployees (runLoop now st)) = length (placements now st))
    as Hsize.
  { assert (assignedEmployees (runLoop now st) =
            list_to_set (employeeId <$> placements now st)) as ->.
    { apply set_eq. intros i. rewrite elem_of_list_to_set.
      unfold placements. rewrite runLoop_planFrom.
      apply Tracked_planFrom, Tracked_init. }
    rewrite size_list_to_set by (by apply placements_NoDup).
    by rewrite length_fmap. }
  split_and!; [done| |].
  - rewrite distribute_accepted by done. simpl. by rewrite Hsize, Hlen.
  - intros Hle w Hw.
    assert (employeeId <$> placements now st ≡ₚ selectedEmployees st) as Hperm.
    { apply submseteq_length_Permutation.
      - apply NoDup_submseteq; [by apply placements_NoDup|].
        intros i [a [-> Ha]]%list_elem_of_fmap.
        pose proof (proj1 (Forall_forall _ _) (placements_entries now st) a Ha)
          as (s & e & _ & He & ->). simpl.
        rewrite <- (eh_id_fetchHistories now st). by apply list_elem_of_fmap_2.
      - rewrite length_fmap, Hlen. unfold placed. lia. }
    by rewrite Hperm.
Qed.

Lemma distribute_today_rows now st :
  selectedEmployees st ≠ [] →
  filter (λ r, row_date r = today now)
    (daily_assignments (distributeEmployees now st).1) =
  rowOfAssignment now <$> placements now st.
Proof.
  intros Hsel. rewrite distribute_accepted by done. simpl.
  destruct (placements_rows now st) as (-> & _ & _).
  rewrite filter_app. unfold clearedDaily.
  rewrite (filter_all _ (rowOfAssignment now <$> placements now st)).
  - rewrite filter_none; [done|].
    intros r [Hr _]%list_elem_of_filter ?. done.
  - apply Forall_fmap, Forall_forall. by intros a _.
Qed.

(** X4. The tables after a run: the rows of today of [daily_assignments]
    are replaced by one row per placement, in the order of the placements;
    the rows of the other days stay; the same rows are appended to
    [work_history], from which nothing is deleted. No row is written for
    the free-text [FL] entry. *)
Theorem distribute_tables (now : Clock) (st : State) :
  selectedEmployees st ≠ [] →
  let st' := (distributeEmployees now st).1 in
  let rows := rowOfAssignment now <$> placements now st in
  filter (λ r, row_date r = today now) (daily_assignments st') = rows ∧
  filter (λ r, row_date r ≠ today now) (daily_assignments st') =
    filter (λ r, row_date r ≠ today now) (daily_assignments st) ∧
  work_history st' = work_history st ++ rows ∧
  Forall (λ r, row_station r ≠ "FL" ∧ row_lane r = None) rows.
Proof.
  intros Hsel st' rows. subst st'.
  split; [by apply distribute_today_rows|].
  rewrite distribute_accepted by done. simpl.
  destruct (placements_rows now st) as (-> & -> & Hall).
  fold rows.
  assert (Forall (λ r, row_date r = today now) rows) as Htoday.
  { apply Forall_fmap, Forall_forall. by intros a _. }
  split_and!.
  - rewrite filter_app. unfold clearedDaily.
    rewrite (filter_none _ rows).
    2:{ intros r Hr Hn. apply Hn. by apply (proj1 (Forall_forall _ _) Htoday). }
    rewrite app_nil_r, list_filter_filter.
    apply list_filter_iff. intros r. tauto.
  - done.
  - apply Forall_fmap. eapply Forall_impl; [exact Hall|]. simpl.
    intros a (Hs & Hl & _). split; [|done].
    by apply elem_of_sortedStations in Hs as (_ & ? & _).
Qed.

(** X5. A run adds to the history of every worker the visits it places:
    with the day inside the window, the count of worker [w] at station [s]
    after the run is the count before plus the number of entries of the run
    for [w] at [s]. *)
Theorem distribute_adds_visits (now : Clock) (st : State) (w s : string) :
  selectedEmployees st ≠ [] → sixMonthsAgo now ≤ today now →
  let st' := (distributeEmployees now st).1 in
  stationCountOf (getEmployeeHistory (work_history st') (sixMonthsAgo now) w) s =
  stationCountOf (getEmployeeHistory (work_history st) (sixMonthsAgo now) w) s +
  Z.of_nat (length (filter (λ a, employeeId a = w ∧ station a = s)
                      (placements now st))).
Proof.
  intros Hsel Hwin st'. subst st'.
  rewrite distribute_accepted by done. simpl.
  destruct (placements_rows now st) as (_ & -> & _).
  rewrite !getEmployeeHistory_count, !filter_app, length_app, Nat2Z.inj_add.
  f_equal. f_equal.
  induction (placements now st) as [|a l IH]; [done|].
  rewrite fmap_cons, !filter_cons. simpl.
  destruct (decide (employeeId a = w)) as [Hw|Hw].
  - rewrite decide_True by done. rewrite filter_cons. simpl.
    destruct (decide (station a = s)).
    + rewrite decide_True by done. simpl. by rewrite IH.
    + rewrite decide_False by tauto. done.
  - rewrite decide_False by tauto. rewrite decide_False by tauto. done.
Qed.

(** ** What a move changes *)

Lemma filter_iff_on {A} (P Q : A → Prop)
    `{!∀ x, Decision (P x), !∀ x, Decision (Q x)} (l : list A) :
  (∀ x, x ∈ l → P x ↔ Q x) → filter P l = filter Q l.
Proof.
  induction l as [|x l IH]; intros Hl; [done|].
  rewrite !filter_cons, IH by (intros y Hy; apply Hl; by right).
  apply decide_ext, Hl. left.
Qed.

(** X6. [performMove] on the entries: the entries of the other workers are
    kept, each where it stood; and when the worker occurs at most once and
    the dragged entry is the worker's entry in the state, the worker is left
    with exactly one entry, the one at the destination, the number of
    entries being unchanged. *)
Theorem performMove_entries (now : Clock) (st : State) (d : Assignment)
    (toStation : string) (toLane : option Z) :
  draggedEmployee st = Some d →
  let st' := (performMove now st toStation toLane).1 in
  filter (λ a, employeeId a ≠ employeeId d) (assignments st') =
    filter (λ a, employeeId a ≠ employeeId d) (assignments st) ∧
  (d ∈ assignments st → employeeId d ≠ "manual" →
   AtMostOnce (assignments st) →
   filter (λ a, employeeId a = employeeId d) (assignments st') =
     [movedEntry d toStation toLane] ∧
   length (assignments st') = length (assignments st)).
Proof.
  intros Hd st'. subst st'. unfold performMove. rewrite Hd. simpl.
  fold (movedEntry d toStation toLane). split.
  - rewrite filter_app, filter_cons_False by (simpl; tauto).
    rewrite filter_nil, app_nil_r, list_filter_filter.
    apply list_filter_iff. intros a. unfold samePlace. tauto.
  - intros Hin Hreal Hinv.
    assert (∀ a, a ∈ assignments st → employeeId a = employeeId d → a = d)
      as Honly.
    { intros a Ha Hid.
      eapply (NoDup_fmap_elem_eq employeeId); [exact Hinv| | |done];
        apply list_elem_of_filter; split; congruence. }
    assert (filter (λ a, ¬ samePlace d a) (assignments st) =
            filter (λ a, employeeId a ≠ employeeId d) (assignments st)) as Hrest.
    { apply filter_iff_on. intros a Ha. split.
      - intros Hsp Hid. apply Hsp. by rewrite (Honly a Ha Hid).
      - intros Hid [? _]. done. }
    split.
    + rewrite filter_app, Hrest, list_filter_filter.
      rewrite filter_none by (intros a _ [? ?]; done).
      by rewrite filter_cons_True.
    + rewrite length_app, Hrest. simpl.
      pose proof (filter_app_complement
                    (λ a, employeeId a = employeeId d) (assignments st)) as Hc.
      apply Permutation_length in Hc. rewrite length_app in Hc.
      assert (filter (λ a, employeeId a = employeeId d) (assignments st) = [d])
        as Hone.
      { clear Hc Hrest. revert Hin Honly Hinv. unfold AtMostOnce.
        induction (assignments st) as [|a l IH]; intros Hin Honly Hinv;
          [by apply elem_of_nil in Hin|].
        rewrite filter_cons.
        destruct (decide (employeeId a = employeeId d)) as [Hid|Hid].
        - assert (a = d) as -> by (apply Honly; [left|done]).
          f_equal. apply filter_none. intros a Ha Hid'.
          rewrite filter_cons_True, fmap_cons in Hinv by done.
          apply NoDup_cons in Hinv as [Hnot _]. apply Hnot.
          rewrite <- Hid'. apply list_elem_of_fmap_2.
          apply list_elem_of_filter. split; [congruence|done].
        - apply IH.
          + apply elem_of_cons in Hin as [->|Hin]; [done|done].
          + intros a' Ha'. apply Honly. by right.
          + rewrite filter_cons in Hinv. case_decide; [|done].
            rewrite fmap_cons in Hinv. by apply NoDup_cons in Hinv as [_ ?]. }
      rewrite Hone in Hc. simpl in Hc. lia.
Qed.

(** X7. [performMove] on the ledger, for each of the two tables: the rows
    that are not rows of the worker on this day at the station dragged from
    are kept and none is added but the row of the destination; of the rows
    of the worker on this day at the station dragged from, whatever their
    lane, none is left when the destination is another station, and exactly
    one, the new row, when the destination is a lane of the same station. *)
Theorem performMove_ledger (now : Clock) (st : State) (d : Assignment)
    (toStation : string) (toLane : option Z) (table : State → list Row) :
  table = daily_assignments ∨ table = work_history →
  draggedEmployee st = Some d →
  let st' := (performMove now st toStation toLane).1 in
  let new := movedRow now d toStation toLane in
  new ∈ table st' ∧
  (∀ r, ¬ sameRow now d r → r ≠ new → (r ∈ table st' ↔ r ∈ table st)) ∧
  (toStation ≠ station d → filter (sameRow now d) (table st') = []) ∧
  (toStation = station d → filter (sameRow now d) (table st') = [new]).
Proof.
  intros Htable Hd st' new.
  assert (table st' = filter (λ r, ¬ sameRow now d r) (table st) ++ [new])
    as ->.
  { subst st'. unfold performMove. rewrite Hd.
    by destruct Htable as [-> | ->]. }
  assert (filter (sameRow now d)
            (filter (λ r, ¬ sameRow now d r) (table st)) = []) as Hnone.
  { apply filter_none. intros r [Hr _]%list_elem_of_filter. tauto. }
  split_and!.
  - apply elem_of_app. right. by apply list_elem_of_singleton.
  - intros r Hr Hnew. rewrite elem_of_app, list_elem_of_filter.
    rewrite list_elem_of_singleton. tauto.
  - intros Hto. rewrite filter_app, Hnone.
    rewrite filter_cons_False; [done|].
    unfold sameRow, new. simpl. tauto.
  - intros Hto. rewrite filter_app, Hnone.
    rewrite filter_cons_True; [done|].
    unfold sameRow, new. simpl. tauto.
Qed.

(** X8. Moves keep the ledger mirror: on every day on which
    [work_history] and [daily_assignments] hold the same rows before a
    drop, they hold the same rows after it, whether [handleDrop] applies
    the move, holds it for confirmation or ignores the drop, and after the
    confirmation of a held move. *)
Theorem drop_keeps_mirror (now : Clock) (st : State) (toStation : string)
    (toLane : option Z) (day : date) :
  MirrorOn day st →
  MirrorOn day (handleDrop now st toStation toLane).1 ∧
  MirrorOn day (confirmWarning now st).1.
Proof.
  intros Hm. split.
  - destruct (handleDrop_cases now st toStation toLane)
      as [->|(_ & Hd & Hh)]; [by apply performMove_MirrorOn|].
    intros r Hr. rewrite Hd, Hh. by apply Hm.
  - unfold confirmWarning. destruct (warningDialog st); [|done].
    by apply performMove_MirrorOn.
Qed.

(** X9. The first run of a day puts the mirror of the day in place and
    keeps that of every other day: when [work_history] has no row of today
    before the run, the two tables hold the same rows of today after it. *)
Theorem first_run_mirrors (now : Clock) (st : State) (day : date) :
  selectedEmployees st ≠ [] →
  (∀ r, r ∈ work_history st → row_date r ≠ today now) →
  (day ≠ today now → MirrorOn day st) →
  MirrorOn day (distributeEmployees now st).1.
Proof.
  intros Hsel Hfresh Hother. destruct (decide (day = today now)) as [->|Hd].
  - by apply distribute_first_run_MirrorOn.
  - by apply distribute_other_day_MirrorOn, Hother.
Qed.

(** X10. A held move that is cancelled leaves no trace but the drag: when
    the overuse evaluation warns, [handleDrop] only opens the dialog, with
    the count of the destination (above 5) and the destination itself;
    closing the dialog gives back the state the drop started from, the
    dragged entry still recorded. *)
Theorem cancelled_move_leaves_state (now : Clock) (st : State)
    (d : Assignment) (toStation : string) (toLane : option Z) :
  draggedEmployee st = Some d →
  ¬ (station d = toStation ∧ lane d = toLane) →
  warningDialog st = None →
  overuseWarn
    (getEmployeeHistory (work_history st) (sixMonthsAgo now) (employeeId d))
    toStation = true →
  let held := handleDrop now st toStation toLane in
  held.2 = None ∧
  (∃ w, warningDialog held.1 = Some w ∧ wd_toStation w = toStation ∧
        wd_toLane w = toLane ∧ wd_employeeName w = employeeName d ∧
        5 < wd_count w) ∧
  cancelWarning held.1 = st ∧
  draggedEmployee (cancelWarning held.1) = Some d.
Proof.
  intros Hd Hplace Hdialog Hwarn held. subst held. unfold handleDrop.
  rewrite Hd, decide_False, Hwarn by done. simpl. split_and!.
  - done.
  - eexists. split_and!; try done. simpl.
    unfold overuseWarn in Hwarn. apply andb_true_iff in Hwarn as [_ H5].
    by apply bool_decide_eq_true in H5.
  - unfold cancelWarning, setWarningDialog. simpl. rewrite <- Hdialog.
    by destruct st.
  - done.
Qed.

(** ** Loading the day *)

Lemma joinEmployee_None employeesTable item :
  joinEmployee employeesTable item = None ↔
  ∀ e, e ∈ employeesTable → id e ≠ employee_id item.
Proof.
  unfold joinEmployee. induction employeesTable as [|e l IH]; simpl.
  - split; [|done]. intros _ e He. by apply elem_of_nil in He.
  - case_bool_decide as Hid.
    + split; [done|]. intros Hall. exfalso. by apply (Hall e); [left|].
    + rewrite IH. split.
      * intros Hall e' [->|He']%elem_of_cons; [done|by apply Hall].
      * intros Hall e' He'. apply Hall. by right.
Qed.

Lemma joinEmployee_Some employeesTable item e :
  joinEmployee employeesTable item = Some e →
  e ∈ employeesTable ∧ id e = employee_id item.
Proof.
  unfold joinEmployee. intros Hfind. apply find_some in Hfind as [Hin Hid].
  split; [by apply list_elem_of_In|]. by apply bool_decide_eq_true in Hid.
Qed.

(** X11. [loadTodayAssignments] throws, leaving the state as it is,
    exactly when a row of today names a worker that the [employees] table
    does not hold; otherwise it replaces the entries by one entry per row of
    today, in the order of the rows, with the placement of the row and a
    name of that worker in the table, and touches nothing else. Rows of
    other days are never loaded. *)
Theorem loadTodayAssignments_spec (now : Clock) (employeesTable : list Employee)
    (st : State) :
  let rows := filter (λ r, row_date r = today now) (daily_assignments st) in
  (loadTodayAssignments now employeesTable st = None ↔
   ∃ r, r ∈ rows ∧ ∀ e, e ∈ employeesTable → id e ≠ employee_id r) ∧
  (∀ st', loadTodayAssignments now employeesTable st = Some st' →
     st' = setAssignments st (assignments st') ∧
     placementOf <$> assignments st' = rowPlacement <$> rows ∧
     Forall (λ a, ∃ e, e ∈ employeesTable ∧ id e = employeeId a ∧
                       name e = employeeName a) (assignments st')).
Proof.
  intros rows. unfold loadTodayAssignments. fold rows. split.
  - destruct (mapM (loadedEntry employeesTable) rows) as [l|] eqn:E; simpl.
    + split; [done|]. intros (r & Hr & Hnone). exfalso.
      apply mapM_Some_1 in E.
      assert (is_Some (loadedEntry employeesTable r)) as [a Ha].
      { clear Hnone. induction E as [|r' a' rs l' Hf _ IH];
          [by apply elem_of_nil in Hr|].
        apply elem_of_cons in Hr as [->|Hr]; [by eexists|by apply IH]. }
      unfold loadedEntry in Ha.
      apply joinEmployee_None in Hnone. by rewrite Hnone in Ha.
    + split; [|done]. intros _. apply mapM_None_1, Exists_exists in E
        as (r & Hr & Hnone).
      exists r. split; [done|]. apply joinEmployee_None.
      unfold loadedEntry in Hnone.
      by destruct (joinEmployee employeesTable r).
  - intros st'.
    destruct (mapM (loadedEntry employeesTable) rows) as [l|] eqn:E;
      simpl; [|done].
    intros [= <-]. simpl. split; [done|].
    apply mapM_Some_1 in E.
    induction E as [|r a rs l' Hf _ [IH1 IH2]]; [by split|].
    unfold loadedEntry in Hf.
    destruct (joinEmployee employeesTable r) as [e|] eqn:Hj; [|done].
    simpl in Hf. injection Hf as <-.
    apply joinEmployee_Some in Hj as [Hin Hid].
    split.
    + rewrite !fmap_cons. by f_equal.
    + constructor; [|done]. by exists e.
Qed.

(** X12. Persisting and loading again: after a run, when the [employees]
    table gives every selected worker the name the roster state gives,
    [loadTodayAssignments] succeeds and yields exactly the entries of the
    run, in order, without the free-text [FL] entry, which was never
    written. *)
Theorem reload_after_run (now : Clock) (employeesTable : list Employee)
    (st : State) :
  selectedEmployees st ≠ [] →
  (∀ w, w ∈ selectedEmployees st →
        ∃ e, List.find (λ e, bool_decide (id e = w)) employeesTable = Some e ∧
             name e = nameOf (employees st) w) →
  let st' := (distributeEmployees now st).1 in
  loadTodayAssignments now employeesTable st' =
    Some (setAssignments st' (placements now st)).
Proof.
  intros Hsel Hnames st'.
  pose proof (distribute_today_rows now st Hsel) as Hrows.
  fold st' in Hrows. unfold loadTodayAssignments. rewrite Hrows.
  rewrite (mapM_fmap_Forall_Some _ (rowOfAssignment now)); [done|].
  eapply Forall_impl; [apply placements_entries|]. simpl.
  intros a (s & e & _ & He & ->). unfold loadedEntry, joinEmployee. simpl.
  destruct (Hnames (eh_id e)) as (e' & -> & Hname).
  { rewrite <- (eh_id_fetchHistories now st). by apply list_elem_of_fmap_2. }
  simpl. unfold entryOf. by rewrite Hname.
Qed.

(** ** Saving and loading the needs *)

Lemma elem_of_upsertNeed table row r :
  r ∈ upsertNeed table row ↔ r = row ∨ (r ∈ table ∧ ¬ sameNeedKey row r).
Proof.
  assert (sameNeedKey row row) as Hrefl by done.
  unfold upsertNeed. case_decide as Hex.
  - rewrite list_elem_of_fmap. split.
    + intros (r' & -> & Hr'). case_decide; [by left|by right].
    + intros [->|[Hr Hk]].
      * apply Exists_exists in Hex as (r' & Hr' & Hk'). exists r'.
        by rewrite decide_True.
      * exists r. by rewrite decide_False.
  - rewrite elem_of_app, list_elem_of_singleton. split.
    + intros [Hr| ->]; [|by left]. right. split; [done|]. intros Hk.
      apply Hex, Exists_exists. by exists r.
    + intros [->|[Hr _]]; [by right|by left].
Qed.

Lemma filter_upsertNeed (P : NeedRow → Prop) `{!∀ r, Decision (P r)}
    table row :
  (∀ r, P r → ¬ sameNeedKey row r) →
  filter P (upsertNeed table row) = filter P table.
Proof.
  intros HP. assert (¬ P row) as Hrow by (intros HPr; by apply (HP row HPr)).
  unfold upsertNeed. case_decide as Hex.
  - clear Hex. induction table as [|r l IH]; [done|].
    rewrite fmap_cons, !filter_cons, IH.
    destruct (decide (sameNeedKey row r)) as [Hk|Hk].
    + rewrite decide_False by done. rewrite decide_False; [done|].
      intros Hr. by apply (HP r Hr).
    + done.
  - rewrite filter_app, filter_cons_False by done.
    by rewrite filter_nil, app_nil_r.
Qed.

Lemma saveStationNeeds_fold now st table :
  saveStationNeeds now st table =
  foldl (λ t s, upsertNeed t (needRowOf now st s)) table STATIONS.
Proof. reflexivity. Qed.

Lemma elem_of_saved now st (ss : list string) table r :
  NoDup ss →
  r ∈ foldl (λ t s, upsertNeed t (needRowOf now st s)) table ss ↔
  (∃ s, s ∈ ss ∧ r = needRowOf now st s) ∨
  (r ∈ table ∧ ¬ (need_date r = today now ∧ need_station r ∈ ss)).
Proof.
  intros Hnd. revert table.
  induction Hnd as [|s ss Hs Hnd IH]; intros table; simpl.
  - split; [intros Hr; right; split; [done|]; intros [_ H]; by apply elem_of_nil in H|].
    intros [(s & Hs & _)|[Hr _]]; [by apply elem_of_nil in Hs|done].
  - rewrite IH, elem_of_upsertNeed. unfold sameNeedKey. simpl. split.
    + intros [(s' & Hs' & Hr)|[[Hr|[Hr Hk]] Hrest]].
      * left. exists s'. split; [by right|done].
      * left. exists s. split; [left|done].
      * right. split; [done|]. intros [Hd Hin].
        apply elem_of_cons in Hin as [Heq|Hin].
        -- apply Hk. split; congruence.
        -- apply Hrest. by split.
    + intros [(s' & Hs' & Hr)|[Hr Hk]].
      * apply elem_of_cons in Hs' as [Heq|Hs'].
        -- right. split; [left; congruence|]. subst r s'. simpl.
           intros [_ Hin]. by apply Hs.
        -- left. by exists s'.
      * right. split.
        -- right. split; [done|]. intros [Hst Hd]. apply Hk.
           split; [done|]. rewrite <- Hst. left.
        -- intros [Hd Hin]. apply Hk. split; [done|by right].
Qed.

Lemma needsMap_lookup (data : list NeedRow) (m : gmap string Z) s v :
  (∃ r, r ∈ data ∧ need_station r = s) →
  (∀ r, r ∈ data → need_station r = s → needed_count r = v) →
  foldl (λ (needsMap : gmap string Z) item,
           <[need_station item := needed_count item]> needsMap) m data !! s
  = Some v.
Proof.
  revert m. induction data as [|r data IH]; intros m (r0 & Hr0 & Hs0) Hall.
  { by apply elem_of_nil in Hr0. }
  simpl.
  destruct (decide (Exists (λ r', need_station r' = s) data)) as [Hex|Hno'].
  - apply IH; [by apply Exists_exists in Hex|].
    intros r' Hr'. apply Hall. by right.
  - assert (¬ ∃ r', r' ∈ data ∧ need_station r' = s) as Hno
      by (by rewrite <- Exists_exists).
    clear Hno'.
    assert (need_station r = s) as Hr.
    { apply elem_of_cons in Hr0 as [->|Hr0]; [done|].
      exfalso. apply Hno. by exists r0. }
    assert (∀ m', m' !! s = Some v →
              foldl (λ (needsMap : gmap string Z) item,
                       <[need_station item := needed_count item]> needsMap)
                m' data !! s = Some v) as Hkeep.
    { clear -Hno. induction data as [|r' data IH]; intros m' Hm'; [done|].
      simpl. apply IH.
      - intros (r'' & ? & ?). apply Hno. exists r''. split; [by right|done].
      - rewrite lookup_insert_ne; [done|]. intros Hs. apply Hno.
        exists r'. split; [left|done]. }
    apply Hkeep. rewrite <- Hr, lookup_insert_eq. f_equal.
    apply Hall; [left|done].
Qed.

Lemma needs_round_trip_lookup now st station_needs s :
  s ∈ STATIONS →
  stationNeeds
    (loadTodayNeeds now (saveStationNeeds now st station_needs) st) !! s =
  Some (needOf (stationNeeds st) s).
Proof.
  intros Hs. unfold loadTodayNeeds. simpl. unfold needsMapOf.
    rewrite saveStationNeeds_fold. apply needsMap_lookup.
    - exists (needRowOf now st s). split; [|done].
      apply list_elem_of_filter. split; [done|].
      apply elem_of_saved; [apply NoDup_STATIONS|]. left. by exists s.
    - intros r [Hd Hr]%list_elem_of_filter Hst.
      apply elem_of_saved in Hr as [(s' & _ & ->)|[_ Hk]];
        [| |apply NoDup_STATIONS].
      + simpl in *. by subst s'.
      + exfalso. apply Hk. by rewrite Hst.
Qed.

Lemma needs_round_trip_needOf now st station_needs s :
  s ∈ STATIONS →
  needOf (stationNeeds
            (loadTodayNeeds now (saveStationNeeds now st station_needs) st)) s
  = needOf (stationNeeds st) s.
Proof.
  intros Hs. unfold needOf at 1. by rewrite needs_round_trip_lookup.
Qed.

(** X13. Saving the needs and loading them again gives every station of
    [STATIONS] the need it had in the form, an absent need having become
    the stored number [0] ([stationNeeds[station] || 0]); whatever rows the
    table held before. *)
Theorem needs_round_trip (now : Clock) (st : State)
    (station_needs : list NeedRow) (s : string) :
  s ∈ STATIONS →
  let st' :=
    loadTodayNeeds now (saveStationNeeds now st station_needs) st in
  needOf (stationNeeds st') s = needOf (stationNeeds st) s ∧
  stationNeeds st' !! s = Some (needOf (stationNeeds st) s).
Proof.
  intros Hs st'. split.
  - by apply needs_round_trip_needOf.
  - by apply needs_round_trip_lookup.
Qed.

(** X14. What [saveStationNeeds] leaves in [station_needs]: the rows it
    writes, one for each station of [STATIONS] dated today, and the rows
    of other days or other stations, which keep their order; no other row
    of today for a station of [STATIONS] is left. Saving twice is saving
    once. *)
Theorem saveStationNeeds_spec (now : Clock) (st : State)
    (station_needs : list NeedRow) :
  let saved := saveStationNeeds now st station_needs in
  (∀ r, r ∈ saved ↔
        (∃ s, s ∈ STATIONS ∧ r = needRowOf now st s) ∨
        (r ∈ station_needs ∧ ¬ savedKey now r)) ∧
  filter (λ r, ¬ savedKey now r) saved =
    filter (λ r, ¬ savedKey now r) station_needs ∧
  saveStationNeeds now st saved = saved.
Proof.
  intros saved. subst saved.
  assert (∀ r, r ∈ saveStationNeeds now st station_needs ↔
            (∃ s, s ∈ STATIONS ∧ r = needRowOf now st s) ∨
            (r ∈ station_needs ∧ ¬ savedKey now r)) as Hmem.
  { intros r. rewrite saveStationNeeds_fold.
    apply elem_of_saved, NoDup_STATIONS. }
  split; [done|]. split.
  - rewrite saveStationNeeds_fold.
    assert (∀ ss table, ss ⊆ STATIONS →
              filter (λ r, ¬ savedKey now r)
                (foldl (λ t s, upsertNeed t (needRowOf now st s)) table ss) =
              filter (λ r, ¬ savedKey now r) table) as Hfold.
    { induction ss as [|s ss IH]; intros table Hss; [done|]. simpl.
      rewrite IH by (intros x Hx; apply Hss; by right).
      apply filter_upsertNeed. intros r Hr [Hst Hd]. simpl in *.
      apply Hr. split; [done|]. rewrite <- Hst. apply Hss. left. }
    by apply Hfold.
  - rewrite (saveStationNeeds_fold now st (saveStationNeeds _ _ _)).
    assert (∀ ss, ss ⊆ STATIONS →
              foldl (λ t s, upsertNeed t (needRowOf now st s))
                (saveStationNeeds now st station_needs) ss =
              saveStationNeeds now st station_needs) as Hfold.
    { induction ss as [|s ss IH]; intros Hss; [done|]. simpl.
      assert (upsertNeed (saveStationNeeds now st station_needs)
                (needRowOf now st s) =
              saveStationNeeds now st station_needs) as ->.
      { unfold upsertNeed. rewrite decide_True.
        - rewrite <- (list_fmap_id (saveStationNeeds now st station_needs))
            at 2.
          apply list_fmap_ext. intros i r Hr. case_decide as Hk; [|done].
          apply list_elem_of_lookup_2, Hmem in Hr
            as [(s' & Hs' & ->)|[_ Hn]].
          + destruct Hk as [Hst _]. simpl in Hst. by subst s'.
          + exfalso. apply Hn. destruct Hk as [Hst Hd]. simpl in *.
            split; [done|]. rewrite <- Hst. apply Hss. left.
        - apply Exists_exists. exists (needRowOf now st s). split; [|done].
          apply Hmem. left. exists s. split; [apply Hss; left|done]. }
      apply IH. intros x Hx. apply Hss. by right. }
    by apply Hfold.
Qed.

Lemma sort_insert_ext {A} (cmp1 cmp2 : A → A → Z) x l :
  (∀ y, y ∈ l → cmp1 x y = cmp2 x y) →
  sort_insert cmp1 x l = sort_insert cmp2 x l.
Proof.
  induction l as [|y l IH]; intros Hc; [done|]. simpl.
  rewrite (Hc y) by left. rewrite IH; [done|].
  intros z Hz. apply Hc. by right.
Qed.

Lemma sort_ext {A} (cmp1 cmp2 : A → A → Z) l :
  (∀ x y, x ∈ l → y ∈ l → cmp1 x y = cmp2 x y) →
  sort cmp1 l = sort cmp2 l.
Proof.
  induction l as [|x l IH]; intros Hc; [done|].
  change (sort cmp1 (x :: l)) with (sort_insert cmp1 x (sort cmp1 l)).
  change (sort cmp2 (x :: l)) with (sort_insert cmp2 x (sort cmp2 l)).
  rewrite IH by (intros y z Hy Hz; apply Hc; by right).
  apply sort_insert_ext. intros y Hy. rewrite sort_perm in Hy.
  apply Hc; [left|by right].
Qed.

Lemma sortedStations_ext (n1 n2 : gmap string Z) :
  (∀ s, s ∈ STATIONS → needOf n1 s = needOf n2 s) →
  sortedStations n1 = sortedStations n2.
Proof.
  intros Hn. unfold sortedStations, sortedStationsOf.
  assert (filter (λ s, needOf n1 s > 0) (filter (λ s, s ≠ "FL") STATIONS) =
          filter (λ s, needOf n2 s > 0) (filter (λ s, s ≠ "FL") STATIONS))
    as ->.
  { apply filter_iff_on. intros s [_ Hs]%list_elem_of_filter.
    by rewrite Hn. }
  apply sort_ext. intros x y Hx Hy.
  apply list_elem_of_filter in Hx as [_ [_ Hx]%list_elem_of_filter].
  apply list_elem_of_filter in Hy as [_ [_ Hy]%list_elem_of_filter].
  by rewrite !Hn.
Qed.

Lemma planLoop_ext now roster (n1 n2 : gmap string Z) hs daily hist :
  (∀ s, s ∈ STATIONS → needOf n1 s = needOf n2 s) →
  planLoop now roster n1 hs daily hist = planLoop now roster n2 hs daily hist.
Proof.
  intros Hn. unfold planLoop. rewrite (sortedStations_ext n1 n2 Hn).
  assert (∀ ss l, ss ⊆ STATIONS →
            foldl (fillStation now roster n1 hs) l ss =
            foldl (fillStation now roster n2 hs) l ss) as Hfold.
  { induction ss as [|s ss IH]; intros l Hss; [done|]. simpl.
    rewrite IH by (intros x Hx; apply Hss; by right).
    unfold fillStation at 2 4. rewrite Hn; [done|]. apply Hss. left. }
  apply Hfold. intros s Hs. by apply elem_of_sortedStations in Hs as [? _].
Qed.

Lemma distribute_needs_ext now st (needs : gmap string Z) :
  (∀ s, s ∈ STATIONS → needOf needs s = needOf (stationNeeds st) s) →
  distributeEmployees now (setStationNeeds st needs) =
    (setStationNeeds (distributeEmployees now st).1 needs,
     (distributeEmployees now st).2).
Proof.
  intros Hn. unfold distributeEmployees, setStationNeeds. simpl.
  case_decide; [reflexivity|]. simpl.
  unfold fetchHistories. simpl.
  rewrite (planLoop_ext _ _ _ _ _ _ _ Hn). reflexivity.
Qed.

(** X15. The needs that were saved and loaded again plan the day as the
    needs of the form do: a run of [distributeEmployees] on the reloaded
    needs writes the same entries and the same rows and shows the same
    toast; the two outcomes differ in the needs map alone (an absent need
    has become a stored zero). *)
Theorem reloaded_needs_same_run (now : Clock) (st : State)
    (station_needs : list NeedRow) :
  let st' :=
    loadTodayNeeds now (saveStationNeeds now st station_needs) st in
  distributeEmployees now st' =
    (setStationNeeds (distributeEmployees now st).1 (stationNeeds st'),
     (distributeEmployees now st).2).
Proof.
  intros st'. subst st'.
  pose proof (needs_round_trip_needOf now st station_needs) as Hn.
  unfold loadTodayNeeds in *. revert Hn.
  generalize (needsMapOf now (saveStationNeeds now st station_needs)).
  intros needs Hn.
  change (stationNeeds (setStationNeeds st needs)) with needs in *.
  exact (distribute_needs_ext now st needs Hn).
Qed.

(** ** The selection and the station cards *)

(** X16. The checkbox of a worker keeps the selection free of duplicates,
    a box being checked only for a worker that is not selected
    ([checked={selectedEmployees.includes(employee.id)}]): afterwards the
    worker is selected exactly when the box is checked, last in the
    selection when newly checked, and the other workers are selected as
    before, in the same order. *)
Theorem checkbox_keeps_selection (st : State) (w : string) (checked : bool) :
  NoDup (selectedEmployees st) →
  (checked = true → w ∉ selectedEmployees st) →
  let selected := selectedEmployees (onCheckedChange st w checked) in
  NoDup selected ∧
  (w ∈ selected ↔ checked = true) ∧
  filter (λ i, i ≠ w) selected = filter (λ i, i ≠ w) (selectedEmployees st) ∧
  (checked = true → last selected = Some w).
Proof.
  intros Hnd Hc. destruct checked; simpl.
  - specialize (Hc eq_refl). split; [|split; [|split]].
    + apply NoDup_app. split; [done|]. split; [|apply NoDup_singleton].
      intros x Hx Hw. apply list_elem_of_singleton in Hw. by subst x.
    + split; [done|]. intros _. apply elem_of_app. right. left.
    + rewrite filter_app, filter_cons_False by (intros Hw; by apply Hw).
      by rewrite filter_nil, app_nil_r.
    + intros _. apply last_snoc.
  - split; [|split; [|split]].
    + by apply NoDup_filter.
    + split; [|done]. intros Hw. apply list_elem_of_filter in Hw as [Hw _].
      by destruct Hw.
    + apply list_filter_filter_l. tauto.
    + done.
Qed.

Lemma STATION_LANES_lookup s n :
  STATION_LANES !! s = Some n ↔
  (s = "Pack" ∧ n = 11) ∨ (s = "Auto pack" ∧ n = 6) ∨
  (s = "Autoplock" ∧ n = 6).
Proof.
  unfold STATION_LANES.
  rewrite !lookup_insert_Some, lookup_singleton_Some. split.
  - intros [[<- <-]|[_ [[<- <-]|[_ [<- <-]]]]]; tauto.
  - intros [[-> ->]|[[-> ->]|[-> ->]]].
    + by left.
    + right. split; [done|]. by left.
    + right. split; [done|]. right. split; [done|]. done.
Qed.

Lemma STATION_LANES_pos s n : STATION_LANES !! s = Some n → 0 < n.
Proof. rewrite STATION_LANES_lookup. lia. Qed.

Lemma STATION_LANES_not_FL s n : STATION_LANES !! s = Some n → s ≠ "FL".
Proof.
  rewrite STATION_LANES_lookup. intros [[-> _]|[[-> _]|[-> _]]]; done.
Qed.

Lemma elem_of_lanes_badges st s n a :
  a ∈ ((λ l, (l, getAssignmentsByStationAndLane st s (Some l)))
         <$> seqZ 1 n) ≫= snd ↔
  a ∈ assignments st ∧ station a = s ∧ ∃ l, lane a = Some l ∧ 1 ≤ l ≤ n.
Proof.
  rewrite list_elem_of_bind. split.
  - intros ([l' badges] & Ha & (l & [= -> ->] & Hl)%list_elem_of_fmap).
    simpl in Ha. apply elem_of_seqZ in Hl.
    apply list_elem_of_filter in Ha as [[Hs Hlane] Ha].
    repeat split; [done..|]. exists l. split; [done|lia].
  - intros (Ha & Hs & l & Hlane & Hl).
    exists (l, getAssignmentsByStationAndLane st s (Some l)). split.
    + simpl. apply list_elem_of_filter. by repeat split.
    + apply list_elem_of_fmap. exists l. split; [done|].
      apply elem_of_seqZ. lia.
Qed.

Lemma no_entry_at st s a :
  length (getAssignmentsByStation st s) = 0%nat →
  a ∈ assignments st → station a ≠ s.
Proof.
  intros Hlen Ha Hs. apply length_zero_iff_nil in Hlen.
  assert (a ∈ getAssignmentsByStation st s) as Hin
    by (by apply list_elem_of_filter).
  rewrite Hlen in Hin. by apply elem_of_nil in Hin.
Qed.

Lemma draggable_entry st s a :
  a ∈ draggableOf (renderStationCard st s) →
  a ∈ assignments st ∧ station a = s ∧ s ≠ "FL" ∧
  match STATION_LANES !! s with
  | Some n => ∃ l, lane a = Some l ∧ 1 ≤ l ≤ n
  | None => True
  end.
Proof.
  unfold renderStationCard.
  case_decide as Hnone; [by intros ?%elem_of_nil|].
  case_decide as HFL; [by intros ?%elem_of_nil|].
  destruct (STATION_LANES !! s) as [n|] eqn:Hlanes.
  - rewrite decide_False by (apply STATION_LANES_pos in Hlanes; lia).
    simpl. rewrite elem_of_lanes_badges. tauto.
  - simpl. unfold getAssignmentsByStation. rewrite list_elem_of_filter. tauto.
Qed.

Lemma entry_draggable st s a :
  a ∈ assignments st → station a = s → s ≠ "FL" →
  match STATION_LANES !! s with
  | Some n => ∃ l, lane a = Some l ∧ 1 ≤ l ≤ n
  | None => True
  end →
  a ∈ draggableOf (renderStationCard st s).
Proof.
  intros Ha Hs HFL Hlane. unfold renderStationCard.
  rewrite decide_False; [|intros [Hlen _]; by eapply no_entry_at].
  rewrite decide_False by done.
  destruct (STATION_LANES !! s) as [n|] eqn:Hlanes.
  - rewrite decide_False by (apply STATION_LANES_pos in Hlanes; lia).
    simpl. by rewrite elem_of_lanes_badges.
  - simpl. unfold getAssignmentsByStation. by rewrite list_elem_of_filter.
Qed.

Lemma drop_target_place st s t l :
  (t, l) ∈ dropTargetsOf s (renderStationCard st s) →
  t = s ∧ s ≠ "FL" ∧ length (getAssignmentsByStation st s) ≠ 0%nat ∧
  match STATION_LANES !! s with
  | Some n => ∃ k, l = Some k ∧ 1 ≤ k ≤ n
  | None => l = None
  end.
Proof.
  unfold renderStationCard.
  case_decide as Hnone; [by intros ?%elem_of_nil|].
  case_decide as HFL; [by intros ?%elem_of_nil|].
  assert (length (getAssignmentsByStation st s) ≠ 0%nat) as Hlen by tauto.
  destruct (STATION_LANES !! s) as [n|] eqn:Hlanes.
  - rewrite decide_False by (apply STATION_LANES_pos in Hlanes; lia).
    simpl. rewrite <- list_fmap_compose, list_elem_of_fmap.
    intros (k & [= -> ->] & Hk%elem_of_seqZ).
    repeat split; [done..|]. exists k. split; [done|lia].
  - simpl. rewrite list_elem_of_singleton. by intros [= -> ->].
Qed.

Lemma place_drop_target st s l :
  s ≠ "FL" → length (getAssignmentsByStation st s) ≠ 0%nat →
  match STATION_LANES !! s with
  | Some n => ∃ k, l = Some k ∧ 1 ≤ k ≤ n
  | None => l = None
  end →
  (s, l) ∈ dropTargetsOf s (renderStationCard st s).
Proof.
  intros HFL Hlen Hlane. unfold renderStationCard.
  rewrite decide_False by tauto. rewrite decide_False by done.
  destruct (STATION_LANES !! s) as [n|] eqn:Hlanes.
  - rewrite decide_False by (apply STATION_LANES_pos in Hlanes; lia).
    simpl. rewrite <- list_fmap_compose, list_elem_of_fmap.
    destruct Hlane as (k & -> & Hk). exists k. split; [done|].
    apply elem_of_seqZ. lia.
  - simpl. subst l. left.
Qed.

(** X17. The badges that can be dragged from the card of station [s]
    are the entries of the state at [s], for a station other than [FL]; at
    a station with lanes only the entries whose lane is one of the lanes
    [1..n] of the station have a badge, an entry with no lane or with
    another lane number having none. So a drag always starts from an entry
    of the state. *)
Theorem card_badges (st : State) (s : string) (a : Assignment) :
  a ∈ draggableOf (renderStationCard st s) ↔
  a ∈ assignments st ∧ station a = s ∧ s ≠ "FL" ∧
  match STATION_LANES !! s with
  | Some n => ∃ l, lane a = Some l ∧ 1 ≤ l ≤ n
  | None => True
  end.
Proof.
  split.
  - apply draggable_entry.
  - intros (Ha & Hs & HFL & Hlane). by apply entry_draggable.
Qed.

(** X18. The places a card lets the operator drop on: a station is a
    drop target only when it is not [FL] and already has an entry; a
    station with lanes offers each of its lanes [1..n] and never the
    station without a lane, a station without lanes offers itself with no
    lane. *)
Theorem card_drop_targets (st : State) (s toStation : string)
    (toLane : option Z) :
  (toStation, toLane) ∈ dropTargetsOf s (renderStationCard st s) ↔
  toStation = s ∧ s ≠ "FL" ∧ (∃ a, a ∈ assignments st ∧ station a = s) ∧
  match STATION_LANES !! s with
  | Some n => ∃ l, toLane = Some l ∧ 1 ≤ l ≤ n
  | None => toLane = None
  end.
Proof.
  split.
  - intros (-> & HFL & Hlen & Hlane)%drop_target_place.
    repeat split; [done| |done].
    unfold getAssignmentsByStation in Hlen.
    destruct (filter _ _) as [|a l] eqn:Hf; [done|].
    assert (a ∈ filter (λ a, station a = s) (assignments st)) as Hin
      by (rewrite Hf; left).
    apply list_elem_of_filter in Hin as [? ?]. by exists a.
  - intros (-> & HFL & (a & Ha & Hs) & Hlane).
    apply place_drop_target; [done| |done].
    intros Hlen. by eapply no_entry_at.
Qed.

(** X19. A run leaves the lanes empty: it writes every entry without a
    lane, so after it the card of a station with lanes that got workers
    shows each of its lanes as an empty drop target, and none of the
    workers placed there can be dragged. *)
Theorem run_leaves_lanes_empty (now : Clock) (st : State) (s : string)
    (n : Z) :
  selectedEmployees st ≠ [] →
  STATION_LANES !! s = Some n →
  (∃ a, a ∈ placements now st ∧ station a = s) →
  let st' := (distributeEmployees now st).1 in
  renderStationCard st' s = LanesCard ((λ l, (l, [])) <$> seqZ 1 n) ∧
  draggableOf (renderStationCard st' s) = [].
Proof.
  intros Hsel Hlanes (a & Ha & Hs) st'.
  assert (∀ b, b ∈ assignments st' → lane b = None) as Hnolane.
  { intros b Hb. subst st'. rewrite distribute_accepted in Hb by done.
    simpl in Hb. unfold withManual in Hb.
    assert (b ∈ placements now st → lane b = None) as Hp.
    { intros Hin. pose proof (placements_rows now st) as (_ & _ & Hall).
      rewrite Forall_forall in Hall. by apply Hall in Hin as (_ & ? & _). }
    destruct (trimTruthy _); [|by apply Hp].
    apply elem_of_app in Hb as [Hb|Hb%list_elem_of_singleton];
      [by apply Hp|by subst b]. }
  assert (a ∈ assignments st') as Ha'.
  { subst st'. rewrite distribute_accepted by done. simpl.
    unfold withManual. destruct (trimTruthy _); [|done].
    apply elem_of_app. by left. }
  assert (renderStationCard st' s =
          LanesCard ((λ l, (l, [])) <$> seqZ 1 n)) as Hcard.
  { unfold renderStationCard. rewrite decide_False.
    - rewrite decide_False by (by eapply STATION_LANES_not_FL).
      rewrite Hlanes.
      rewrite decide_False by (apply STATION_LANES_pos in Hlanes; lia).
      f_equal. apply list_fmap_ext. intros i l _. f_equal.
      unfold getAssignmentsByStationAndLane. apply filter_none.
      intros b Hb [_ Hl]. by rewrite (Hnolane b Hb) in Hl.
    - intros [Hlen _]. apply length_zero_iff_nil in Hlen.
      assert (a ∈ getAssignmentsByStation st' s) as Hin
        by (by apply list_elem_of_filter).
      rewrite Hlen in Hin. by apply elem_of_nil in Hin. }
  split; [done|]. rewrite Hcard. simpl. clear Hcard.
  induction (seqZ 1 n) as [|l ls IH]; [done|]. csimpl. exact IH.
Qed.

(** X20. Dragging a badge and dropping it on a drop target that is not the
    place it came from, the overuse evaluation not warning: the move is
    applied, the worker gets a badge on the card of the destination, in the
    lane dropped on, and can be dragged again; the entry dragged has no
    badge any more, on any card; the badges of the other workers are the
    ones shown before. *)
Theorem dragged_badge_lands_on_target (now : Clock) (st : State)
    (a : Assignment) (s toStation : string) (toLane : option Z) :
  a ∈ draggableOf (renderStationCard st s) →
  (toStation, toLane) ∈
    dropTargetsOf toStation (renderStationCard st toStation) →
  ¬ (station a = toStation ∧ lane a = toLane) →
  overuseWarn
    (getEmployeeHistory (work_history st) (sixMonthsAgo now) (employeeId a))
    toStation = false →
  let st' := (handleDrop now (handleDragStart st a) toStation toLane).1 in
  movedEntry a toStation toLane ∈
    draggableOf (renderStationCard st' toStation) ∧
  (∀ s', a ∉ draggableOf (renderStationCard st' s')) ∧
  (∀ b s', employeeId b ≠ employeeId a →
     b ∈ draggableOf (renderStationCard st' s') ↔
     b ∈ draggableOf (renderStationCard st s')).
Proof.
  intros Ha Ht Hplace Hok st'.
  assert (assignments st' =
          filter (λ b, ¬ samePlace a b) (assignments st) ++
          [movedEntry a toStation toLane]) as Hent.
  { subst st'. unfold handleDrop. simpl.
    rewrite decide_False by done. rewrite Hok.
    unfold performMove. simpl. done. }
  apply drop_target_place in Ht as (_ & HFL & _ & Hlane).
  split_and!.
  - apply entry_draggable; [|done|done|].
    + rewrite Hent. apply elem_of_app. right. left.
    + simpl. destruct (STATION_LANES !! toStation); done.
  - intros s' Hin. apply draggable_entry in Hin as (Hin & _).
    rewrite Hent in Hin. apply elem_of_app in Hin as [Hin|Hin].
    + apply list_elem_of_filter in Hin as [Hn _]. by apply Hn.
    + apply list_elem_of_singleton in Hin. apply Hplace.
      split; by rewrite Hin.
  - intros b s' Hb.
    assert (b ∈ assignments st' ↔ b ∈ assignments st) as Hsame.
    { rewrite Hent, elem_of_app, list_elem_of_filter, list_elem_of_singleton.
      split.
      - intros [[_ Hin]|Heq]; [done|]. subst b. by destruct Hb.
      - intros Hin. left. split; [|done]. intros (Heq & _). by apply Hb. }
    split; intros (Hin & Hs & HFL' & Hl)%draggable_entry;
      apply entry_draggable; try done; by apply Hsame.
Qed.

(** ** The overuse evaluation in binary64 *)

Lemma Zsum_perm (l k : list Z) : l ≡ₚ k → Zsum l = Zsum k.
Proof. induction 1; simpl; lia. Qed.

Lemma Zsum_fresh (m : gmap string Z) k v :
  m !! k = None →
  Zsum (map_to_list (<[k:=v]> m)).*2 = v + Zsum (map_to_list m).*2.
Proof.
  intros Hk. rewrite (Zsum_perm _ (((k, v) :: map_to_list m).*2)); [done|].
  by rewrite map_to_list_insert.
Qed.

Lemma Zsum_insert (m : gmap string Z) k v :
  Zsum (map_to_list (<[k:=v]> m)).*2 =
  Zsum (map_to_list m).*2 - default 0 (m !! k) + v.
Proof.
  destruct (m !! k) as [v0|] eqn:Hk; simpl.
  - rewrite <- (insert_delete_id m k v0) at 2 by done.
    rewrite <- (insert_delete_eq m k v).
    rewrite !Zsum_fresh by apply lookup_delete_eq. lia.
  - rewrite Zsum_fresh by done. lia.
Qed.

Lemma countRows_sum data (m : gmap string Z) :
  Zsum (map_to_list (foldl countRow m data)).*2 =
  Zsum (map_to_list m).*2 + Z.of_nat (length data).
Proof.
  revert m. induction data as [|r data IH]; intros m; simpl; [lia|].
  rewrite IH. unfold countRow. rewrite Zsum_insert. lia.
Qed.

Lemma countRows_stations data (m : gmap string Z) s :
  is_Some (foldl countRow m data !! s) →
  is_Some (m !! s) ∨ ∃ r, r ∈ data ∧ row_station r = s.
Proof.
  intros Hs. destruct (m !! s) as [v|] eqn:Hm; [left; by eexists|]. right.
  destruct (filter (λ r, row_station r = s) data) as [|r l] eqn:Hf.
  - assert (foldl countRow m data !! s = None) as Hnone
      by (by apply countRows_None).
    rewrite Hnone in Hs. by destruct Hs.
  - assert (r ∈ filter (λ r, row_station r = s) data) as Hr
      by (rewrite Hf; left).
    apply list_elem_of_filter in Hr as [? ?]. by exists r.
Qed.

(** X21. The overuse evaluation of [handleDrop] computed in binary64, as
    the code computes it, gives the answer of the evaluation with the exact
    quotient whenever the rows of the worker in the window are at stations
    of [STATIONS] and number at most 256: the sum of the counts is the
    number of those rows and is exact, and so are the quotient test and the
    comparison with 5. *)
Theorem overuse_check_exact_in_binary64 (table : list Row) (since : date)
    (w toStation : string) :
  let data :=
    filter (λ r, employee_id r = w ∧ since ≤ row_date r) table in
  let history := getEmployeeHistory table since w in
  Forall (λ r, row_station r ∈ STATIONS) data →
  (length data ≤ 256)%nat →
  Zsum (map_to_list history).*2 = Z.of_nat (length data) ∧
  overuseWarn64 history toStation = overuseWarn history toStation.
Proof.
  intros data history Hst Hlen.
  assert (Zsum (map_to_list history).*2 = Z.of_nat (length data)) as Hsum.
  { subst history. unfold getEmployeeHistory.
    change (foldl _ ∅ ?d) with (foldl countRow ∅ d).
    by rewrite countRows_sum, map_to_list_empty. }
  split; [done|].
  apply overuseWarn64_agrees.
  - apply getEmployeeHistory_pos.
  - transitivity (length STATIONS); [|simpl; lia].
    rewrite <- length_map_to_list,
      <- (length_fmap fst (map_to_list history)).
    apply submseteq_length, NoDup_submseteq.
    + apply NoDup_fst_map_to_list.
    + intros s ((s' & v) & -> & Hin%elem_of_map_to_list)%list_elem_of_fmap.
      simpl. subst history. unfold getEmployeeHistory in Hin.
      change (foldl _ ∅ ?d) with (foldl countRow ∅ d) in Hin.
      destruct (countRows_stations data ∅ s') as [[? Hm]|(r & Hr & <-)].
      * by eexists.
      * by rewrite lookup_empty in Hm.
      * by apply (proj1 (Forall_forall _ _) Hst).
  - rewrite Hsum. lia.
Qed.

(** ** Records in enumeration order *)

Lemma defineOwn_fmap_in {V} (f : string → V) (ks : list string) k :
  k ∈ ks → defineOwn ((λ s, (s, f s)) <$> ks) k (f k) = (λ s, (s, f s)) <$> ks.
Proof.
  induction ks as [|x ks IH]; intros Hk; [by apply elem_of_nil in Hk|].
  simpl. destruct (decide (x = k)) as [->|Hne]; [done|].
  f_equal. apply IH. apply elem_of_cons in Hk as [->|Hk]; done.
Qed.

Lemma defineOwn_fmap_fresh {V} (f : string → V) (ks : list string) k v :
  k ∉ ks →
  defineOwn ((λ s, (s, f s)) <$> ks) k v = ((λ s, (s, f s)) <$> ks) ++ [(k, v)].
Proof.
  induction ks as [|x ks IH]; intros Hk; [done|].
  simpl. rewrite decide_False by (intros ->; apply Hk; left).
  f_equal. apply IH. intros Hin. apply Hk. by right.
Qed.

Lemma defineOwn_fmap_last {V} (f : string → V) (ks : list string) k v :
  k ∉ ks →
  defineOwn (((λ s, (s, f s)) <$> ks) ++ [(k, v)]) k (f k) =
  (λ s, (s, f s)) <$> (ks ++ [k]).
Proof.
  induction ks as [|x ks IH]; intros Hk; simpl.
  - by rewrite decide_True.
  - rewrite decide_False by (intros ->; apply Hk; left).
    f_equal. apply IH. intros Hin. apply Hk. by right.
Qed.

Lemma jsGet_cons {V} (p : string * V) (o : JsRecord V) k :
  jsGet (p :: o) k = if decide (p.1 = k) then Some p.2 else jsGet o k.
Proof.
  unfold jsGet. simpl. destruct (decide (p.1 = k)) as [Heq|Hne].
  - by rewrite bool_decide_eq_true_2.
  - by rewrite bool_decide_eq_false_2.
Qed.

Lemma jsGet_fmap {V} (f : string → V) (ks : list string) k :
  jsGet ((λ s, (s, f s)) <$> ks) k = if decide (k ∈ ks) then Some (f k) else None.
Proof.
  induction ks as [|x ks IH]; [done|].
  rewrite fmap_cons, jsGet_cons, IH. simpl.
  destruct (decide (x = k)) as [->|Hne].
  - by rewrite decide_True by left.
  - destruct (decide (k ∈ ks)) as [Hin|Hin].
    + by rewrite decide_True by (by right).
    + rewrite decide_False; [done|].
      intros [->|?]%elem_of_cons; done.
Qed.

Lemma fst_pairs {V} (f : string → V) (ks : list string) :
  ((λ s, (s, f s)) <$> ks).*1 = ks.
Proof. induction ks as [|k ks IH]; [done|]. rewrite !fmap_cons. simpl. by f_equal. Qed.

Lemma elem_of_firsts l x : x ∈ firsts l ↔ x ∈ l.
Proof.
  induction l as [|y l IH]; simpl; [done|].
  rewrite !elem_of_cons, list_elem_of_filter, IH.
  destruct (decide (x = y)); tauto.
Qed.

Lemma NoDup_firsts l : NoDup (firsts l).
Proof.
  induction l as [|y l IH]; simpl; [apply NoDup_nil_2|].
  apply NoDup_cons. split; [|by apply NoDup_filter].
  by intros [Hne _]%list_elem_of_filter.
Qed.

Lemma firsts_app l k :
  firsts (l ++ k) = firsts l ++ filter (λ y, y ∉ l) (firsts k).
Proof.
  induction l as [|x l IH]; simpl.
  - symmetry. apply filter_all, Forall_forall. intros y _ Hy.
    by apply elem_of_nil in Hy.
  - f_equal. rewrite IH, filter_app, list_filter_filter. f_equal.
    apply list_filter_iff. intros y. rewrite elem_of_cons. tauto.
Qed.

Lemma jsSet_own {V} (o : JsRecord V) k v :
  k ≠ "__proto__" → jsSet o k v = defineOwn o k v.
Proof. intros Hk. unfold jsSet. by rewrite decide_False. Qed.

Lemma jsSet_fold {V} (f : string → V) (o : JsRecord V) (l : list string) :
  foldl (λ o s, jsSet o s (f s)) o l =
  foldl (λ o s, defineOwn o s (f s)) o (filter (λ s, s ≠ "__proto__") l).
Proof.
  revert o. induction l as [|x l IH]; intros o; [done|].
  simpl. rewrite filter_cons. unfold jsSet at 2.
  destruct (decide (x = "__proto__")) as [->|Hne].
  - rewrite decide_False by tauto. apply IH.
  - rewrite decide_True by done. simpl. apply IH.
Qed.

Lemma firsts_keys {V} (f : string → V) (l ks : list string) :
  foldl (λ o s, defineOwn o s (f s)) ((λ s, (s, f s)) <$> ks) l =
  (λ s, (s, f s)) <$> (ks ++ filter (λ y, y ∉ ks) (firsts l)).
Proof.
  revert ks. induction l as [|x l IH]; intros ks; simpl.
  - by rewrite filter_nil, app_nil_r.
  - destruct (decide (x ∈ ks)) as [Hin|Hout].
    + rewrite defineOwn_fmap_in, IH by done.
      rewrite filter_cons_False by tauto.
      rewrite list_filter_filter. do 2 f_equal.
      apply list_filter_iff. intros y. simpl. split; [|by intros [? ?]].
      intros Hy. split; [done|]. by intros ->.
    + rewrite defineOwn_fmap_fresh by done.
      change [(x, f x)] with ((λ s, (s, f s)) <$> [x]).
      rewrite <- fmap_app, IH.
      rewrite filter_cons_True by done.
      rewrite <- app_assoc. simpl. do 3 f_equal.
      rewrite list_filter_filter.
      apply list_filter_iff. intros y.
      rewrite elem_of_app, list_elem_of_singleton. tauto.
Qed.

Lemma jsEntries_perm {V} (o : JsRecord V) : jsEntries o ≡ₚ o.
Proof.
  unfold jsEntries. rewrite sort_perm. apply filter_app_complement.
Qed.

Lemma jsEntries_plain {V} (o : JsRecord V) :
  Forall (λ p, arrayIndex p.1 = None) o → jsEntries o = o.
Proof.
  intros Ho. unfold jsEntries. rewrite filter_none, filter_all; [done| |].
  - eapply Forall_impl; [exact Ho|]. simpl. intros p -> [? ?]. done.
  - intros p Hp [? Hs]. apply (proj1 (Forall_forall _ _) Ho) in Hp.
    simpl in Hp. by rewrite Hp in Hs.
Qed.

(** ** The least visited station of the tests *)

Lemma getStationVisitCounts_firsts availableStations history :
  getStationVisitCounts availableStations history =
  (λ s, (s, visitsAt history s)) <$>
    firsts (filter (λ s, s ≠ "__proto__") availableStations).
Proof.
  unfold getStationVisitCounts.
  etrans; [exact (jsSet_fold (visitsAt history) [] availableStations)|].
  etrans; [exact (firsts_keys (visitsAt history)
                    (filter (λ s, s ≠ "__proto__") availableStations) [])|].
  simpl. f_equal. apply filter_all, Forall_forall.
  intros y _ Hy. by apply elem_of_nil in Hy.
Qed.

Lemma least_spec (l : list (string * Z)) r c :
  foldl leastStep ("", None) l = (r, c) →
  (l = [] ∧ r = "" ∧ c = None) ∨
  (∃ v l1 l2, c = Some v ∧ l = l1 ++ (r, v) :: l2 ∧
     Forall (λ p, v < p.2) l1 ∧ Forall (λ p, v ≤ p.2) l2).
Proof.
  revert r c. induction l as [|p l IH] using rev_ind; intros r c.
  - simpl. intros [= <- <-]. by left.
  - rewrite foldl_app. simpl.
    destruct (foldl leastStep ("", None) l) as [r0 c0] eqn:Hl.
    destruct (IH r0 c0 eq_refl) as [(-> & -> & ->)|(v & l1 & l2 & -> & -> & H1 & H2)].
    + unfold leastStep. simpl. intros [= <- <-]. right.
      exists p.2, [], []. destruct p. repeat split; constructor.
    + unfold leastStep. simpl. case_decide as Hlt.
      * intros [= <- <-]. right.
        exists p.2, (l1 ++ (r0, v) :: l2), []. destruct p as [k w]. simpl in *.
        repeat split; [|constructor].
        apply Forall_app. split.
        -- eapply Forall_impl; [exact H1|]. simpl. lia.
        -- constructor; [simpl; lia|].
           eapply Forall_impl; [exact H2|]. simpl. lia.
      * intros [= <- <-]. right.
        exists v, l1, (l2 ++ [p]). rewrite <- app_assoc. simpl.
        repeat split; [done|].
        apply Forall_app. split; [done|]. constructor; [lia|constructor].
Qed.

Lemma minCount_spec (vs : list Z) :
  match foldl (λ m v, match m with
                      | Some c => Some (Z.min c v)
                      | None => Some v
                      end) None vs with
  | Some m => m ∈ vs ∧ Forall (λ v, m ≤ v) vs
  | None => vs = []
  end.
Proof.
  induction vs as [|v vs IH] using rev_ind; [done|].
  rewrite foldl_app. simpl.
  destruct (foldl _ None vs) as [m|].
  - destruct IH as [Hin Hall]. split.
    + apply elem_of_app.
      destruct (Z.min_spec m v) as [[_ ->]|[_ ->]]; [by left|right; left].
    + apply Forall_app. split.
      * eapply Forall_impl; [exact Hall|]. simpl. lia.
      * constructor; [lia|constructor].
  - subst vs. split; [left|]. constructor; [lia|constructor].
Qed.

Lemma app_cons_key_unique (l1 l2 k1 k2 : list (string * Z)) r v v' :
  l1 ++ (r, v) :: l2 = k1 ++ (r, v') :: k2 →
  NoDup (l1 ++ (r, v) :: l2).*1 → l1 = k1.
Proof.
  revert k1. induction l1 as [|p l1 IH]; intros k1 Heq Hnd.
  - destruct k1 as [|q k1]; [done|]. exfalso.
    simpl in Heq. injection Heq as <- Hl2. simpl in Hnd.
    apply NoDup_cons in Hnd as [Hr _]. apply Hr.
    rewrite Hl2, fmap_app, fmap_cons. apply elem_of_app. right. left.
  - destruct k1 as [|q k1].
    + exfalso. simpl in Heq. injection Heq as -> Hl2. simpl in Hnd.
      apply NoDup_cons in Hnd as [Hr _]. apply Hr.
      rewrite fmap_app, fmap_cons. apply elem_of_app. right. left.
    + simpl in Heq. injection Heq as -> Hrest. f_equal.
      apply IH; [done|]. simpl in Hnd. by apply NoDup_cons in Hnd as [_ ?].
Qed.

(** X22. The visit counts and the least visited station of the rotation
    tests. [getStationVisitCounts] gives every available station its number
    of visits and no other station an entry; the name [__proto__] apart,
    which gets no entry: the stations counted are the available stations
    other than that name, all of them when it is not listed.
    [getLeastVisitedStation] returns the empty string when no station is
    counted and otherwise a counted station with no more visits than any
    other; among several such stations, the names being no array indices,
    it is the one listed first, every station listed before it having
    strictly more visits. The [leastVisitedStations] of the tie-breaker
    test are exactly the counted stations of minimal count, each once. *)
Theorem least_visited_station (availableStations : list string)
    (history : list Visit) :
  let counts := getStationVisitCounts availableStations history in
  let counted := filter (λ s, s ≠ "__proto__") availableStations in
  let visits := visitsAt history in
  let least := getLeastVisitedStation counts in
  (∀ s, jsGet counts s =
        if decide (s ∈ availableStations ∧ s ≠ "__proto__")
        then Some (visits s) else None) ∧
  ("__proto__" ∉ availableStations → counted = availableStations) ∧
  (counted = [] → least = "") ∧
  (counted ≠ [] →
   least ∈ counted ∧ ∀ s, s ∈ counted → visits least ≤ visits s) ∧
  (∀ s, s ∈ leastVisitedStations counts ↔
        s ∈ counted ∧ ∀ s', s' ∈ counted → visits s ≤ visits s') ∧
  NoDup (leastVisitedStations counts) ∧
  (Forall (λ s, arrayIndex s = None) counted →
   ∀ before after, counted = before ++ least :: after →
     least ∉ before → Forall (λ s, visits least < visits s) before).
Proof.
  intros counts counted visits least.
  assert (counts = (λ s, (s, visits s)) <$> firsts counted)
    as Hcounts by apply getStationVisitCounts_firsts.
  assert (∀ s, s ∈ counted ↔ s ∈ availableStations ∧ s ≠ "__proto__")
    as Hcounted.
  { intros s. subst counted. rewrite list_elem_of_filter. tauto. }
  assert ("__proto__" ∉ availableStations → counted = availableStations)
    as Hsame0.
  { intros Hno. subst counted. apply filter_all, Forall_forall.
    by intros s Hs ->. }
  clearbody counted. subst least. clearbody counts. subst counts.
  set (counts := (λ s, (s, visits s)) <$> firsts counted).
  set (least := getLeastVisitedStation counts).
  assert (counts = (λ s, (s, visits s)) <$> firsts counted)
    as Hcounts by done.
  assert (∀ p, p ∈ jsEntries counts ↔
               p.1 ∈ counted ∧ p.2 = visits p.1) as Hentries.
  { intros [k v]. rewrite jsEntries_perm, Hcounts, list_elem_of_fmap.
    simpl. split.
    - intros (s & Heq & Hs). rewrite elem_of_firsts in Hs.
      injection Heq as -> ->. by split.
    - intros [Hk ->]. exists k. by rewrite elem_of_firsts. }
  assert (NoDup (jsEntries counts).*1) as Hnd.
  { rewrite jsEntries_perm, Hcounts, fst_pairs. apply NoDup_firsts. }
  split_and!.
  - intros s. rewrite Hcounts, jsGet_fmap.
    destruct (decide (s ∈ firsts counted)) as [Hs|Hs];
      rewrite elem_of_firsts, Hcounted in Hs.
    + by rewrite decide_True.
    + by rewrite decide_False.
  - exact Hsame0.
  - intros Hnil. subst least counts. by rewrite Hnil.
  - intros Hne. subst least. unfold getLeastVisitedStation.
    destruct (foldl leastStep ("", None) (jsEntries counts)) as [r c] eqn:Hl.
    apply least_spec in Hl
      as [(Hnil & _)|(v & l1 & l2 & -> & Hl & H1 & H2)].
    { exfalso. destruct counted as [|s0 l0]; [done|].
      assert ((s0, visits s0) ∈ jsEntries counts) as Hin
        by (apply Hentries; split; [left|done]).
      rewrite Hnil in Hin. by apply elem_of_nil in Hin. }
    simpl.
    assert ((r, v) ∈ jsEntries counts) as Hr
      by (rewrite Hl; apply elem_of_app; right; left).
    apply Hentries in Hr as [Hr Hv]. simpl in *. split; [done|].
    intros s Hs.
    assert ((s, visits s) ∈ jsEntries counts) as Hin
      by (by apply Hentries).
    rewrite Hl in Hin. rewrite <- Hv.
    apply elem_of_app in Hin as [Hin|Hin].
    + apply (proj1 (Forall_forall _ _) H1) in Hin. simpl in Hin. lia.
    + apply elem_of_cons in Hin as [[= _ <-]|Hin]; [lia|].
      by apply (proj1 (Forall_forall _ _) H2) in Hin.
  - intros s. unfold leastVisitedStations, minCountOf.
    pose proof (minCount_spec (jsEntries counts).*2) as Hmin.
    rewrite list_elem_of_fmap.
    destruct (foldl _ None (jsEntries counts).*2) as [m|].
    + destruct Hmin as [Hm Hall].
      apply list_elem_of_fmap in Hm as ([k0 v0] & -> & [Hk0 Hv0]%Hentries).
      simpl in *. subst v0. split.
      * intros ([k v] & -> & Hin).
        apply list_elem_of_filter in Hin as [Heq Hin]. simpl in Heq.
        injection Heq as Hv. apply Hentries in Hin as [Hk Hv'].
        simpl in *. split; [done|]. intros s' Hs'.
        rewrite <- Hv', Hv.
        assert (visits s' ∈ (jsEntries counts).*2) as Hin.
        { apply list_elem_of_fmap. exists (s', visits s'). split; [done|].
          by apply Hentries. }
        by apply (proj1 (Forall_forall _ _) Hall) in Hin.
      * intros [Hs Hle]. exists (s, visits s). split; [done|].
        apply list_elem_of_filter. split; [|by apply Hentries].
        simpl. f_equal. apply Z.le_antisymm; [by apply Hle|].
        assert (visits s ∈ (jsEntries counts).*2) as Hin.
        { apply list_elem_of_fmap. exists (s, visits s). split; [done|].
          by apply Hentries. }
        by apply (proj1 (Forall_forall _ _) Hall) in Hin.
    + apply fmap_nil_inv in Hmin. split.
      * intros (p & _ & [_ Hp]%list_elem_of_filter).
        rewrite Hmin in Hp. by apply elem_of_nil in Hp.
      * intros [Hs _].
        assert ((s, visits s) ∈ jsEntries counts) as Hin
          by (by apply Hentries).
        rewrite Hmin in Hin. by apply elem_of_nil in Hin.
  - unfold leastVisitedStations.
    eapply NoDup_fmap_sublist; [apply sublist_filter|exact Hnd].
  - intros Hplain before after Hav Hfresh.
    assert (jsEntries counts = counts) as Hsame.
    { apply jsEntries_plain. rewrite Hcounts. apply Forall_fmap, Forall_forall.
      intros s Hs. rewrite elem_of_firsts in Hs. simpl.
      by apply (proj1 (Forall_forall _ _) Hplain). }
    subst least. unfold getLeastVisitedStation in *.
    destruct (foldl leastStep ("", None) (jsEntries counts)) as [r c] eqn:Hl.
    simpl in *.
    apply least_spec in Hl
      as [(Hnil & _)|(v & l1 & l2 & -> & Hl & H1 & H2)].
    { exfalso.
      assert ((r, visits r) ∈ jsEntries counts) as Hin.
      { apply Hentries. split; [|done]. simpl. rewrite Hav.
        apply elem_of_app. right. left. }
      rewrite Hnil in Hin. by apply elem_of_nil in Hin. }
    assert (counts =
            ((λ s, (s, visits s)) <$> firsts before) ++
            (r, visits r) ::
            ((λ s, (s, visits s)) <$>
               filter (λ y, y ∉ before)
                 (filter (λ y, y ≠ r) (firsts after)))) as Hdec.
    { rewrite Hcounts, Hav, firsts_app. simpl.
      rewrite filter_cons_True by done.
      by rewrite fmap_app, fmap_cons. }
    rewrite Hsame in Hl, Hnd.
    assert (l1 = (λ s, (s, visits s)) <$> firsts before) as Hl1.
    { eapply app_cons_key_unique; [by rewrite <- Hl, Hdec|].
      by rewrite <- Hl. }
    assert (v = visits r) as ->.
    { assert ((r, v) ∈ jsEntries counts) as Hr
        by (rewrite Hsame, Hl; apply elem_of_app; right; left).
      by apply Hentries in Hr as [_ ?]. }
    apply Forall_forall. intros s Hs.
    assert ((s, visits s) ∈ l1) as Hin.
    { rewrite Hl1. apply list_elem_of_fmap. exists s.
      by rewrite elem_of_firsts. }
    by apply (proj1 (Forall_forall _ _) H1) in Hin.
Qed.

(** ** The groups of the history view *)

Lemma pairs_ext {V} (f f' : string → V) (ks : list string) :
  (∀ s, s ∈ ks → f s = f' s) →
  (λ s, (s, f s)) <$> ks = (λ s, (s, f' s)) <$> ks.
Proof.
  induction ks as [|x ks IH]; intros Hf; [done|].
  rewrite !fmap_cons, (Hf x) by left. f_equal.
  apply IH. intros s Hs. apply Hf. by right.
Qed.

Lemma defineOwn_fmap_update {V} (f f' : string → V) (ks : list string) k :
  NoDup ks → k ∈ ks → (∀ s, s ∈ ks → s ≠ k → f s = f' s) →
  defineOwn ((λ s, (s, f s)) <$> ks) k (f' k) = (λ s, (s, f' s)) <$> ks.
Proof.
  induction ks as [|x ks IH]; intros Hnd Hk Hf; [by apply elem_of_nil in Hk|].
  apply NoDup_cons in Hnd as [Hx Hnd].
  rewrite !fmap_cons. simpl. destruct (decide (x = k)) as [->|Hne].
  - f_equal. apply pairs_ext. intros s Hs. apply Hf; [by right|].
    by intros ->.
  - rewrite (Hf x) by (done || left). f_equal. apply IH; [done| |].
    + apply elem_of_cons in Hk as [->|Hk]; done.
    + intros s Hs. apply Hf. by right.
Qed.

Lemma firsts_snoc l x :
  firsts (l ++ [x]) = if decide (x ∈ l) then firsts l else firsts l ++ [x].
Proof.
  rewrite firsts_app. simpl. rewrite filter_nil.
  destruct (decide (x ∈ l)) as [Hin|Hout].
  - rewrite filter_cons_False by tauto. by rewrite filter_nil, app_nil_r.
  - by rewrite filter_cons_True by done.
Qed.

Lemma groupAt_snoc l a s :
  groupAt (l ++ [a]) s =
  if decide (HistoryView.station a = s) then groupAt l s ++ [a]
  else groupAt l s.
Proof.
  unfold groupAt. rewrite filter_app, filter_cons, filter_nil.
  case_decide; [done|]. by rewrite app_nil_r.
Qed.

Lemma groupAt_nil l s :
  s ∉ HistoryView.station <$> l → groupAt l s = [].
Proof.
  intros Hs. apply filter_none. intros a Ha Heq. apply Hs.
  rewrite <- Heq. by apply list_elem_of_fmap_2.
Qed.

Lemma groupStep_firsts l a :
  HistoryView.station a ∉ protoNames →
  HistoryView.groupStep
    ((λ s, (s, groupAt l s)) <$> firsts (HistoryView.station <$> l)) a =
  Some ((λ s, (s, groupAt (l ++ [a]) s)) <$>
          firsts (HistoryView.station <$> l ++ [a])).
Proof.
  intros Hplain.
  assert (HistoryView.station a ≠ "__proto__") as Hproto.
  { intros Heq. apply Hplain. rewrite Heq.
    apply (bool_decide_unpack _). vm_compute. exact I. }
  rewrite (fmap_app _ l [a]).
  change (HistoryView.station <$> [a]) with [HistoryView.station a].
  rewrite firsts_snoc.
  unfold HistoryView.groupStep. rewrite jsGet_fmap.
  destruct (decide (HistoryView.station a ∈ HistoryView.station <$> l))
    as [Hin|Hout].
  - rewrite decide_True by (by apply elem_of_firsts). f_equal.
    replace (groupAt l (HistoryView.station a) ++ [a])
      with (groupAt (l ++ [a]) (HistoryView.station a))
      by (by rewrite groupAt_snoc, decide_True).
    apply defineOwn_fmap_update.
    + apply NoDup_firsts.
    + by apply elem_of_firsts.
    + intros s _ Hne. by rewrite groupAt_snoc, decide_False.
  - rewrite decide_False by (by rewrite elem_of_firsts).
    rewrite decide_False by done. f_equal.
    rewrite jsSet_own by done.
    rewrite defineOwn_fmap_fresh by (by rewrite elem_of_firsts).
    assert (((λ s, (s, groupAt l s)) <$> firsts (HistoryView.station <$> l))
              ++ [(HistoryView.station a, [])] =
            (λ s, (s, groupAt l s)) <$>
              (firsts (HistoryView.station <$> l) ++ [HistoryView.station a]))
      as ->.
    { rewrite fmap_app. simpl. by rewrite groupAt_nil. }
    rewrite jsGet_fmap, decide_True by (apply elem_of_app; right; left).
    simpl.
    replace (groupAt l (HistoryView.station a) ++ [a])
      with (groupAt (l ++ [a]) (HistoryView.station a))
      by (by rewrite groupAt_snoc, decide_True).
    apply defineOwn_fmap_update.
    + apply NoDup_app. split; [apply NoDup_firsts|].
      split; [|apply NoDup_singleton].
      intros s Hs Hs'. apply list_elem_of_singleton in Hs'. subst s.
      by rewrite elem_of_firsts in Hs.
    + apply elem_of_app. right. left.
    + intros s _ Hne. by rewrite groupAt_snoc, decide_False.
Qed.

Lemma groupStep_throws l a :
  Forall (λ a, HistoryView.station a ∉ protoNames) l →
  HistoryView.station a ∈ protoNames →
  HistoryView.groupStep
    ((λ s, (s, groupAt l s)) <$> firsts (HistoryView.station <$> l)) a = None.
Proof.
  intros Hl Ha. unfold HistoryView.groupStep. rewrite jsGet_fmap.
  rewrite decide_False.
  - by rewrite decide_True.
  - rewrite elem_of_firsts.
    intros (b & Heq & Hb)%list_elem_of_fmap.
    apply (proj1 (Forall_forall _ _) Hl) in Hb. apply Hb. by rewrite <- Heq.
Qed.

Lemma groupByStation_snoc l a :
  HistoryView.groupByStation (l ++ [a]) =
  HistoryView.groupByStation l ≫= λ g, HistoryView.groupStep g a.
Proof. unfold HistoryView.groupByStation. by rewrite foldl_app. Qed.

Lemma groupByStation_firsts l :
  Forall (λ a, HistoryView.station a ∉ protoNames) l →
  HistoryView.groupByStation l =
  Some ((λ s, (s, groupAt l s)) <$> firsts (HistoryView.station <$> l)).
Proof.
  induction l as [|a l IH] using rev_ind; intros Hl; [done|].
  apply Forall_app in Hl as [Hl Ha].
  apply Forall_cons in Ha as [Ha _].
  rewrite groupByStation_snoc, IH by done. simpl.
  by apply groupStep_firsts.
Qed.

Lemma groupByStation_throws l :
  Exists (λ a, HistoryView.station a ∈ protoNames) l →
  HistoryView.groupByStation l = None.
Proof.
  induction l as [|a l IH] using rev_ind; intros Hl.
  { by apply Exists_nil in Hl. }
  rewrite groupByStation_snoc.
  destruct (decide (Exists (λ a, HistoryView.station a ∈ protoNames) l))
    as [Hex|Hall].
  - by rewrite IH.
  - apply not_Exists_Forall in Hall; [|intros b; apply _].
    apply Exists_app in Hl as [Hl|Hl]; [by rewrite IH|].
    apply Exists_cons in Hl as [Ha|Hnil]; [|by apply Exists_nil in Hnil].
    rewrite groupByStation_firsts.
    + simpl. by apply groupStep_throws.
    + eapply Forall_impl; [exact Hall|]. done.
Qed.

Lemma groups_join (l : list HistoryView.Assignment) (ks : list string) :
  NoDup ks → (∀ a, a ∈ l → HistoryView.station a ∈ ks) →
  mjoin (groupAt l <$> ks) ≡ₚ l.
Proof.
  intros Hnd. revert l. induction Hnd as [|k ks Hk Hnd IH]; intros l Hl.
  - destruct l as [|a l]; [done|].
    specialize (Hl a (list_elem_of_here _ _)). by apply elem_of_nil in Hl.
  - rewrite fmap_cons. simpl.
    transitivity (filter (λ a, HistoryView.station a = k) l ++
                  filter (λ a, ¬ HistoryView.station a = k) l);
      [|apply filter_app_complement].
    apply Permutation_app; [done|].
    assert (groupAt l <$> ks =
            groupAt (filter (λ a, ¬ HistoryView.station a = k) l) <$> ks)
      as ->.
    { apply list_fmap_ext. intros i s Hs. unfold groupAt.
      rewrite list_filter_filter. apply list_filter_iff. intros a.
      split; [|tauto]. intros Ha. split; [done|]. intros Hak.
      apply Hk. rewrite <- Hak, Ha. by eapply list_elem_of_lookup_2. }
    apply IH. intros a [Hne Ha]%list_elem_of_filter.
    apply Hl in Ha. apply elem_of_cons in Ha as [?|?]; done.
Qed.

(** X23. The day cards of the history view. [groupByStation] throws, and
    with it the rendering of the card, exactly when an assignment of the
    day is at a station named as a property of [Object.prototype].
    Otherwise it splits the assignments of the day by station: the card
    shows each station that has an assignment on that day once, with
    exactly the assignments of the day at that station, in the order of
    the query, and shows no station without one; the badges of the card
    are the assignments of the day, none lost and none shown twice. The
    stations come in the order in which they first occur, station names
    that are no array indices. *)
Theorem day_card_groups (assignments : list HistoryView.Assignment)
    (date : string) :
  let day := HistoryView.getAssignmentsByDate assignments date in
  let card := HistoryView.dayCard assignments date in
  (card = None ↔ Exists (λ a, HistoryView.station a ∈ protoNames) day) ∧
  (is_Some card ↔ Forall (λ a, HistoryView.station a ∉ protoNames) day) ∧
  (∀ groups, card = Some groups →
     NoDup groups.*1 ∧
     (∀ s g, (s, g) ∈ groups ↔
             s ∈ HistoryView.station <$> day ∧
             g = filter (λ a, HistoryView.station a = s) day) ∧
     Forall (λ p, p.2 ≠ []) groups ∧
     mjoin groups.*2 ≡ₚ day ∧
     (Forall (λ a, arrayIndex (HistoryView.station a) = None) day →
      groups.*1 = firsts (HistoryView.station <$> day))).
Proof.
  intros day card.
  assert (Forall (λ a, HistoryView.station a ∉ protoNames) day →
          card = Some (jsEntries ((λ s, (s, groupAt day s)) <$>
                         firsts (HistoryView.station <$> day)))) as Hsome.
  { intros Hplain. subst card. unfold HistoryView.dayCard.
    fold day. by rewrite groupByStation_firsts. }
  assert (Exists (λ a, HistoryView.station a ∈ protoNames) day →
          card = None) as Hnone.
  { intros Hex. subst card. unfold HistoryView.dayCard.
    fold day. by rewrite groupByStation_throws. }
  assert (card = None ↔
          Exists (λ a, HistoryView.station a ∈ protoNames) day) as Hthrows.
  { split; [|exact Hnone]. intros Hcard.
    destruct (decide (Exists (λ a, HistoryView.station a ∈ protoNames) day))
      as [Hex|Hall]; [done|].
    apply not_Exists_Forall in Hall; [|intros b; apply _].
    rewrite Hsome in Hcard; [done|].
    eapply Forall_impl; [exact Hall|]. done. }
  assert (is_Some card ↔
          Forall (λ a, HistoryView.station a ∉ protoNames) day) as Hshown.
  { split.
    - intros [groups Hcard]. apply Forall_forall. intros a Ha Hproto.
      assert (card = None) as Hn
        by (apply Hnone, Exists_exists; by exists a).
      by rewrite Hn in Hcard.
    - intros Hplain. rewrite Hsome by done. by eexists. }
  split_and!; [exact Hthrows|exact Hshown|].
  intros groups Hcard.
  assert (Forall (λ a, HistoryView.station a ∉ protoNames) day) as Hplain.
  { apply Hshown. by exists groups. }
  rewrite Hsome in Hcard by done. injection Hcard as Hgroups.
  clear Hsome Hnone Hthrows Hshown. clearbody card.
  assert (groups ≡ₚ (λ s, (s, groupAt day s)) <$>
                      firsts (HistoryView.station <$> day)) as Hperm.
  { rewrite <- Hgroups. apply jsEntries_perm. }
  assert (∀ s g, (s, g) ∈ groups ↔
            s ∈ HistoryView.station <$> day ∧ g = groupAt day s) as Hmem.
  { intros s g. rewrite Hperm, list_elem_of_fmap. split.
    - intros (s' & Heq & Hs'). rewrite elem_of_firsts in Hs'.
      injection Heq as -> ->. by split.
    - intros [Hs ->]. exists s. by rewrite elem_of_firsts. }
  split_and!.
  - rewrite Hperm, fst_pairs. apply NoDup_firsts.
  - exact Hmem.
  - apply Forall_forall. intros [s g] [Hs ->]%Hmem. simpl.
    apply list_elem_of_fmap in Hs as (a & -> & Ha). intros Hnil.
    assert (a ∈ groupAt day (HistoryView.station a)) as Hin
      by (by apply list_elem_of_filter).
    rewrite Hnil in Hin. by apply elem_of_nil in Hin.
  - rewrite Hperm, <- list_fmap_compose.
    apply (groups_join day); [apply NoDup_firsts|].
    intros a Ha. apply elem_of_firsts. by apply list_elem_of_fmap_2.
  - intros Hidx. rewrite <- Hgroups.
    rewrite jsEntries_plain.
    + apply fst_pairs.
    + apply Forall_fmap, Forall_forall. intros s Hs.
      rewrite elem_of_firsts in Hs. simpl.
      apply list_elem_of_fmap in Hs as (a & -> & Ha).
      by apply (proj1 (Forall_forall _ _) Hidx).
Qed.

(** ** The drops on numbered positions *)

Lemma shown_app a b :
  Positions.shown (a ++ b) = Positions.shown a ++ Positions.shown b.
Proof. apply omap_app. Qed.

Lemma shown_spread arr : Positions.shown (Positions.spread arr) = Positions.shown arr.
Proof.
  unfold Positions.shown, Positions.spread.
  induction arr as [|x arr IH]; [done|].
  rewrite fmap_cons. destruct x as [| |j]; simpl; try exact IH.
  destruct (decide (j = "")); [exact IH|]. f_equal. exact IH.
Qed.

Lemma shown_filterOut arr i :
  Positions.shown (Positions.filterOut arr i) =
  filter (λ x, x ≠ i) (Positions.shown arr).
Proof.
  unfold Positions.shown, Positions.filterOut.
  induction arr as [|x arr IH]; [done|].
  rewrite filter_cons. destruct x as [| |j].
  - rewrite decide_False by tauto. exact IH.
  - rewrite decide_True by done. exact IH.
  - destruct (decide (j = i)) as [->|Hne].
    + rewrite decide_False by tauto. simpl.
      destruct (decide (i = "")); [exact IH|].
      rewrite filter_cons_False by tauto. exact IH.
    + rewrite decide_True by (split; congruence). simpl.
      destruct (decide (j = "")); [exact IH|].
      rewrite filter_cons_True by done. f_equal. exact IH.
Qed.

Lemma shown_replicate_Hole k : Positions.shown (replicate k Positions.Hole) = [].
Proof. induction k; [done|]. simpl. done. Qed.

Lemma shown_emptyPositions k : Positions.shown (Positions.emptyPositions k) = [].
Proof. induction k; [done|]. simpl. done. Qed.

Lemma shown_Id i : i ≠ "" → Positions.shown [Positions.Id i] = [i].
Proof. intros Hi. unfold Positions.shown. simpl. by rewrite decide_False. Qed.

Lemma shown_setAt arr n i :
  i ≠ "" →
  Positions.shown (Positions.setAt arr n (Positions.Id i)) =
  Positions.shown (take n arr) ++ i :: Positions.shown (drop (S n) arr).
Proof.
  intros Hi. unfold Positions.setAt. case_decide as Hn.
  - rewrite insert_take_drop by done.
    rewrite shown_app. f_equal.
    change (Positions.Id i :: ?l) with ([Positions.Id i] ++ l).
    by rewrite shown_app, shown_Id.
  - rewrite take_ge, drop_ge by lia.
    by rewrite !shown_app, shown_replicate_Hole, shown_Id.
Qed.

Lemma shown_split arr n :
  Positions.shown arr =
  Positions.shown (take n arr) ++
  Positions.shown (take 1 (drop n arr)) ++ Positions.shown (drop (S n) arr).
Proof.
  rewrite <- !shown_app. f_equal.
  rewrite <- (take_drop n arr) at 1. f_equal.
  rewrite <- (take_drop 1 (drop n arr)) at 1. f_equal.
  by rewrite drop_drop, Nat.add_1_r.
Qed.

Lemma shown_elem arr x :
  x ∈ Positions.shown arr ↔ Positions.Id x ∈ arr ∧ x ≠ "".
Proof.
  unfold Positions.shown. rewrite list_elem_of_omap. split.
  - intros ([| |j] & Hin & Hx); try done.
    destruct (decide (j = "")); [done|]. injection Hx as ->. done.
  - intros [Hin Hx]. exists (Positions.Id x). split; [done|].
    by rewrite decide_False.
Qed.

Lemma shown_middle arr n x :
  x ∈ Positions.shown (take 1 (drop n arr)) ↔
  arr !! n = Some (Positions.Id x) ∧ x ≠ "".
Proof.
  rewrite shown_elem.
  destruct (drop n arr) as [|y l] eqn:Hd.
  - simpl. rewrite elem_of_nil.
    assert (arr !! n = None) as ->; [|by intuition].
    apply lookup_ge_None. apply drop_nil_inv in Hd. lia.
  - assert (arr !! n = Some y) as ->.
    { rewrite <- (Nat.add_0_r n), <- lookup_drop, Hd. done. }
    simpl. rewrite list_elem_of_singleton. split.
    + intros [<- ?]. done.
    + intros [[= ->] ?]. done.
Qed.

Lemma shown_around arr n x :
  NoDup (Positions.shown arr) →
  x ∈ Positions.shown (take n arr) ++ Positions.shown (drop (S n) arr) ↔
  x ∈ Positions.shown arr ∧ arr !! n ≠ Some (Positions.Id x).
Proof.
  intros Hnd. rewrite (shown_split arr n) in Hnd |- *.
  apply NoDup_app in Hnd as (_ & Hleft & Hnd).
  apply NoDup_app in Hnd as (_ & Hmid & _).
  rewrite !elem_of_app. split.
  - intros [Hx|Hx].
    + split; [by left|]. intros Hn.
      apply (Hleft x Hx). apply elem_of_app. left.
      apply shown_middle. split; [done|]. by apply shown_elem in Hx as [_ ?].
    + split; [by right; right|]. intros Hn.
      apply (Hmid x); [|done].
      apply shown_middle. split; [done|]. by apply shown_elem in Hx as [_ ?].
  - intros [[Hx|[Hx|Hx]] Hn]; [by left| |by right].
    exfalso. apply Hn. by apply shown_middle in Hx as [? _].
Qed.

Lemma shown_setAt_spec arr t i :
  i ≠ "" → NoDup (Positions.shown arr) → i ∉ Positions.shown arr →
  let arr' := Positions.setAt (Positions.spread arr) t (Positions.Id i) in
  NoDup (Positions.shown arr') ∧
  ∀ x, x ∈ Positions.shown arr' ↔
       x = i ∨ (x ∈ Positions.shown arr ∧ arr !! t ≠ Some (Positions.Id x)).
Proof.
  intros Hi Hnd Hout arr'. subst arr'.
  rewrite shown_setAt by done.
  unfold Positions.spread. rewrite <- fmap_take, <- fmap_drop.
  fold (Positions.spread (take t arr)).
  fold (Positions.spread (drop (S t) arr)).
  rewrite !shown_spread.
  assert (∀ x, x ∈ Positions.shown (take t arr) ++
                   Positions.shown (drop (S t) arr) →
               x ∈ Positions.shown arr) as Hsub.
  { intros x Hx. by apply shown_around in Hx as [? _]. }
  split.
  - apply NoDup_app. split_and!.
    + rewrite (shown_split arr t) in Hnd. by apply NoDup_app in Hnd as (? & _).
    + intros x Hx [->|Hx']%elem_of_cons.
      * apply Hout, Hsub, elem_of_app. by left.
      * rewrite (shown_split arr t) in Hnd.
        apply NoDup_app in Hnd as (_ & Hleft & _).
        apply (Hleft x Hx). apply elem_of_app. by right.
    + apply NoDup_cons. split.
      * intros Hx. apply Hout, Hsub, elem_of_app. by right.
      * rewrite (shown_split arr t) in Hnd.
        apply NoDup_app in Hnd as (_ & _ & Hnd).
        by apply NoDup_app in Hnd as (_ & _ & ?).
  - intros x. rewrite <- (shown_around arr t x) by done.
    rewrite !elem_of_app, elem_of_cons. tauto.
Qed.

Lemma indexOf_Some src i k :
  Positions.indexOf src i = Some k → src !! k = Some (Positions.Id i).
Proof.
  unfold Positions.indexOf. destruct (list_find _ src) as [[k' y]|] eqn:Hf; [|done].
  simpl. intros [= ->]. apply list_find_Some in Hf as (Hk & -> & _). done.
Qed.

Lemma indexOf_None src i :
  Positions.indexOf src i = None → i ∉ Positions.shown src.
Proof.
  unfold Positions.indexOf. destruct (list_find _ src) as [[k' y]|] eqn:Hf; [done|].
  intros _ [Hin _]%shown_elem.
  apply list_find_None in Hf. by apply (proj1 (Forall_forall _ _) Hf) in Hin.
Qed.

Lemma lookup_spread_Id src t x :
  Positions.spread src !! t = Some (Positions.Id x) ↔
  src !! t = Some (Positions.Id x).
Proof.
  unfold Positions.spread. rewrite list_lookup_fmap.
  destruct (src !! t) as [[| |j]|]; simpl; split; congruence.
Qed.

Lemma vacated_spec src k i :
  NoDup (Positions.shown src) → src !! k = Some (Positions.Id i) →
  let arr := <[k := Positions.Id ""]> (Positions.spread src) in
  NoDup (Positions.shown arr) ∧
  (∀ x, x ∈ Positions.shown arr ↔ x ∈ Positions.shown src ∧ x ≠ i) ∧
  (∀ x t, x ≠ "" → x ≠ i →
     arr !! t = Some (Positions.Id x) ↔ src !! t = Some (Positions.Id x)) ∧
  length arr = length src.
Proof.
  intros Hnd Hk arr.
  assert (k < length src)%nat as Hlt by (by eapply lookup_lt_Some).
  assert (Positions.shown arr =
          Positions.shown (take k src) ++ Positions.shown (drop (S k) src))
    as Hshown.
  { subst arr. rewrite insert_take_drop
      by (unfold Positions.spread; by rewrite length_fmap).
    unfold Positions.spread. rewrite <- fmap_take, <- fmap_drop.
    fold (Positions.spread (take k src)).
    fold (Positions.spread (drop (S k) src)).
    rewrite shown_app.
    change (Positions.Id "" :: ?l) with ([Positions.Id ""] ++ l).
    by rewrite shown_app, !shown_spread. }
  split_and!.
  - rewrite Hshown. rewrite (shown_split src k) in Hnd.
    apply NoDup_app in Hnd as (Hl & Hdisj & Hnd).
    apply NoDup_app in Hnd as (_ & _ & Hr).
    apply NoDup_app. split_and!; [done| |done].
    intros x Hx Hx'. apply (Hdisj x Hx). apply elem_of_app. by right.
  - intros x. rewrite Hshown, shown_around by done. split.
    + intros [Hx Hne]. split; [done|]. intros ->. done.
    + intros [Hx Hne]. split; [done|]. rewrite Hk. congruence.
  - intros x t Hx Hxi. subst arr.
    destruct (decide (t = k)) as [->|Hne].
    + rewrite list_lookup_insert_eq
        by (unfold Positions.spread; by rewrite length_fmap).
      rewrite Hk. split; congruence.
    + rewrite list_lookup_insert_ne by done. apply lookup_spread_Id.
  - subst arr. unfold Positions.spread.
    by rewrite length_insert, length_fmap.
Qed.

Lemma dropUpdater_cross i from station t (m : gmap string (list Positions.Slot)) src :
  from ≠ station → m !! from = Some src →
  Positions.dropUpdater i from station t m =
  Some (<[station := Positions.setAt
                       (Positions.spread (Positions.baseOf m station)) t
                       (Positions.Id i)]>
          (<[from := Positions.filterOut src i]> m)).
Proof.
  intros Hne Hfrom. unfold Positions.dropUpdater, Positions.baseOf.
  rewrite Hfrom. simpl. rewrite decide_False by done.
  rewrite lookup_insert_ne by done.
  destruct (m !! station) as [arr|] eqn:Hst.
  - by rewrite lookup_insert_ne, Hst by done.
  - rewrite lookup_insert_eq. simpl. by rewrite insert_insert_eq.
Qed.

Lemma dropUpdater_same i station t (m : gmap string (list Positions.Slot)) src :
  m !! station = Some src →
  Positions.dropUpdater i station station t m =
  Some (<[station :=
            Positions.setAt
              (Positions.spread
                 (match Positions.indexOf src i with
                  | Some k => <[k := Positions.Id ""]> (Positions.spread src)
                  | None => src
                  end)) t (Positions.Id i)]> m).
Proof.
  intros Hst. unfold Positions.dropUpdater.
  rewrite Hst. simpl. rewrite decide_True by done.
  destruct (Positions.indexOf src i) as [k|].
  - rewrite !lookup_insert_eq. simpl. by rewrite insert_insert_eq.
  - rewrite Hst. simpl. by rewrite Hst.
Qed.

Lemma length_setAt arr t v :
  length (Positions.setAt arr t v) = Nat.max (length arr) (S t).
Proof.
  unfold Positions.setAt. case_decide.
  - rewrite length_insert. lia.
  - rewrite !length_app, length_replicate. simpl. lia.
Qed.

Lemma lookup_setAt arr t v : Positions.setAt arr t v !! t = Some v.
Proof.
  unfold Positions.setAt. case_decide.
  - by apply list_lookup_insert_eq.
  - rewrite lookup_app_r by lia.
    rewrite lookup_app_r by (rewrite length_replicate; lia).
    rewrite length_replicate.
    by replace (t - length arr - (t - length arr))%nat with 0%nat by lia.
Qed.

(** X24. A drop on a numbered position, a worker being dragged from a
    station: the update throws exactly when the station dragged from has no
    array; otherwise the drag is cleared, position [targetIdx] of the
    station dropped on holds the worker, its array being as long as before
    (twelve free positions for a [Pack] without array, six for another
    station) unless the position lies past its end, and the arrays of the
    stations other than the two are left alone. *)
Theorem position_drop_result (st : Positions.State) (d : Positions.Dragged)
    (from station : string) (targetIdx : nat) :
  Positions.draggedEmployee st = Some d →
  Positions.draggedFrom st = Some from → from ≠ "" →
  (Positions.handleDropOnPackPosition st station targetIdx = None ↔
   Positions.assignments st !! from = None) ∧
  ∀ st', Positions.handleDropOnPackPosition st station targetIdx = Some st' →
    Positions.draggedEmployee st' = None ∧
    Positions.draggedFrom st' = None ∧
    (∃ arr, Positions.assignments st' !! station = Some arr ∧
            arr !! targetIdx = Some (Positions.Id (Positions.d_id d)) ∧
            length arr =
              Nat.max
                (length (Positions.baseOf (Positions.assignments st) station))
                (S targetIdx)) ∧
    (∀ s, s ≠ station → s ≠ from →
          Positions.assignments st' !! s = Positions.assignments st !! s).
Proof.
  intros Hd Hfrom Hne. unfold Positions.handleDropOnPackPosition.
  rewrite Hd, Hfrom, decide_False by done.
  destruct (Positions.assignments st !! from) as [src|] eqn:Hsrc.
  2:{ unfold Positions.dropUpdater. rewrite Hsrc. simpl.
      split; [done|]. intros st' [=]. }
  split.
  { unfold Positions.dropUpdater. rewrite Hsrc. simpl. split; intros [=]. }
  intros st'. destruct (decide (from = station)) as [->|Hcross].
  - rewrite (dropUpdater_same _ _ _ _ src) by done. simpl.
    intros [= <-]. simpl. split_and!; [done..| |].
    + eexists. split; [apply lookup_insert_eq|].
      split; [apply lookup_setAt|].
      rewrite length_setAt. unfold Positions.baseOf. rewrite Hsrc.
      unfold Positions.spread at 1. rewrite length_fmap.
      destruct (Positions.indexOf src (Positions.d_id d)); [|done].
      unfold Positions.spread. by rewrite length_insert, length_fmap.
    + intros s Hs _. by rewrite lookup_insert_ne.
  - rewrite (dropUpdater_cross _ _ _ _ _ src) by done. simpl.
    intros [= <-]. simpl. split_and!; [done..| |].
    + eexists. split; [apply lookup_insert_eq|].
      split; [apply lookup_setAt|].
      rewrite length_setAt. unfold Positions.spread. by rewrite length_fmap.
    + intros s Hs Hs'. by rewrite !lookup_insert_ne.
Qed.

Lemma shownAt_insert_eq (m : gmap string (list Positions.Slot)) s arr :
  Positions.shownAt (<[s := arr]> m) s = Positions.shown arr.
Proof. unfold Positions.shownAt, Positions.assigned. by rewrite lookup_insert_eq. Qed.

Lemma shownAt_insert_ne (m : gmap string (list Positions.Slot)) s s' arr :
  s ≠ s' →
  Positions.shownAt (<[s := arr]> m) s' = Positions.shownAt m s'.
Proof.
  intros Hne. unfold Positions.shownAt, Positions.assigned.
  by rewrite lookup_insert_ne.
Qed.

Lemma apart_after (m m' : gmap string (list Positions.Slot))
    (w from station : string) (t : nat) :
  Positions.Apart m → w ∈ Positions.shownAt m from →
  NoDup (Positions.shownAt m' station) →
  (∀ x, x ∈ Positions.shownAt m' station ↔
        x = w ∨ (x ∈ Positions.shownAt m station ∧ x ≠ w ∧
                 Positions.assigned m station !! t ≠ Some (Positions.Id x))) →
  (from ≠ station →
   Positions.shownAt m' from = filter (λ x, x ≠ w) (Positions.shownAt m from)) →
  (∀ s, s ≠ station → s ≠ from →
        Positions.shownAt m' s = Positions.shownAt m s) →
  Positions.Apart m' ∧
  (∀ x, x ∈ Positions.shownAt m' station ↔
        x = w ∨ (x ∈ Positions.shownAt m station ∧ x ≠ w ∧
                 Positions.assigned m station !! t ≠ Some (Positions.Id x))) ∧
  (from ≠ station →
   Positions.shownAt m' from = filter (λ x, x ≠ w) (Positions.shownAt m from)) ∧
  (∀ s, s ≠ station → s ≠ from →
        Positions.shownAt m' s = Positions.shownAt m s) ∧
  (∀ x, Positions.assigned m station !! t = Some (Positions.Id x) → x ≠ w →
        ∀ s, x ∉ Positions.shownAt m' s).
Proof.
  intros [Hnd Hdisj] Hw Hnd' Hst Hfrom Hother.
  assert (∀ s x, x ∈ Positions.shownAt m' s →
            (x = w ∧ s = station) ∨
            (x ≠ w ∧ x ∈ Positions.shownAt m s ∧
             (s = station →
              Positions.assigned m station !! t ≠ Some (Positions.Id x))))
    as Hwhere.
  { intros s x Hx. destruct (decide (s = station)) as [->|Hs].
    - apply Hst in Hx as [->|(Hx & Hne & Ht)]; [by left|by right].
    - right. destruct (decide (s = from)) as [->|Hs'].
      + rewrite Hfrom in Hx by done.
        apply list_elem_of_filter in Hx as [? ?]. done.
      + rewrite Hother in Hx by done. split_and!; [|done|done].
        intros ->. by apply Hs', (Hdisj s from w). }
  split_and!; [split|done|done|done|].
  - intros s. destruct (decide (s = station)) as [->|Hs]; [done|].
    destruct (decide (s = from)) as [->|Hs'].
    + rewrite Hfrom by done. by apply NoDup_filter.
    + by rewrite Hother.
  - intros s1 s2 x H1 H2.
    apply Hwhere in H1 as [[-> ->]|(Hne1 & H1 & _)];
      apply Hwhere in H2 as [[? ->]|(Hne2 & H2 & _)]; try done.
    by apply (Hdisj s1 s2 x).
  - intros x Ht Hxw s Hx.
    apply Hwhere in Hx as [[-> _]|(_ & Hx & Hs)]; [done|].
    assert (x ≠ "") as Hx0 by (by apply shown_elem in Hx as [_ ?]).
    assert (x ∈ Positions.shownAt m station) as Hxst.
    { apply shown_elem. split; [|done]. by eapply list_elem_of_lookup_2. }
    assert (s = station) as -> by (by apply (Hdisj s station x)).
    by apply Hs.
Qed.

(** X25. A drop on a numbered position keeps the workers apart. When
    no worker stands at two positions and the worker dragged stands at the
    station dragged from, the drop succeeds and again no worker stands at
    two positions; at the station dropped on stand the worker and those
    who stood there before, but for the one who had the position dropped
    on; at the station dragged from, when it is another one, the others
    stay in their order; the other stations keep their workers. The worker
    who had the position dropped on stands nowhere any more. *)
Theorem position_drop_keeps_workers_apart (st : Positions.State)
    (d : Positions.Dragged) (from station : string) (targetIdx : nat) :
  Positions.draggedEmployee st = Some d →
  Positions.draggedFrom st = Some from → from ≠ "" →
  Positions.d_id d ∈ Positions.shownAt (Positions.assignments st) from →
  Positions.Apart (Positions.assignments st) →
  let m := Positions.assignments st in
  let w := Positions.d_id d in
  ∃ st', Positions.handleDropOnPackPosition st station targetIdx = Some st' ∧
    let m' := Positions.assignments st' in
    Positions.Apart m' ∧
    (∀ x, x ∈ Positions.shownAt m' station ↔
          x = w ∨ (x ∈ Positions.shownAt m station ∧ x ≠ w ∧
                   Positions.assigned m station !! targetIdx ≠
                     Some (Positions.Id x))) ∧
    (from ≠ station →
     Positions.shownAt m' from =
       filter (λ x, x ≠ w) (Positions.shownAt m from)) ∧
    (∀ s, s ≠ station → s ≠ from →
          Positions.shownAt m' s = Positions.shownAt m s) ∧
    (∀ x, Positions.assigned m station !! targetIdx = Some (Positions.Id x) →
          x ≠ w → ∀ s, x ∉ Positions.shownAt m' s).
Proof.
  intros Hd Hfrom Hne Hw Hapart m w.
  assert (w ≠ "") as Hw0 by (by apply shown_elem in Hw as [_ ?]).
  destruct (m !! from) as [src|] eqn:Hsrc.
  2:{ unfold Positions.shownAt, Positions.assigned in Hw. fold m in Hw.
      rewrite Hsrc in Hw. by apply elem_of_nil in Hw. }
  assert (Positions.shownAt m from = Positions.shown src) as Hshown
    by (unfold Positions.shownAt, Positions.assigned; by rewrite Hsrc).
  unfold Positions.handleDropOnPackPosition.
  rewrite Hd, Hfrom, decide_False by done. fold m w.
  pose proof Hapart as [Hnd Hdisj].
  destruct (decide (from = station)) as [->|Hcross].
  - rewrite (dropUpdater_same _ _ _ _ src) by done. simpl.
    eexists. split; [done|]. simpl.
    destruct (Positions.indexOf src w) as [k|] eqn:Hidx.
    2:{ apply indexOf_None in Hidx. by rewrite <- Hshown in Hidx. }
    apply indexOf_Some in Hidx.
    destruct (vacated_spec src k w) as (Hvnd & Hvel & Hvlk & _);
      [by rewrite <- Hshown|done|].
    destruct (shown_setAt_spec (<[k:=Positions.Id ""]> (Positions.spread src))
                targetIdx w) as [Hsnd Hsel]; [done|done| |].
    { rewrite Hvel. tauto. }
    apply (apart_after m _ w _ station targetIdx); [done|done|..].
    + by rewrite shownAt_insert_eq.
    + intros x. rewrite shownAt_insert_eq, Hsel, Hvel, Hshown.
      unfold Positions.assigned. rewrite Hsrc. simpl. split.
      * intros [->|[[Hx Hxw] Ht]]; [by left|right].
        split_and!; [done..|].
        rewrite <- Hvlk; [done| |done]. by apply shown_elem in Hx as [_ ?].
      * intros [->|(Hx & Hxw & Ht)]; [by left|right].
        split; [done|].
        rewrite Hvlk; [done| |done]. by apply shown_elem in Hx as [_ ?].
    + done.
    + intros s Hs _. by rewrite shownAt_insert_ne.
  - rewrite (dropUpdater_cross _ _ _ _ _ src) by done. simpl.
    eexists. split; [done|]. simpl.
    assert (Positions.shown (Positions.baseOf m station) =
            Positions.shownAt m station) as Hbase.
    { unfold Positions.baseOf, Positions.shownAt, Positions.assigned.
      destruct (m !! station); [done|]. apply shown_emptyPositions. }
    destruct (shown_setAt_spec (Positions.baseOf m station) targetIdx w)
      as [Hsnd Hsel]; [done| | |].
    { rewrite Hbase. apply Hnd. }
    { rewrite Hbase. intros Hin. by apply Hcross, (Hdisj from station w). }
    apply (apart_after m _ w _ station targetIdx); [done|done|..].
    + by rewrite shownAt_insert_eq.
    + intros x. rewrite shownAt_insert_eq, Hsel, Hbase.
      assert (x ∈ Positions.shownAt m station →
              (Positions.baseOf m station !! targetIdx ≠ Some (Positions.Id x) ↔
               Positions.assigned m station !! targetIdx ≠
                 Some (Positions.Id x))) as Hsame.
      { unfold Positions.baseOf, Positions.shownAt, Positions.assigned.
        destruct (m !! station); [done|]. by intros ?%elem_of_nil. }
      split.
      * intros [->|[Hx Ht]]; [by left|right]. split_and!; [done| |by apply Hsame].
        intros ->. by apply Hcross, (Hdisj from station w).
      * intros [->|(Hx & _ & Ht)]; [by left|right]. split; [done|].
        by apply Hsame.
    + intros _. rewrite shownAt_insert_ne by done.
      by rewrite shownAt_insert_eq, shown_filterOut, Hshown.
    + intros s Hs Hs'. by rewrite !shownAt_insert_ne.
Qed.

(** ** What a warning takes *)

Lemma Zsum_ge (l : list Z) c :
  Forall (λ v, c ≤ v) l → c * Z.of_nat (length l) ≤ Zsum l.
Proof. induction 1 as [|v l Hv _ IH]; simpl; lia. Qed.

Lemma overuseWarn_rarer (history : gmap string Z) toStation :
  overuseWarn history toStation = true →
  5 < stationCountOf history toStation ∧
  ∃ s' v, s' ≠ toStation ∧ history !! s' = Some v ∧
          v < stationCountOf history toStation.
Proof.
  unfold overuseWarn. set (c := stationCountOf history toStation).
  rewrite andb_true_iff, !bool_decide_eq_true. intros [Havg Hc].
  split; [done|].
  destruct (decide (Exists (λ p : string * Z, p.1 ≠ toStation ∧ p.2 < c)
                      (map_to_list history))) as [Hex|Hall].
  { apply Exists_exists in Hex as ([s' v] & Hin & Hne & Hlt).
    exists s', v. split_and!; [done| |done]. by apply elem_of_map_to_list. }
  exfalso. apply not_Exists_Forall in Hall; [|intros p; apply _].
  assert (Forall (λ v, c ≤ v) (map_to_list history).*2) as Hge.
  { apply Forall_fmap, Forall_forall. intros [s' v] Hin. simpl.
    apply (proj1 (Forall_forall _ _) Hall) in Hin as Hp. simpl in Hp.
    apply elem_of_map_to_list in Hin.
    destruct (decide (s' = toStation)) as [->|Hne].
    - subst c. unfold stationCountOf. rewrite Hin. simpl. lia.
    - apply Z.nlt_ge. intros Hlt. by apply Hp. }
  apply Zsum_ge in Hge. rewrite length_fmap in Hge.
  unfold avgCountOf in Havg.
  rewrite foldl_add_Zsum, Z.add_0_l, length_fmap in Havg.
  destruct (decide (length (map_to_list history) = 0%nat)) as [Hz|Hnz].
  - apply length_zero_iff_nil, map_to_list_empty_iff in Hz.
    subst c. unfold stationCountOf in Hc. rewrite Hz, lookup_empty in Hc.
    simpl in Hc. lia.
  - set (keys := Z.of_nat (length (map_to_list history))) in *.
    assert (1 ≤ keys) as Hk by (subst keys; lia).
    assert (warnCore c (Zsum (map_to_list history).*2) keys = true) as Hw.
    { unfold warnCore. rewrite andb_true_iff, !bool_decide_eq_true. done. }
    rewrite warnCore_warnZ in Hw by done. unfold warnZ in Hw.
    apply andb_true_iff in Hw as [Hw _]. apply Z.ltb_lt in Hw. nia.
Qed.

Lemma history_keys_at_STATIONS (table : list Row) (since : date)
    (w s : string) :
  Forall (λ r, row_station r ∈ STATIONS)
    (filter (λ r, employee_id r = w ∧ since ≤ row_date r) table) →
  is_Some (getEmployeeHistory table since w !! s) → s ∈ STATIONS.
Proof.
  intros Hst [v Hv].
  pose proof (getEmployeeHistory_count table since w s) as Hc.
  unfold stationCountOf in Hc. rewrite Hv in Hc. simpl in Hc.
  pose proof (getEmployeeHistory_pos table since w s v Hv) as Hpos.
  simpl in Hpos.
  destruct (filter (λ r, row_station r = s)
              (filter (λ r, employee_id r = w ∧ since ≤ row_date r) table))
    as [|r rest] eqn:Hf.
  { simpl in Hc. lia. }
  assert (r ∈ filter (λ r, row_station r = s)
                (filter (λ r, employee_id r = w ∧ since ≤ row_date r) table))
    as Hr by (rewrite Hf; left).
  apply list_elem_of_filter in Hr as [<- Hr].
  by apply (proj1 (Forall_forall _ _) Hst).
Qed.

(** X26. What it takes for a move to be held, the rows of the dragged
    worker in the window being at stations of [STATIONS]: when
    [handleDrop] does not apply a drop on another place (it shows no
    toast), the worker has at least six visits to the destination in the
    window and has visited some other station of [STATIONS] less often. So
    a worker with at most five visits to the destination, or whose other
    visited stations of [STATIONS] all have at least as many visits, is
    moved at once. A visit count is the entry of the station in the
    history map, 0 without an entry. *)
Theorem held_move_takes_a_rarer_station (now : Clock) (st : State)
    (d : Assignment) (toStation : string) (toLane : option Z) :
  draggedEmployee st = Some d →
  ¬ (station d = toStation ∧ lane d = toLane) →
  Forall (λ r, row_station r ∈ STATIONS)
    (filter (λ r, employee_id r = employeeId d ∧ sixMonthsAgo now ≤ row_date r)
       (work_history st)) →
  let history :=
    getEmployeeHistory (work_history st) (sixMonthsAgo now) (employeeId d) in
  let count := λ s, default 0 (history !! s) in
  ((handleDrop now st toStation toLane).2 = None →
   6 ≤ count toStation ∧
   ∃ s', s' ∈ STATIONS ∧ s' ≠ toStation ∧ 0 < count s' < count toStation) ∧
  (count toStation ≤ 5 ∨
   (∀ s', s' ∈ STATIONS → s' ≠ toStation →
          count s' = 0 ∨ count toStation ≤ count s') →
   handleDrop now st toStation toLane = performMove now st toStation toLane).
Proof.
  intros Hd Hplace Hst history count.
  change count with (stationCountOf history).
  assert (overuseWarn history toStation = true →
          6 ≤ stationCountOf history toStation ∧
          ∃ s', s' ∈ STATIONS ∧ s' ≠ toStation ∧
                0 < stationCountOf history s' <
                stationCountOf history toStation) as Hwarn.
  { intros (Hc & s' & v & Hne & Hv & Hlt)%overuseWarn_rarer.
    split; [lia|]. exists s'.
    split; [by eapply history_keys_at_STATIONS; [exact Hst|exists v]|].
    split; [done|].
    assert (stationCountOf history s' = v) as ->
      by (unfold stationCountOf; by rewrite Hv).
    split; [|done].
    by apply (getEmployeeHistory_pos (work_history st) (sixMonthsAgo now)
                (employeeId d) s' v). }
  unfold handleDrop. rewrite Hd, decide_False by done. fold history.
  destruct (overuseWarn history toStation) eqn:Hw.
  - split; [intros _; by apply Hwarn|].
    destruct (Hwarn eq_refl) as (Hc & s' & Hin & Hne & Hpos & Hlt).
    intros [Hle|Hall]; [lia|].
    destruct (Hall s' Hin Hne); lia.
  - split; [|done]. unfold performMove. rewrite Hd. simpl. discriminate.
Qed.

(** ** There and back *)

Lemma filter_split_perm {A} (P : A → Prop) `{!∀ x, Decision (P x)}
    (l : list A) x :
  filter P l = [x] → filter (λ y, ¬ P y) l ++ [x] ≡ₚ l.
Proof.
  intros Hx. rewrite <- Hx. rewrite Permutation_app_comm.
  apply filter_app_complement.
Qed.

Lemma getEmployeeHistory_perm table table' since w :
  table ≡ₚ table' →
  getEmployeeHistory table since w = getEmployeeHistory table' since w.
Proof.
  intros Hperm. apply map_eq. intros s.
  unfold getEmployeeHistory.
  change (foldl _ ∅ ?d) with (foldl countRow ∅ d).
  set (data := filter _ table). set (data' := filter _ table').
  assert (data ≡ₚ data') as Hdata by (subst data data'; by rewrite Hperm).
  assert (filter (λ r, row_station r = s) data ≡ₚ
          filter (λ r, row_station r = s) data') as Hs by (by rewrite Hdata).
  pose proof (countRows_lookup data ∅ s) as H1.
  pose proof (countRows_lookup data' ∅ s) as H2.
  pose proof (countRows_None data ∅ s) as N1.
  pose proof (countRows_None data' ∅ s) as N2.
  rewrite (Permutation_length Hs) in H1. rewrite <- H2 in H1.
  destruct (foldl countRow ∅ data !! s) as [v|] eqn:E1;
    destruct (foldl countRow ∅ data' !! s) as [v'|] eqn:E2.
  - simpl in H1. by subst.
  - exfalso. destruct N2 as [N2 _]. destruct (N2 eq_refl) as [_ Hnil].
    rewrite Hnil in Hs. apply Permutation_nil_r in Hs.
    destruct N1 as [_ N1]. by discriminate N1.
  - exfalso. destruct N1 as [N1 _]. destruct (N1 eq_refl) as [_ Hnil].
    rewrite Hnil in Hs. symmetry in Hs. apply Permutation_nil_r in Hs.
    destruct N2 as [_ N2]. by discriminate N2.
  - done.
Qed.

Lemma there_and_back_rows now (a : Assignment) toStation toLane
    (table : list Row) :
  filter (λ r, employee_id r = employeeId a ∧ row_date r = today now) table =
    [rowOfAssignment now a] →
  filter (λ r, ¬ sameRow now (movedEntry a toStation toLane) r)
    (filter (λ r, ¬ sameRow now a r) table ++
     [movedRow now a toStation toLane]) ++
  [movedRow now (movedEntry a toStation toLane) (station a) (lane a)]
  ≡ₚ table.
Proof.
  intros Hrows.
  assert (∀ r, r ∈ table → employee_id r = employeeId a →
               row_date r = today now → r = rowOfAssignment now a) as Honly.
  { intros r Hr Hw Hd.
    assert (r ∈ [rowOfAssignment now a]) as Hin
      by (rewrite <- Hrows; by apply list_elem_of_filter).
    by apply list_elem_of_singleton in Hin. }
  rewrite filter_app, filter_cons_False, filter_nil, app_nil_r.
  2:{ intros Hn. apply Hn. by repeat split. }
  rewrite list_filter_filter.
  rewrite (filter_iff_on _
             (λ r, ¬ (employee_id r = employeeId a ∧ row_date r = today now))
             table).
  2:{ intros r Hr. unfold sameRow. simpl. split; [|tauto].
      intros [_ Hn] [Hw Hd]. apply Hn.
      rewrite (Honly r Hr Hw Hd). by repeat split. }
  by apply filter_split_perm.
Qed.

(** X27. There and back: when the dragged entry is the only entry of
    the worker and each table holds one row of the worker for today, the
    row of that entry, then moving the worker to any place and, dragging
    the moved entry, back to where it stood gives the entries and the two
    tables their content again, up to the order; the history index of
    every worker is what it was. *)
Theorem move_there_and_back (now : Clock) (st : State) (a : Assignment)
    (toStation : string) (toLane : option Z) :
  draggedEmployee st = Some a →
  filter (λ b, employeeId b = employeeId a) (assignments st) = [a] →
  filter (λ r, employee_id r = employeeId a ∧ row_date r = today now)
    (daily_assignments st) = [rowOfAssignment now a] →
  filter (λ r, employee_id r = employeeId a ∧ row_date r = today now)
    (work_history st) = [rowOfAssignment now a] →
  let there := (performMove now st toStation toLane).1 in
  let moved := movedEntry a toStation toLane in
  let back :=
    (performMove now (handleDragStart there moved) (station a) (lane a)).1 in
  filter (λ b, employeeId b = employeeId a) (assignments there) = [moved] ∧
  assignments back ≡ₚ assignments st ∧
  daily_assignments back ≡ₚ daily_assignments st ∧
  work_history back ≡ₚ work_history st ∧
  ∀ w, getEmployeeHistory (work_history back) (sixMonthsAgo now) w =
       getEmployeeHistory (work_history st) (sixMonthsAgo now) w.
Proof.
  intros Hd Hent Hdaily Hhist there moved back.
  assert (∀ b, b ∈ assignments st → employeeId b = employeeId a → b = a)
    as Honly.
  { intros b Hb Hw.
    assert (b ∈ [a]) as Hin by (rewrite <- Hent; by apply list_elem_of_filter).
    by apply list_elem_of_singleton in Hin. }
  assert (filter (λ b, ¬ samePlace a b) (assignments st) =
          filter (λ b, ¬ employeeId b = employeeId a) (assignments st))
    as Hout.
  { apply filter_iff_on. intros b Hb. unfold samePlace. split; [|tauto].
    intros Hn Hw. apply Hn. by rewrite (Honly b Hb Hw). }
  assert (assignments there =
          filter (λ b, ¬ employeeId b = employeeId a) (assignments st) ++
          [moved]) as Hthere.
  { subst there. unfold performMove. rewrite Hd. simpl. by rewrite Hout. }
  assert (work_history back ≡ₚ work_history st) as Hwh.
  { subst back there. unfold performMove at 1. simpl.
    unfold performMove. rewrite Hd. simpl.
    by apply there_and_back_rows. }
  split_and!.
  - rewrite Hthere, filter_app, list_filter_filter.
    rewrite filter_none by (intros b _ [? ?]; done).
    rewrite filter_cons_True by done. done.
  - subst back. unfold performMove at 1. simpl. rewrite Hthere.
    rewrite filter_app, list_filter_filter.
    rewrite filter_cons_False, filter_nil, app_nil_r.
    2:{ intros Hn. apply Hn. by repeat split. }
    rewrite (filter_iff_on _ (λ b, ¬ employeeId b = employeeId a)
               (assignments st)).
    2:{ intros b Hb. unfold samePlace. simpl. tauto. }
    assert ({| employeeId := employeeId a; employeeName := employeeName a;
               station := station a; lane := lane a |} = a) as ->
      by (by destruct a).
    by apply filter_split_perm.
  - subst back there. unfold performMove at 1. simpl.
    unfold performMove. rewrite Hd. simpl.
    by apply there_and_back_rows.
  - done.
  - intros w. by apply getEmployeeHistory_perm.
Qed.

(** X28. The badges after a run are the entries it placed at the
    stations without lanes: every worker placed at such a station can be
    dragged, and nothing else can (not the free text of [FL], and no worker
    placed at a station with lanes, whose entry has no lane). *)
Theorem badges_after_run (now : Clock) (st : State) (a : Assignment)
    (s : string) :
  selectedEmployees st ≠ [] →
  let st' := (distributeEmployees now st).1 in
  a ∈ draggableOf (renderStationCard st' s) ↔
  a ∈ placements now st ∧ station a = s ∧ STATION_LANES !! s = None.
Proof.
  intros Hsel st'.
  assert (assignments st' = withManual (flManual st) (placements now st))
    as Hent by (subst st'; by rewrite distribute_accepted).
  pose proof (placements_rows now st) as (_ & _ & Hall).
  rewrite Forall_forall in Hall.
  split.
  - intros (Ha & Hs & HFL & Hlane)%draggable_entry.
    rewrite Hent in Ha. unfold withManual in Ha.
    assert (a ∈ placements now st) as Hp.
    { destruct (trimTruthy _); [|done].
      apply elem_of_app in Ha as [Ha|Ha]; [done|].
      apply list_elem_of_singleton in Ha. subst a. simpl in Hs. by subst s. }
    split_and!; [done..|].
    destruct (Hall a Hp) as (_ & Hnone & _).
    destruct (STATION_LANES !! s); [|done].
    destruct Hlane as (l & Hl & _). by rewrite Hnone in Hl.
  - intros (Hp & Hs & Hlane). apply entry_draggable; [|done| |].
    + rewrite Hent. unfold withManual.
      destruct (trimTruthy _); [|done]. apply elem_of_app. by left.
    + destruct (Hall a Hp) as (Hst & _).
      apply elem_of_sortedStations in Hst as (_ & HFL & _). by subst s.
    + by rewrite Hlane.
Qed.

(** ** The plan of a first day *)

Lemma sort_flat {A} (cmp : A → A → Z) (l : list A) :
  (∀ a b, a ∈ l → b ∈ l → cmp a b = 0) → sort cmp l = l.
Proof.
  induction l as [|x l IH]; intros Hflat; [done|].
  change (sort cmp (x :: l)) with (sort_insert cmp x (sort cmp l)).
  rewrite IH by (intros a b Ha Hb; apply Hflat; by right).
  destruct l as [|y l]; [done|]. simpl.
  rewrite (Hflat x y) by (try left; right; left). done.
Qed.

Lemma filter_out_take {A B} `{EqDecision B} (f : A → B) (n : nat)
    (l : list A) :
  NoDup (f <$> l) → filter (λ x, f x ∉ f <$> take n l) l = drop n l.
Proof.
  intros Hnd.
  transitivity (filter (λ x, f x ∉ f <$> take n l) (take n l ++ drop n l));
    [by rewrite take_drop|].
  rewrite <- (take_drop n l) in Hnd. rewrite fmap_app in Hnd.
  apply NoDup_app in Hnd as (_ & Hdisj & _).
  rewrite filter_app, filter_none, filter_all; [done| |].
  - apply Forall_forall. intros x Hx Hin. eapply Hdisj; [exact Hin|].
    by apply list_elem_of_fmap_2.
  - intros x Hx Hn. apply Hn. by apply list_elem_of_fmap_2.
Qed.

Lemma zip_with_replicate_app {A B C} (f : A → B → C) (l : list A) n s k :
  zip_with f l (replicate n s ++ k) =
  ((λ a, f a s) <$> take n l) ++ zip_with f (drop n l) k.
Proof.
  revert l. induction n as [|n IH]; intros l; simpl.
  - by rewrite drop_0.
  - destruct l as [|a l]; [done|]. simpl. by rewrite IH.
Qed.

Lemma planFrom_flat now roster needs (hs : list EmployeeHistory) ss l k :
  NoDup (eh_id <$> hs) →
  (∀ s a b, a ∈ hs → b ∈ hs → countAt s a = countAt s b) →
  poolOf hs (assignedEmployees l) = drop k hs →
  newAssignments (planFrom now roster needs hs l ss) =
  newAssignments l ++
  zip_with (λ e s, entryOf roster s e) (drop k hs) (slotsOf needs ss).
Proof.
  intros Hnd Hflat. revert l k.
  induction ss as [|s ss IH]; intros l k Hpool.
  - simpl. by rewrite zip_with_nil_r, app_nil_r.
  - rewrite planFrom_cons.
    assert (takenFor needs hs (assignedEmployees l) s =
            take (Z.to_nat (needOf needs s)) (drop k hs)) as Htaken.
    { unfold takenFor, availableFor. fold (poolOf hs (assignedEmployees l)).
      rewrite Hpool, sort_flat; [done|].
      intros a b Ha%subseteq_drop Hb%subseteq_drop.
      rewrite (Hflat s a b) by done. lia. }
    rewrite Htaken.
    rewrite (IH _ (k + Z.to_nat (needOf needs s))%nat).
    + simpl. unfold slotsOf. simpl. fold (slotsOf needs ss).
      rewrite zip_with_replicate_app, drop_drop, <- app_assoc. done.
    + simpl. unfold poolOf in *.
      rewrite <- drop_drop.
      rewrite <- (filter_out_take eh_id (Z.to_nat (needOf needs s)) (drop k hs)).
      2:{ rewrite fmap_drop. eapply sublist_NoDup; [exact Hnd|].
          apply sublist_drop. }
      rewrite <- Hpool, list_filter_filter.
      apply list_filter_iff. intros e.
      rewrite not_elem_of_union, elem_of_list_to_set. tauto.
Qed.

Lemma getEmployeeHistory_empty table since w :
  (∀ r, r ∈ table → employee_id r = w → row_date r < since) →
  getEmployeeHistory table since w = ∅.
Proof.
  intros Hold. unfold getEmployeeHistory. rewrite filter_none; [done|].
  intros r Hr [Hw Hd]. specialize (Hold r Hr Hw). lia.
Qed.

(** X29. The plan of a first day. When no selected worker has a row in
    the window, a run on a duplicate-free selection hands out the places in
    the order of the selection: the stations other than [FL] with a
    positive need, in descending need (equal needs in the order of
    [STATIONS]), each taken as many times as it needs workers, are paired
    off with the selected workers in the order in which they were checked,
    until the places or the workers run out. *)
Theorem first_day_plan (now : Clock) (st : State) :
  selectedEmployees st ≠ [] → NoDup (selectedEmployees st) →
  (∀ r, r ∈ work_history st → employee_id r ∈ selectedEmployees st →
        row_date r < sixMonthsAgo now) →
  placements now st =
  zip_with (λ w s, {| employeeId := w;
                      employeeName := nameOf (employees st) w;
                      station := s; lane := None |})
    (selectedEmployees st)
    (slotsOf (stationNeeds st) (sortedStations (stationNeeds st))).
Proof.
  intros Hsel Hnd Hold.
  unfold placements. rewrite runLoop_planFrom.
  rewrite (planFrom_flat _ _ _ _ _ _ 0%nat).
  - simpl. rewrite drop_0. unfold fetchHistories.
    by rewrite zip_with_fmap_l.
  - by rewrite eh_id_fetchHistories.
  - intros s a b Ha Hb. unfold countAt.
    assert (∀ e, e ∈ fetchHistories now st → history e = ∅) as Hempty.
    { intros e (w & -> & Hw)%list_elem_of_fmap. simpl.
      apply getEmployeeHistory_empty. intros r Hr Heq. apply Hold; [done|].
      by rewrite Heq. }
    by rewrite (Hempty a), (Hempty b).
  - simpl. rewrite drop_0. unfold poolOf. apply filter_all, Forall_forall.
    intros e _. apply not_elem_of_empty.
Qed.

(** ** The further properties at concrete inputs *)

Lemma history_entry_counts_rows_witness :
  stationCountOf
    (getEmployeeHistory (work_history overusedState) 19816 "e1") "Pack" = 6.
Proof.
  destruct (history_entry_counts_rows (work_history overusedState) 19816
              "e1" "Pack") as [Hcount _].
  - apply (bool_decide_unpack _). vm_compute. exact I.
  - apply (bool_decide_unpack _). vm_compute. exact I.
  - rewrite Hcount. vm_compute. reflexivity.
Defined.

Lemma distribute_entries_wellformed_witness :
  (atPlock = manualEntry (flManual morningState) ∧
   ¬ Blank (flManual morningState)) ∨
  (employeeId atPlock ∈ selectedEmployees morningState ∧
   employeeName atPlock = nameOf (employees morningState) (employeeId atPlock) ∧
   lane atPlock = None ∧
   station atPlock ∈ STATIONS ∧ station atPlock ≠ "FL" ∧
   0 < needOf (stationNeeds morningState) (station atPlock)).
Proof.
  destruct (distribute_entries_wellformed exampleClock morningState atPlock)
    as [_ Hentry].
  - discriminate.
  - apply Hentry. vm_compute. left.
Defined.

Lemma distribute_fills_what_it_can_witness :
  length (placements exampleClock starvedState) = 3%nat.
Proof.
  destruct (distribute_fills_what_it_can exampleClock starvedState)
    as (Hlen & _).
  - discriminate.
  - apply (bool_decide_unpack _). vm_compute. exact I.
  - exact Hlen.
Defined.

Lemma distribute_tables_witness : work_history firstRun = [staleRow].
Proof.
  destruct (distribute_tables exampleClock morningState) as (_ & _ & Hh & _).
  - discriminate.
  - exact Hh.
Defined.

Lemma distribute_adds_visits_witness :
  stationCountOf
    (getEmployeeHistory (work_history firstRun) (sixMonthsAgo exampleClock)
       "e1") "Plock" = 1.
Proof.
  apply (distribute_adds_visits exampleClock morningState "e1" "Plock").
  - discriminate.
  - simpl. lia.
Defined.

Lemma performMove_entries_witness :
  length (assignments (performMove exampleClock dragState "Pack" None).1) =
  1%nat.
Proof.
  destruct (performMove_entries exampleClock dragState atPlock "Pack" None)
    as [_ Hone].
  - reflexivity.
  - destruct Hone as [_ Hlen].
    + vm_compute. left.
    + discriminate.
    + apply (bool_decide_unpack _). vm_compute. exact I.
    + exact Hlen.
Defined.

Lemma performMove_ledger_witness :
  movedRow exampleClock atPlock "Pack" None ∈
    work_history (performMove exampleClock dragState "Pack" None).1.
Proof.
  destruct (performMove_ledger exampleClock dragState atPlock "Pack" None
              work_history) as (Hin & _).
  - by right.
  - reflexivity.
  - exact Hin.
Defined.

Lemma drop_keeps_mirror_witness :
  MirrorOn 20000 (handleDrop exampleClock dragState "Pack" None).1.
Proof.
  destruct (drop_keeps_mirror exampleClock dragState "Pack" None 20000)
    as [Hdrop _].
  - intros r Hd. simpl.
    rewrite elem_of_cons, !list_elem_of_singleton. split.
    + intros [->| ->]; [simpl in Hd; lia|done].
    + intros ->. by right.
  - exact Hdrop.
Defined.

Lemma first_run_mirrors_witness : MirrorOn 20000 firstRun.
Proof.
  apply (first_run_mirrors exampleClock morningState 20000).
  - discriminate.
  - intros r Hr. by apply elem_of_nil in Hr.
  - intros Hday. by destruct Hday.
Defined.

Lemma cancelled_move_leaves_state_witness :
  cancelWarning (handleDrop exampleClock overusedState "Pack" None).1 =
  overusedState.
Proof.
  destruct (cancelled_move_leaves_state exampleClock overusedState atPlock
              "Pack" None) as (_ & _ & Hback & _).
  - reflexivity.
  - intros [Hs _]. discriminate Hs.
  - reflexivity.
  - vm_compute. reflexivity.
  - exact Hback.
Defined.

Lemma reload_after_run_witness :
  loadTodayAssignments exampleClock exampleRoster firstRun =
  Some (setAssignments firstRun (placements exampleClock morningState)).
Proof.
  apply (reload_after_run exampleClock exampleRoster morningState).
  - discriminate.
  - intros w Hw. apply elem_of_cons in Hw as [->|Hw].
    + eexists. split; reflexivity.
    + apply list_elem_of_singleton in Hw as ->.
      eexists. split; reflexivity.
Defined.

Lemma needs_round_trip_witness :
  needOf
    (stationNeeds
       (loadTodayNeeds exampleClock
          (saveStationNeeds exampleClock morningState exampleNeedRows)
          morningState)) "Plock" = 1.
Proof.
  destruct (needs_round_trip exampleClock morningState exampleNeedRows "Plock")
    as [Hneed _].
  - vm_compute. left.
  - exact Hneed.
Defined.

Lemma checkbox_keeps_selection_witness :
  NoDup (selectedEmployees (onCheckedChange morningState "e3" true)).
Proof.
  destruct (checkbox_keeps_selection morningState "e3" true) as [Hnd _].
  - apply (bool_decide_unpack _). vm_compute. exact I.
  - intros _. apply (bool_decide_unpack _). vm_compute. exact I.
  - exact Hnd.
Defined.

Lemma run_leaves_lanes_empty_witness :
  draggableOf
    (renderStationCard (distributeEmployees exampleClock starvedState).1
       "Pack") = [].
Proof.
  destruct (run_leaves_lanes_empty exampleClock starvedState "Pack" 11)
    as [_ Hnone].
  - discriminate.
  - vm_compute. reflexivity.
  - exists atPack. split; [vm_compute; left|reflexivity].
  - exact Hnone.
Defined.

Lemma dragged_badge_lands_on_target_witness :
  movedEntry atPlock "Pack" (Some 5) ∈
    draggableOf
      (renderStationCard
         (handleDrop exampleClock (handleDragStart laneState atPlock) "Pack"
            (Some 5)).1 "Pack").
Proof.
  destruct (dragged_badge_lands_on_target exampleClock laneState atPlock
              "Plock" "Pack" (Some 5)) as (Hbadge & _).
  - vm_compute. left.
  - apply (bool_decide_unpack _). vm_compute. exact I.
  - intros [Hs _]. discriminate Hs.
  - vm_compute. reflexivity.
  - exact Hbadge.
Defined.

Lemma overuse_check_exact_in_binary64_witness :
  overuseWarn64
    (getEmployeeHistory (work_history overusedState) 19816 "e1") "Pack" =
  overuseWarn
    (getEmployeeHistory (work_history overusedState) 19816 "e1") "Pack".
Proof.
  destruct (overuse_check_exact_in_binary64 (work_history overusedState)
              19816 "e1" "Pack") as [_ Hsame].
  - apply (bool_decide_unpack _). vm_compute. exact I.
  - vm_compute. lia.
  - exact Hsame.
Defined.

Lemma positionsState_Apart :
  Positions.Apart (Positions.assignments positionsState).
Proof.
  assert (∀ s x, x ∈ Positions.shownAt (Positions.assignments positionsState) s →
            (s = "Pack" ∧ (x = "e1" ∨ x = "e2")) ∨ (s = "KM" ∧ x = "e3"))
    as Hwhere.
  { intros s x. unfold Positions.shownAt, Positions.assigned. simpl.
    destruct (decide (s = "Pack")) as [->|HP].
    { intros Hx. left. split; [done|]. vm_compute in Hx.
      apply elem_of_cons in Hx as [->|Hx]; [by left|].
      apply list_elem_of_singleton in Hx as ->. by right. }
    rewrite lookup_insert_ne by done.
    destruct (decide (s = "KM")) as [->|HK].
    { intros Hx. right. split; [done|]. vm_compute in Hx.
      by apply list_elem_of_singleton in Hx. }
    rewrite lookup_singleton_ne by done. by intros ?%elem_of_nil. }
  split.
  - intros s. unfold Positions.shownAt, Positions.assigned. simpl.
    destruct (decide (s = "Pack")) as [->|HP].
    { apply (bool_decide_unpack _). by vm_compute. }
    rewrite lookup_insert_ne by done.
    destruct (decide (s = "KM")) as [->|HK].
    { apply (bool_decide_unpack _). by vm_compute. }
    rewrite lookup_singleton_ne by done. apply NoDup_nil_2.
  - intros s1 s2 x H1 H2.
    apply Hwhere in H1 as [[-> H1]|[-> ->]];
      apply Hwhere in H2 as [[-> H2]|[-> H2]]; try done.
    + destruct H1 as [->| ->]; done.
    + destruct H2 as [?|?]; done.
Qed.

Lemma position_drop_result_witness :
  Positions.handleDropOnPackPosition positionsState "Pack" 1 = None ↔
  Positions.assignments positionsState !! "KM" = None.
Proof.
  destruct (position_drop_result positionsState
              {| Positions.d_id := "e3"; Positions.d_fromStation := "KM" |}
              "KM" "Pack" 1) as [Hthrows _].
  - reflexivity.
  - reflexivity.
  - discriminate.
  - exact Hthrows.
Defined.

Lemma position_drop_keeps_workers_apart_witness :
  ∃ st', Positions.handleDropOnPackPosition positionsState "Pack" 1 = Some st' ∧
         Positions.Apart (Positions.assignments st') ∧
         ∀ s, "e2" ∉ Positions.shownAt (Positions.assignments st') s.
Proof.
  destruct (position_drop_keeps_workers_apart positionsState
              {| Positions.d_id := "e3"; Positions.d_fromStation := "KM" |}
              "KM" "Pack" 1) as (st' & Hst' & Hapart & _ & _ & _ & Hlost).
  - reflexivity.
  - reflexivity.
  - discriminate.
  - vm_compute. left.
  - apply positionsState_Apart.
  - exists st'. split; [exact Hst'|]. split; [exact Hapart|].
    apply (Hlost "e2"); [reflexivity|discriminate].
Defined.

Lemma held_move_takes_a_rarer_station_witness :
  6 ≤ stationCountOf
        (getEmployeeHistory (work_history overusedState)
           (sixMonthsAgo exampleClock) "e1") "Pack".
Proof.
  destruct (held_move_takes_a_rarer_station exampleClock overusedState atPlock
              "Pack" None) as [Hheld _].
  - reflexivity.
  - intros [Hs _]. discriminate Hs.
  - apply (bool_decide_unpack _). vm_compute. exact I.
  - destruct Hheld as [Hsix _]; [vm_compute; reflexivity|exact Hsix].
Defined.

Lemma move_there_and_back_witness :
  work_history
    (performMove exampleClock
       (handleDragStart (performMove exampleClock dragState "Pack" None).1
          (movedEntry atPlock "Pack" None)) "Plock" None).1
  ≡ₚ work_history dragState.
Proof.
  destruct (move_there_and_back exampleClock dragState atPlock "Pack" None)
    as (_ & _ & _ & Hwh & _).
  - reflexivity.
  - vm_compute. reflexivity.
  - vm_compute. reflexivity.
  - vm_compute. reflexivity.
  - exact Hwh.
Defined.

Lemma badges_after_run_witness :
  atPlock ∈ draggableOf (renderStationCard firstRun "Plock").
Proof.
  apply (badges_after_run exampleClock morningState atPlock "Plock").
  - discriminate.
  - split; [vm_compute; left|]. split; [reflexivity|vm_compute; reflexivity].
Defined.

Lemma first_day_plan_witness :
  placements exampleClock starvedState =
  zip_with (λ w s, {| employeeId := w;
                      employeeName := nameOf exampleRoster w;
                      station := s; lane := None |})
    ["e1"; "e2"; "e3"] ["Pack"; "Pack"; "Pack"; "Plock"].
Proof.
  apply (first_day_plan exampleClock starvedState).
  - discriminate.
  - apply (bool_decide_unpack _). vm_compute. exact I.
  - intros r Hr. by apply elem_of_nil in Hr.
Defined.
